(** * PC-BASIC: token-stream cursor and execution-control engine

  A shallow embedding of [pcbasic/basic/codestream.py] (the classes
  [CodeStream] and [TokenisedStream]) and of the control part of
  [pcbasic/basic/interpreter.py] (the class [Interpreter]), with the
  argument parsers of [pcbasic/basic/statements.py] that feed it.

  Python 2 byte strings are lists of [ascii]; a stream is its buffer and
  its position; the interpreter is a record threaded through a state and
  error monad. *)

From Stdlib Require Import Ascii String ZArith Lia Bool.
From stdpp Require Import base list gmap strings.

Local Open Scope char_scope.
Local Open Scope nat_scope.
Local Open Scope list_scope.

(** ** Byte strings *)

Module Bytes.

(** [c in s], for a one-character [c] and a string or tuple [s]. *)
Definition inb (c : ascii) (s : list ascii) : bool :=
  existsb (Ascii.eqb c) s.

(** [d in t] for the result [d] of a [peek] or [read(1)], which is the
    empty string at the end of the buffer. *)
Definition opt_inb (d : option ascii) (t : list ascii) : bool :=
  match d with
  | Some c => inb c t
  | None => false
  end.

(** [str.upper] on one byte (the C locale: only a-z change). *)
Definition upper (c : ascii) : ascii :=
  let n := nat_of_ascii c in
  if (97 <=? n) && (n <=? 122) then ascii_of_nat (n - 32) else c.

Definition digits : list ascii :=
  ["0"; "1"; "2"; "3"; "4"; "5"; "6"; "7"; "8"; "9"].
Definition octdigits : list ascii :=
  ["0"; "1"; "2"; "3"; "4"; "5"; "6"; "7"].
Definition hexdigits : list ascii :=
  digits ++ ["a"; "b"; "c"; "d"; "e"; "f"; "A"; "B"; "C"; "D"; "E"; "F"].
Definition ascii_lowercase : list ascii :=
  ["a"; "b"; "c"; "d"; "e"; "f"; "g"; "h"; "i"; "j"; "k"; "l"; "m";
   "n"; "o"; "p"; "q"; "r"; "s"; "t"; "u"; "v"; "w"; "x"; "y"; "z"].
Definition ascii_letters : list ascii :=
  ascii_lowercase ++ map upper ascii_lowercase.

(** [s.lstrip(chars)], [s.rstrip(chars)] and [s.strip(chars)]. *)
Fixpoint lstrip (chars : list ascii) (s : list ascii) : list ascii :=
  match s with
  | c :: s' => if inb c chars then lstrip chars s' else s
  | [] => []
  end.
Definition rstrip (chars : list ascii) (s : list ascii) : list ascii :=
  rev (lstrip chars (rev s)).
Definition strip (chars : list ascii) (s : list ascii) : list ascii :=
  lstrip chars (rstrip chars s).

(** The last character [s[-1]] of a non-empty string. *)
Definition last_in (s : list ascii) (t : list ascii) : bool :=
  opt_inb (last s) t.

End Bytes.
Import Bytes.

(** ** Dialect constants

  [tokens.py] is not among the sources: the token values the scanner
  and the interpreter refer to are the fields of a class. *)

Class Tokens := {
REM : ascii;
FOR : ascii;
NEXT : ascii;
WHILE : ascii;
WEND : ascii;
THEN : ascii;
ELSE : ascii;
GOTO : ascii;
GOSUB : ascii;
T_UINT : ascii;
(** number of bytes that follow a lead byte, [None] when the byte is
    not a key of the table *)
PLUS_BYTES : ascii -> option nat;
NAME_CHARS : list ascii;
SIGILS : list ascii
}.

(** Modelled from the spec: [tk.END_LINE] and [tk.END_STATEMENT] of
  [tokens.py], which is not among the sources. A line record begins with
  the marker byte 0x00, the end of the buffer reads as the empty string,
  and a colon separates statements. *)
Definition NUL : ascii := "000".
Definition QUOTE : ascii := "034".
Definition END_LINE (d : option ascii) : bool :=
match d with
| None => true
| Some c => Ascii.eqb c NUL
end.
Definition END_STATEMENT (d : option ascii) : bool :=
match d with
| None => true
| Some c => Ascii.eqb c NUL || Ascii.eqb c ":"
end.
(** The characters of [tk.END_STATEMENT], for a range handed to
  [skip_to]; the empty string never matches a byte that was read. *)
Definition END_STATEMENT_chars : list ascii := [NUL; ":"].

(** ** Errors

  [error.py] is not among the sources: the numbers of the errors are
  the fields of a class. *)

Class ErrorNumbers := {
NEXT_WITHOUT_FOR : Z;
STX : Z;
RETURN_WITHOUT_GOSUB : Z;
IFC : Z;
OVERFLOW : Z;
UNDEFINED_LINE_NUMBER : Z;
TYPE_MISMATCH : Z;
NO_RESUME : Z;
RESUME_WITHOUT_ERROR : Z;
FOR_WITHOUT_NEXT : Z
}.

(** [error.RunError(err, pos)]. *)
Record RunError := { err : Z; pos : option Z }.

(** The outcome of a call: a value, a [RunError] raised, or a Python
    exception that is no [RunError] (a failed [assert], an index out of
    range), which no trap catches. *)
Inductive Res (A : Type) : Type :=
| Ok (a : A)
| Raise (e : RunError)
| Crash.
Arguments Ok {A} a.
Arguments Raise {A} e.
Arguments Crash {A}.

(** ** codestream.py *)

(** An [io.BytesIO]: the buffer and the position. A position past the end
  is allowed, and reads nothing. *)
Record Stream := { getvalue : list ascii; tell : nat }.

Module CodeStream.

Definition blanks : list ascii := [" "; "009"; "010"].

(** The bytes from the position on. *)
Definition unread (s : Stream) : list ascii :=
  drop (tell s) (getvalue s).

(** [seek(pos)]. *)
Definition seek (p : nat) (s : Stream) : Stream :=
  {| getvalue := getvalue s; tell := p |}.
(** [seek(-k, 1)]: a position before the start becomes 0. *)
Definition seek_back (k : nat) (s : Stream) : Stream :=
  seek (tell s - k) s.
(** [seek(0, 2)]. *)
Definition seek_end (s : Stream) : Stream :=
  seek (length (getvalue s)) s.

(** [read(n)]: [n] bytes, or fewer at the end of the buffer. *)
Definition read (n : nat) (s : Stream) : list ascii * Stream :=
  let d := take n (unread s) in
  (d, seek (tell s + length d) s).

(** [read(1)], with the empty string as [None]. *)
Definition read1 (s : Stream) : option ascii * Stream :=
  match unread s with
  | [] => (None, s)
  | c :: _ => (Some c, seek (S (tell s)) s)
  end.

(** Length of the string a [read(1)] returned. *)
Definition len1 (d : option ascii) : nat :=
  match d with Some _ => 1 | None => 0 end.
Definition str1 (d : option ascii) : list ascii :=
  match d with Some c => [c] | None => [] end.

Definition peek (n : nat) (s : Stream) : list ascii * Stream :=
  let '(d, s) := read n s in
  (d, seek_back (length d) s).

Definition peek1 (s : Stream) : option ascii * Stream :=
  let '(d, s) := read1 s in
  (d, seek_back (len1 d) s).

(** The loop of [skip_read], over the unread bytes [rest] with the
    position [p]: the first byte outside [skip_range], or the end. *)
Fixpoint skip_read_loop (skip_range : list ascii) (rest : list ascii)
    (p : nat) : option ascii * nat :=
  match rest with
  | [] => (None, p)
  | d :: rest' =>
      if inb d skip_range then skip_read_loop skip_range rest' (S p)
      else (Some d, S p)
  end.

Definition skip_read (skip_range : list ascii) (n : nat) (s : Stream)
    : list ascii * Stream :=
  let '(d, p) := skip_read_loop skip_range (unread s) (tell s) in
  let '(r, s) := read (n - 1) (seek p s) in
  (str1 d ++ r, s).

Definition skip_read1 (skip_range : list ascii) (s : Stream)
    : option ascii * Stream :=
  let '(d, p) := skip_read_loop skip_range (unread s) (tell s) in
  (d, seek p s).

Definition skip (skip_range : list ascii) (s : Stream)
    : option ascii * Stream :=
  let '(d, s) := skip_read1 skip_range s in
  (d, seek_back (len1 d) s).

Definition skip_blank_read (s : Stream) : option ascii * Stream :=
  skip_read1 blanks s.

Definition skip_blank (s : Stream) : option ascii * Stream :=
  let '(d, s) := skip_read1 blanks s in
  (d, seek_back (len1 d) s).

(** [read_if(d, in_range)]: [Some d] when read, [None] for Python's
    [None]. *)
Definition read_if (d : option ascii) (in_range : list ascii) (s : Stream)
    : option ascii * Stream :=
  match d with
  | Some c =>
      if inb c in_range then
        let '(_, s) := read 1 s in (Some c, s)
      else (None, s)
  | None => (None, s)
  end.

Definition skip_blank_read_if (in_range : list ascii) (s : Stream)
    : option ascii * Stream :=
  let '(d, s) := skip_blank s in
  read_if d in_range s.

(** The loop of [read_to]: [findrange] tells whether the byte read
    (or the empty string) ends the scan. The position returned is the one
    after [seek(-len(d), 1)]. *)
Fixpoint read_to_loop (findrange : option ascii -> bool)
    (rest : list ascii) (out : list ascii) (p : nat) : list ascii * nat :=
  match rest with
  | [] => (out, p)
  | d :: rest' =>
      if findrange (Some d) then (out, p)
      else read_to_loop findrange rest' (out ++ [d]) (S p)
  end.

Definition read_to (findrange : option ascii -> bool) (s : Stream)
    : list ascii * Stream :=
  let '(out, p) := read_to_loop findrange (unread s) [] (tell s) in
  (out, seek p s).

(** [require_read(in_range)] for one-byte tokens. *)
Definition require_read `{ErrorNumbers} (in_range : list ascii)
    (s : Stream) : Res ascii * Stream :=
  let '(d, p) := skip_read_loop blanks (unread s) (tell s) in
  let s := seek p s in
  match d with
  | Some c =>
      if inb c in_range then (Ok c, s)
      else (Raise {| err := STX; pos := None |}, seek_back 1 s)
  | None => (Raise {| err := STX; pos := None |}, s)
  end.

(** *** Numeric literals *)

Definition separators : list ascii := ["028"; "029"; "031"].

(** How the loop of [_read_dec] was left. *)
Inductive DecEnd :=
| EndOfBuffer      (* [not c] *)
| PutBack          (* [seek(-1, 1)] and [break] *)
| SuffixKept       (* [!] or [#], appended *)
| PercentSwallowed (* [%] read and dropped *).

(** The loop of [_read_dec] over the unread bytes: the word, the
    position the stream is left at, and the way out. *)
Fixpoint read_dec_loop (rest : list ascii) (have_exp have_point : bool)
    (word : list ascii) (p : nat) : list ascii * nat * DecEnd :=
  match rest with
  | [] => (word, p, EndOfBuffer)
  | c0 :: rest' =>
      let c := upper c0 in
      if Ascii.eqb c "." && negb have_point && negb have_exp then
        read_dec_loop rest' have_exp true (word ++ [c]) (S p)
      else if inb c ["E"; "D"] && negb have_exp then
        if Ascii.eqb c "E"
           && opt_inb (option_map upper (head rest')) ["L"; "Q"]
        then (word, p, PutBack)
        else read_dec_loop rest' true have_point (word ++ [c]) (S p)
      else if inb c ["-"; "+"]
              && (match word with [] => true | _ => last_in word ["E"; "D"] end)
      then read_dec_loop rest' have_exp have_point (word ++ [c]) (S p)
      else if inb c (digits ++ blanks ++ separators) then
        read_dec_loop rest' have_exp have_point (word ++ [c]) (S p)
      else if inb c ["!"; "#"] && negb have_exp then
        (word ++ [c], S p, SuffixKept)
      else if Ascii.eqb c "%" then
        (word, S p, PercentSwallowed)
      else (word, p, PutBack)
  end.

Definition _read_dec (s : Stream) : list ascii * Stream :=
  let '(word, p, _) := read_dec_loop (unread s) false false [] (tell s) in
  let s := seek p s in
  let trimword := rstrip blanks word in
  let s := seek_back (length word - length trimword) s in
  let word := strip blanks trimword in
  (word, s).

Fixpoint read_hex_loop (rest : list ascii) (word : list ascii) (p : nat)
    : list ascii * nat :=
  match rest with
  | [] => (word, p)
  | c :: rest' =>
      if inb c hexdigits then read_hex_loop rest' (word ++ [c]) (S p)
      else (word, p)
  end.

Definition _read_hex (s : Stream) : list ascii * Stream :=
  let '(_, s) := read 1 s in
  let '(word, p) := read_hex_loop (unread s) [] (tell s) in
  (word, seek p s).

Fixpoint read_oct_loop (rest : list ascii) (word : list ascii) (p : nat)
    : list ascii * nat :=
  match rest with
  | [] => (word, p)
  | c :: rest' =>
      if inb c (octdigits ++ blanks) then
        read_oct_loop rest' (word ++ [c]) (S p)
      else (word, p)
  end.

Definition _read_oct (s : Stream) : list ascii * Stream :=
  let '(d, s) := peek1 s in
  let s := if opt_inb (option_map upper d) ["O"]
           then snd (read 1 s) else s in
  let '(word, p) := read_oct_loop (unread s) [] (tell s) in
  (word, seek p s).

(** [read_number]: [None] is the [None] the function returns when no
    branch is taken. *)
Definition read_number (s : Stream) : option (list ascii) * Stream :=
  let '(c, s) := peek1 s in
  match c with
  | None => (Some [], s)
  | Some c =>
      if Ascii.eqb c "&" then
        let '(_, s) := read 1 s in
        let '(d, s) := peek1 s in
        if opt_inb (option_map upper d) ["H"] then
          let '(w, s) := _read_hex s in (Some (["&"; "H"] ++ w), s)
        else
          let '(w, s) := _read_oct s in (Some (["&"; "O"] ++ w), s)
      else if inb c (digits ++ ["."; "+"; "-"]) then
        let '(w, s) := _read_dec s in (Some w, s)
      else (None, s)
  end.

(** The token with every blank taken out, and the test that no blank
    stands at the start of a numeral or right after an exponent marker
    [E] or [D]; [after_exp] tells whether the byte before was such a
    marker (or there was none). *)
Definition remove_blanks (s : list ascii) : list ascii :=
  List.filter (fun c => negb (inb c blanks)) s.

Fixpoint no_blank_after_exp (after_exp : bool) (rest : list ascii) : bool :=
  match rest with
  | [] => true
  | c :: rest' =>
      if inb c blanks then negb after_exp && no_blank_after_exp false rest'
      else no_blank_after_exp (inb (upper c) ["E"; "D"]) rest'
  end.

(** The test of [_read_dec] that lets a sign in: the word is empty or
    ends with an exponent marker. *)
Definition sign_ok (word : list ascii) : bool :=
  match word with
  | [] => true
  | _ :: _ => last_in word ["E"; "D"]
  end.

(** What the way out of the loop of [_read_dec] tells, [w] being the
    bytes the loop added to the word, out of [rest], from position [p]. *)
Definition dec_end_spec (e : DecEnd) (rest w : list ascii)
    (have_exp : bool) (p p' : nat) : Prop :=
  match e with
  | EndOfBuffer => p' = p + length w /\ length w = length rest
  | PutBack => p' = p + length w /\ length w < length rest
  | SuffixKept =>
      p' = p + length w /\ have_exp = false
      /\ Forall (fun c => inb c ["E"; "D"] = false) w
      /\ exists c, last w = Some c /\ (c = "!" \/ c = "#")
  | PercentSwallowed =>
      p' = p + length w + 1 /\ rest !! length w = Some "%"
  end.

(** The exponent markers and the decimal points of a token. *)
Definition is_exp (c : ascii) : bool := inb c ["E"; "D"].
Definition is_point (c : ascii) : bool := Ascii.eqb c ".".

(** *** String literals *)

Definition read_string (end_line : option ascii -> bool) (s : Stream)
    : list ascii * Stream :=
  let '(word, s) := read1 s in
  if negb (opt_inb word [QUOTE]) then ([], seek_back (len1 word) s)
  else
    let '(body, s) :=
      read_to (fun d => opt_inb d [QUOTE] || end_line d) s in
    let '(delim, s) := read1 s in
    if opt_inb delim [QUOTE] then ([QUOTE] ++ body ++ [QUOTE], s)
    else ([QUOTE] ++ body, seek_back (len1 delim) s).

End CodeStream.

(** *** TokenisedStream *)

Module TokenisedStream.
Import CodeStream.

Section Scanner.
Context `{Tokens}.

(** [read_name], as [parse_name] and [_find_next] use it. The loop keeps
    the byte [d] read last, the bytes [rest] after it and the position. *)
Fixpoint read_name_loop (d : option ascii) (rest : list ascii)
    (name : list ascii) (p : nat) {struct rest}
    : list ascii * option ascii * nat :=
  if opt_inb d NAME_CHARS then
    match rest with
    | [] => (name ++ str1 d, None, p)
    | d' :: rest' => read_name_loop (Some d') rest' (name ++ str1 d) (S p)
    end
  else (name, d, p).

Definition read_name (s : Stream) : list ascii * Stream :=
  let '(d, s) := skip_blank_read s in
  if negb (opt_inb d ascii_letters) then ([], seek_back (len1 d) s)
  else
    let '(name, d, p) := read_name_loop d (unread s) [] (tell s) in
    let s := seek p s in
    let name := take 40 name in
    if opt_inb d SIGILS then (map upper (name ++ str1 d), s)
    else (map upper name, seek_back (len1 d) s).

(** The two flags of [skip_to] after the byte [c] was read. *)
Definition flags (c : ascii) (literal rem : bool) : bool * bool :=
  if Ascii.eqb c QUOTE then (negb literal, rem)
  else if Ascii.eqb c REM then (literal, true)
  else if Ascii.eqb c NUL then (false, false)
  else (literal, rem).

(** [off == '\0\0'] *)
Definition is_nul_nul (off : list ascii) : bool :=
  match off with
  | [a; b] => Ascii.eqb a NUL && Ascii.eqb b NUL
  | _ => false
  end.

(** The loop of [skip_to]; every turn that goes round again has read a
    byte, so a fuel above the number of unread bytes is never used up. *)
Fixpoint skip_to_loop (fuel : nat) (findrange : list ascii)
    (literal rem break_on_first_char : bool) (s : Stream) : Stream :=
  match fuel with
  | 0 => s
  | S fuel =>
      let '(c, s) := read1 s in
      match c with
      | None => s
      | Some c =>
          let '(literal, rem) := flags c literal rem in
          if literal || rem then
            skip_to_loop fuel findrange literal rem break_on_first_char s
          else if inb c findrange && break_on_first_char then
            seek_back 1 s
          else if Ascii.eqb c NUL then
            let '(off, s) := read 2 s in
            if (length off <? 2) || is_nul_nul off then s
            else
              let '(_, s) := read 2 s in
              skip_to_loop fuel findrange false rem true s
          else
            match PLUS_BYTES c with
            | Some n =>
                let '(_, s) := read n s in
                skip_to_loop fuel findrange literal rem true s
            | None => skip_to_loop fuel findrange literal rem true s
            end
      end
  end.

Definition skip_to (findrange : list ascii) (break_on_first_char : bool)
    (s : Stream) : Stream :=
  skip_to_loop (S (length (unread s))) findrange false false
    break_on_first_char s.

Definition skip_to_read (findrange : list ascii) (s : Stream)
    : option ascii * Stream :=
  read1 (skip_to findrange true s).

Definition require_end `{ErrorNumbers} (s : Stream) : Res unit * Stream :=
  let '(d, s) := skip_blank s in
  if END_STATEMENT d then (Ok tt, s)
  else (Raise {| err := STX; pos := None |}, s).

(** The inner loop of [skip_block], for [NEXT I, J]: the counter, the
    stream, and whether the function returned from inside the loop. *)
Fixpoint skip_block_commas (fuel : nat) (stack : nat) (s : Stream)
    : nat * Stream * bool :=
  match fuel with
  | 0 => (stack, s, false)
  | S fuel =>
      let '(d, s) := skip_blank s in
      if END_STATEMENT d then (stack, s, false)
      else
        let s := skip_to (END_STATEMENT_chars ++ [","]) true s in
        let '(d, s) := peek1 s in
        if opt_inb d [","] then
          if 0 <? stack then
            let '(_, s) := read 1 s in
            skip_block_commas fuel (stack - 1) s
          else (stack, s, true)
        else skip_block_commas fuel stack s
  end.

(** The loop of [skip_block]. The counter [stack] never goes below 0. *)
Fixpoint skip_block_loop (fuel : nat) (for_char next_char : ascii)
    (allow_comma : bool) (stack : nat) (s : Stream) : Stream :=
  match fuel with
  | 0 => s
  | S fuel =>
      let '(c, s) := skip_to_read (END_STATEMENT_chars ++ [THEN; ELSE]) s in
      let '(at_end, s) :=
        if opt_inb c [NUL] then
          let '(trail, s) := read 4 s in
          ((length trail <? 2) || is_nul_nul (take 2 trail), s)
        else (false, s) in
      if at_end then s
      else
        let '(d, s) := skip_blank s in
        match d with
        | None => s
        | Some d =>
            if Ascii.eqb d for_char then
              let '(_, s) := read 1 s in
              skip_block_loop fuel for_char next_char allow_comma (S stack) s
            else if Ascii.eqb d next_char then
              if stack <=? 0 then s
              else
                let '(_, s) := read 1 s in
                let stack := stack - 1 in
                if allow_comma then
                  let '(stack, s, returned) :=
                    skip_block_commas (S (length (unread s))) stack s in
                  if returned then s
                  else
                    skip_block_loop fuel for_char next_char allow_comma
                      stack s
                else
                  skip_block_loop fuel for_char next_char allow_comma stack s
            else skip_block_loop fuel for_char next_char allow_comma stack s
        end
  end.

Definition skip_block (for_char next_char : ascii) (allow_comma : bool)
    (s : Stream) : Stream :=
  skip_block_loop (S (length (unread s))) for_char next_char allow_comma 0 s.

(** *** Buffers that differ inside strings and comments only *)

(** A byte that changes neither flag of [skip_to]: no quote, comment
    token or line marker. *)
Definition inert (c : ascii) : bool :=
  negb (Ascii.eqb c QUOTE || Ascii.eqb c REM || Ascii.eqb c NUL).

(** The bytes [skip_to] passes over after a byte [c] read outside
    strings and comments: the record of a line marker, or the rest of a
    token. *)
Definition plus (c : ascii) : nat :=
  if Ascii.eqb c NUL then 4 else default 0 (PLUS_BYTES c).

(** [region_eq literal rem l1 l2]: scanned as [skip_to] does, from the
    two flags [literal] and [rem], the unread bytes [l1] and [l2] are the
    same but for bytes read while a flag is set, in a string or a
    comment, where the two may hold different inert bytes. *)
Inductive region_eq : bool -> bool -> list ascii -> list ascii -> Prop :=
| region_eq_nil literal rem : region_eq literal rem [] []
| region_eq_inside literal rem x y l1 l2 :
    literal || rem = true -> inert x = true -> inert y = true ->
    region_eq literal rem l1 l2 ->
    region_eq literal rem (x :: l1) (y :: l2)
| region_eq_flag literal rem c l1 l2 literal' rem' :
    flags c literal rem = (literal', rem') ->
    literal' || rem' = true ->
    region_eq literal' rem' l1 l2 ->
    region_eq literal rem (c :: l1) (c :: l2)
| region_eq_token literal rem c l1 l2 :
    flags c literal rem = (false, false) ->
    take (plus c) l1 = take (plus c) l2 ->
    region_eq false false (drop (plus c) l1) (drop (plus c) l2) ->
    region_eq literal rem (c :: l1) (c :: l2).

(** Two streams at the same position whose unread bytes are so
    related. *)
Definition aligned (literal rem : bool) (s1 s2 : Stream) : Prop :=
  tell s1 = tell s2 /\ region_eq literal rem (unread s1) (unread s2).

(** A byte that is a token of its own outside strings and comments. *)
Definition plain (c : ascii) : bool :=
  inert c && bool_decide (PLUS_BYTES c = None).

(** The tokens [skip_block] looks at are such tokens, and the comment
    token is not the line marker. *)
Definition block_tokens_plain (for_char next_char : ascii) : bool :=
  forallb plain (blanks ++ [":"; ","; THEN; ELSE; for_char; next_char])
  && negb (Ascii.eqb REM NUL).

End Scanner.
End TokenisedStream.

(** ** Collaborators of the interpreter *)

(** [values.py] is not among the sources: the numbers a FOR loop counts
    with are a type [V] with the operations the interpreter calls. *)
Class Values (V : Type) := {
  (** [values.STR] and [values.DBL], the sigils a counter may not have *)
  STR : ascii;
  DBL : ascii;
  (** [values.to_type(sigil, v)], which may raise *)
  to_type : ascii -> V -> Res V;
  (** [session.values.from_value(1, sigil)] *)
  from_value_1 : ascii -> V;
  (** [a.gt(b)] *)
  gt : V -> V -> bool;
  (** [a.iadd(b)], the sum [a] is overwritten with; it may raise *)
  iadd : V -> V -> Res V;
  (** [a.sign()] *)
  sign : V -> Z;
  (** the value of a scalar that was never assigned *)
  null : V
}.

(** An entry of [session.events.enabled]. *)
Record EventHandler := {
  triggered : bool;
  stopped : bool;
  gosub : option nat
}.

(** [session.events]: the handlers are objects the GOSUB stack refers
    to, so they live in a table and are referred to by index. *)
Record Events := {
  suspend_all : bool;
  active : bool;
  handlers : list EventHandler;
  enabled : list nat
}.

(** ** interpreter.py *)

Module Interpreter.
Import CodeStream TokenisedStream.

Section Engine.
Context `{Tokens} `{ErrorNumbers} {V : Type} `{Values V}.
(** [session.events.reset()], from a module that is not among the
    sources. *)
Context (events_reset : Events -> Events).
(** [memory.complete_name], which appends the default sigil to a name
    that has none. *)
Context (complete_name : list ascii -> list ascii).

(** An entry of [for_stack]:
    [(counter_view, stop, step, sgn, forpos, nextpos)]. The view of the
    counter is the name of the scalar it looks at. *)
Record ForRecord := {
  counter_view : list ascii;
  f_stop : V;
  f_step : V;
  f_sgn : Z;
  forpos : nat;
  nextpos : nat
}.

(** An entry of [gosub_stack]: [(pos, run_mode, handler)]. *)
Record GosubRecord := {
  g_pos : nat;
  g_runmode : bool;
  g_handler : option nat
}.

Record State := {
  run_mode : bool;
  program_code : Stream;
  direct_line : Stream;
  (** [program.line_numbers] *)
  line_numbers : gmap nat nat;
  current_statement : nat;
  gosub_stack : list GosubRecord;
  for_stack : list ForRecord;
  while_stack : list (nat * nat);
  data_pos : nat;
  error_handle_mode : bool;
  error_resume : option (nat * bool);
  on_error : option nat;
  error_num : Z;
  error_pos : Z;
  events : Events;
  (** [session.scalars] *)
  scalars : gmap (list ascii) V
}.

Definition set_run_mode (x : bool) (st : State) : State :=
  {| run_mode := x; program_code := program_code st;
     direct_line := direct_line st; line_numbers := line_numbers st;
     current_statement := current_statement st;
     gosub_stack := gosub_stack st; for_stack := for_stack st;
     while_stack := while_stack st; data_pos := data_pos st;
     error_handle_mode := error_handle_mode st;
     error_resume := error_resume st; on_error := on_error st;
     error_num := error_num st; error_pos := error_pos st;
     events := events st; scalars := scalars st |}.
Definition set_program_code (x : Stream) (st : State) : State :=
  {| run_mode := run_mode st; program_code := x;
     direct_line := direct_line st; line_numbers := line_numbers st;
     current_statement := current_statement st;
     gosub_stack := gosub_stack st; for_stack := for_stack st;
     while_stack := while_stack st; data_pos := data_pos st;
     error_handle_mode := error_handle_mode st;
     error_resume := error_resume st; on_error := on_error st;
     error_num := error_num st; error_pos := error_pos st;
     events := events st; scalars := scalars st |}.
Definition set_direct_line (x : Stream) (st : State) : State :=
  {| run_mode := run_mode st; program_code := program_code st;
     direct_line := x; line_numbers := line_numbers st;
     current_statement := current_statement st;
     gosub_stack := gosub_stack st; for_stack := for_stack st;
     while_stack := while_stack st; data_pos := data_pos st;
     error_handle_mode := error_handle_mode st;
     error_resume := error_resume st; on_error := on_error st;
     error_num := error_num st; error_pos := error_pos st;
     events := events st; scalars := scalars st |}.
Definition set_current_statement (x : nat) (st : State) : State :=
  {| run_mode := run_mode st; program_code := program_code st;
     direct_line := direct_line st; line_numbers := line_numbers st;
     current_statement := x;
     gosub_stack := gosub_stack st; for_stack := for_stack st;
     while_stack := while_stack st; data_pos := data_pos st;
     error_handle_mode := error_handle_mode st;
     error_resume := error_resume st; on_error := on_error st;
     error_num := error_num st; error_pos := error_pos st;
     events := events st; scalars := scalars st |}.
Definition set_gosub_stack (x : list GosubRecord) (st : State) : State :=
  {| run_mode := run_mode st; program_code := program_code st;
     direct_line := direct_line st; line_numbers := line_numbers st;
     current_statement := current_statement st;
     gosub_stack := x; for_stack := for_stack st;
     while_stack := while_stack st; data_pos := data_pos st;
     error_handle_mode := error_handle_mode st;
     error_resume := error_resume st; on_error := on_error st;
     error_num := error_num st; error_pos := error_pos st;
     events := events st; scalars := scalars st |}.
Definition set_for_stack (x : list ForRecord) (st : State) : State :=
  {| run_mode := run_mode st; program_code := program_code st;
     direct_line := direct_line st; line_numbers := line_numbers st;
     current_statement := current_statement st;
     gosub_stack := gosub_stack st; for_stack := x;
     while_stack := while_stack st; data_pos := data_pos st;
     error_handle_mode := error_handle_mode st;
     error_resume := error_resume st; on_error := on_error st;
     error_num := error_num st; error_pos := error_pos st;
     events := events st; scalars := scalars st |}.
Definition set_while_stack (x : list (nat * nat)) (st : State) : State :=
  {| run_mode := run_mode st; program_code := program_code st;
     direct_line := direct_line st; line_numbers := line_numbers st;
     current_statement := current_statement st;
     gosub_stack := gosub_stack st; for_stack := for_stack st;
     while_stack := x; data_pos := data_pos st;
     error_handle_mode := error_handle_mode st;
     error_resume := error_resume st; on_error := on_error st;
     error_num := error_num st; error_pos := error_pos st;
     events := events st; scalars := scalars st |}.
Definition set_data_pos (x : nat) (st : State) : State :=
  {| run_mode := run_mode st; program_code := program_code st;
     direct_line := direct_line st; line_numbers := line_numbers st;
     current_statement := current_statement st;
     gosub_stack := gosub_stack st; for_stack := for_stack st;
     while_stack := while_stack st; data_pos := x;
     error_handle_mode := error_handle_mode st;
     error_resume := error_resume st; on_error := on_error st;
     error_num := error_num st; error_pos := error_pos st;
     events := events st; scalars := scalars st |}.
Definition set_error_handle_mode (x : bool) (st : State) : State :=
  {| run_mode := run_mode st; program_code := program_code st;
     direct_line := direct_line st; line_numbers := line_numbers st;
     current_statement := current_statement st;
     gosub_stack := gosub_stack st; for_stack := for_stack st;
     while_stack := while_stack st; data_pos := data_pos st;
     error_handle_mode := x;
     error_resume := error_resume st; on_error := on_error st;
     error_num := error_num st; error_pos := error_pos st;
     events := events st; scalars := scalars st |}.
Definition set_error_resume (x : option (nat * bool)) (st : State) : State :=
  {| run_mode := run_mode st; program_code := program_code st;
     direct_line := direct_line st; line_numbers := line_numbers st;
     current_statement := current_statement st;
     gosub_stack := gosub_stack st; for_stack := for_stack st;
     while_stack := while_stack st; data_pos := data_pos st;
     error_handle_mode := error_handle_mode st;
     error_resume := x; on_error := on_error st;
     error_num := error_num st; error_pos := error_pos st;
     events := events st; scalars := scalars st |}.
Definition set_on_error (x : option nat) (st : State) : State :=
  {| run_mode := run_mode st; program_code := program_code st;
     direct_line := direct_line st; line_numbers := line_numbers st;
     current_statement := current_statement st;
     gosub_stack := gosub_stack st; for_stack := for_stack st;
     while_stack := while_stack st; data_pos := data_pos st;
     error_handle_mode := error_handle_mode st;
     error_resume := error_resume st; on_error := x;
     error_num := error_num st; error_pos := error_pos st;
     events := events st; scalars := scalars st |}.
Definition set_error_num (x : Z) (st : State) : State :=
  {| run_mode := run_mode st; program_code := program_code st;
     direct_line := direct_line st; line_numbers := line_numbers st;
     current_statement := current_statement st;
     gosub_stack := gosub_stack st; for_stack := for_stack st;
     while_stack := while_stack st; data_pos := data_pos st;
     error_handle_mode := error_handle_mode st;
     error_resume := error_resume st; on_error := on_error st;
     error_num := x; error_pos := error_pos st;
     events := events st; scalars := scalars st |}.
Definition set_error_pos (x : Z) (st : State) : State :=
  {| run_mode := run_mode st; program_code := program_code st;
     direct_line := direct_line st; line_numbers := line_numbers st;
     current_statement := current_statement st;
     gosub_stack := gosub_stack st; for_stack := for_stack st;
     while_stack := while_stack st; data_pos := data_pos st;
     error_handle_mode := error_handle_mode st;
     error_resume := error_resume st; on_error := on_error st;
     error_num := error_num st; error_pos := x;
     events := events st; scalars := scalars st |}.
Definition set_events (x : Events) (st : State) : State :=
  {| run_mode := run_mode st; program_code := program_code st;
     direct_line := direct_line st; line_numbers := line_numbers st;
     current_statement := current_statement st;
     gosub_stack := gosub_stack st; for_stack := for_stack st;
     while_stack := while_stack st; data_pos := data_pos st;
     error_handle_mode := error_handle_mode st;
     error_resume := error_resume st; on_error := on_error st;
     error_num := error_num st; error_pos := error_pos st;
     events := x; scalars := scalars st |}.
Definition set_scalars (x : gmap (list ascii) V) (st : State) : State :=
  {| run_mode := run_mode st; program_code := program_code st;
     direct_line := direct_line st; line_numbers := line_numbers st;
     current_statement := current_statement st;
     gosub_stack := gosub_stack st; for_stack := for_stack st;
     while_stack := while_stack st; data_pos := data_pos st;
     error_handle_mode := error_handle_mode st;
     error_resume := error_resume st; on_error := on_error st;
     error_num := error_num st; error_pos := error_pos st;
     events := events st; scalars := x |}.

Definition set_suspend_all (x : bool) (ev : Events) : Events :=
  {| suspend_all := x; active := active ev; handlers := handlers ev;
     enabled := enabled ev |}.
Definition set_active (x : bool) (ev : Events) : Events :=
  {| suspend_all := suspend_all ev; active := x; handlers := handlers ev;
     enabled := enabled ev |}.
Definition set_handlers (x : list EventHandler) (ev : Events) : Events :=
  {| suspend_all := suspend_all ev; active := active ev; handlers := x;
     enabled := enabled ev |}.
Definition set_triggered (x : bool) (h : EventHandler) : EventHandler :=
  {| triggered := x; stopped := stopped h; gosub := gosub h |}.
Definition set_stopped (x : bool) (h : EventHandler) : EventHandler :=
  {| triggered := triggered h; stopped := x; gosub := gosub h |}.

(** *** The monad of the methods: the state is kept when an error is
    raised, as the attributes of the object are. *)

Definition M (A : Type) : Type := State -> Res A * State.

Definition ret {A} (a : A) : M A := fun st => (Ok a, st).
Definition raise {A} (e : RunError) : M A := fun st => (Raise e, st).
Definition bind {A B} (m : M A) (k : A -> M B) : M B :=
  fun st =>
    match m st with
    | (Ok a, st') => k a st'
    | (Raise e, st') => (Raise e, st')
    | (Crash, st') => (Crash, st')
    end.
Definition modify (f : State -> State) : M unit :=
  fun st => (Ok tt, f st).
Definition gets {A} (f : State -> A) : M A :=
  fun st => (Ok (f st), st).

Definition lift {A} (r : Res A) : M A := fun st => (r, st).

Notation "x <- c ;; k" := (bind c (fun x => k))
  (at level 20, c at level 99, k at level 200, only parsing).
Notation "' p <- c ;; k" := (bind c (fun x => let 'p := x in k))
  (at level 20, p pattern, c at level 99, k at level 200, only parsing).
Notation "c ;;; k" := (bind c (fun _ => k))
  (at level 100, k at level 200, right associativity, only parsing).

Definition run_error (e : Z) : RunError := {| err := e; pos := None |}.

(** A code stream is an object the methods share: [ins] is the name of
    one of the two, [true] for [program_code] and [false] for
    [direct_line]. *)
Definition stream_of (ins : bool) (st : State) : Stream :=
  if ins then program_code st else direct_line st.
(** The stream the interpreter runs from, [get_codestream()]. *)
Definition current_stream (st : State) : Stream :=
  stream_of (run_mode st) st.
Definition put_stream (ins : bool) (s : Stream) (st : State) : State :=
  if ins then set_program_code s st else set_direct_line s st.
Definition on_stream {A} (ins : bool) (f : Stream -> A * Stream) : M A :=
  fun st =>
    let '(a, s) := f (stream_of ins st) in (Ok a, put_stream ins s st).
Definition on_stream_res {A} (ins : bool) (f : Stream -> Res A * Stream)
    : M A :=
  fun st =>
    let '(r, s) := f (stream_of ins st) in (r, put_stream ins s st).
Definition do_stream (ins : bool) (f : Stream -> Stream) : M unit :=
  on_stream ins (fun s => (tt, f s)).
Definition stream_tell (ins : bool) : M nat :=
  on_stream ins (fun s => (tell s, s)).

(** The state with the stream [ins] moved [k] bytes on. *)
Definition advance (ins : bool) (k : nat) (st : State) : State :=
  put_stream ins (seek (tell (stream_of ins st) + k) (stream_of ins st)) st.

(** A computation that changes nothing but the stream [ins]. *)
Definition stream_only {A} (ins : bool) (m : M A) : Prop :=
  forall st, exists s, snd (m st) = put_stream ins s st.

(** A computation that does nothing but move the stream [ins]: the
    buffer of the stream and the rest of the state are kept. *)
Definition stream_moves {A} (ins : bool) (m : M A) : Prop :=
  forall st,
    exists p, snd (m st) = put_stream ins (seek p (stream_of ins st)) st.

Definition init_error_trapping : M unit :=
  modify (set_error_handle_mode false) ;;;
  modify (set_error_resume None) ;;;
  modify (set_on_error None).

(** *** Clear state *)

Definition clear_loop_stacks : M unit :=
  modify (set_for_stack []) ;;;
  modify (set_while_stack []).

Definition clear_stacks : M unit :=
  modify (set_gosub_stack []) ;;;
  clear_loop_stacks.

Definition clear : M unit :=
  modify (set_error_num 0) ;;;
  modify (set_error_pos 0) ;;;
  init_error_trapping ;;;
  modify (fun st => set_events (events_reset (events st)) st) ;;;
  clear_loop_stacks ;;;
  modify (set_data_pos 0).

(** *** Jumps *)

Definition get_codestream : M bool := gets run_mode.

(** [set_pointer(new_runmode, pos)]; the calls into the sound engine and
    the cassette device are left out. *)
Definition set_pointer (new_runmode : bool) (pos : option nat) : M unit :=
  modify (set_run_mode new_runmode) ;;;
  modify (fun st => set_events (set_active new_runmode (events st)) st) ;;;
  codestream <- get_codestream ;;
  match pos with
  | Some p => do_stream codestream (seek p)
  | None => do_stream codestream seek_end
  end.

Definition jump (jumpnum : option nat) (err : Z) : M unit :=
  match jumpnum with
  | None => set_pointer true (Some 0)
  | Some n =>
      lines <- gets line_numbers ;;
      match lines !! n with
      | Some p => set_pointer true (Some p)
      | None => raise (run_error err)
      end
  end.

Definition jump_sub (jumpnum : option nat) (handler : option nat)
    : M unit :=
  codestream <- get_codestream ;;
  pos <- stream_tell codestream ;;
  jump jumpnum UNDEFINED_LINE_NUMBER ;;;
  mode <- gets run_mode ;;
  modify (fun st =>
    set_gosub_stack
      (gosub_stack st ++
       [{| g_pos := pos; g_runmode := mode; g_handler := handler |}]) st).

Definition goto_ (jumpnum : option nat) : M unit :=
  jump jumpnum UNDEFINED_LINE_NUMBER.

Definition gosub_ (jumpnum : option nat) : M unit :=
  jump_sub jumpnum None.

Definition return_ (jumpnum : option nat) : M unit :=
  stack <- gets gosub_stack ;;
  match last stack with
  | None => raise (run_error RETURN_WITHOUT_GOSUB)
  | Some frame =>
      modify (set_gosub_stack (take (length stack - 1) stack)) ;;;
      match g_handler frame with
      | Some h =>
          modify (fun st =>
            set_events
              (set_handlers
                 (alter (set_stopped false) h (handlers (events st)))
                 (events st)) st)
      | None => ret tt
      end ;;;
      match jumpnum with
      | None =>
          set_pointer (g_runmode frame) (Some (g_pos frame)) ;;;
          codestream <- get_codestream ;;
          do_stream codestream (skip_to END_STATEMENT_chars true)
      | Some _ => jump jumpnum UNDEFINED_LINE_NUMBER
      end
  end.

(** *** Event and error handling *)

Fixpoint handle_events_loop (todo : list nat) : M unit :=
  match todo with
  | [] => ret tt
  | i :: todo =>
      ev <- gets events ;;
      match handlers ev !! i with
      | Some event =>
          if triggered event && negb (stopped event)
             && bool_decide (is_Some (gosub event)) then
            modify (fun st =>
              set_events
                (set_handlers
                   (alter (fun h => set_stopped true (set_triggered false h))
                      i (handlers (events st)))
                   (events st)) st) ;;;
            jump_sub (gosub event) (Some i)
          else ret tt
      | None => ret tt
      end ;;;
      handle_events_loop todo
  end.

Definition handle_basic_events : M unit :=
  ev <- gets events ;;
  mode <- gets run_mode ;;
  if suspend_all ev || negb mode then ret tt
  else handle_events_loop (enabled ev).

Definition trap_error (e : RunError) : M unit :=
  mode <- gets run_mode ;;
  program <- gets program_code ;;
  let e :=
    match pos e with
    | Some _ => e
    | None =>
        {| err := err e;
           pos := Some (if mode then Z.of_nat (tell program) - 1 else -1)%Z |}
    end in
  modify (set_error_num (err e)) ;;;
  modify (set_error_pos (default 0%Z (pos e))) ;;;
  target <- gets on_error ;;
  handling <- gets error_handle_mode ;;
  if bool_decide (target <> None) && bool_decide (target <> Some 0)
     && negb handling then
    statement <- gets current_statement ;;
    modify (set_error_resume (Some (statement, mode))) ;;;
    jump target UNDEFINED_LINE_NUMBER ;;;
    modify (set_error_handle_mode true) ;;;
    modify (fun st => set_events (set_suspend_all true (events st)) st)
  else
    modify (set_error_handle_mode false) ;;;
    set_pointer false None ;;;
    raise e.

Definition on_error_goto_ (linenum : nat) : M unit :=
  lines <- gets line_numbers ;;
  if negb (linenum =? 0) && bool_decide (lines !! linenum = None) then
    raise (run_error UNDEFINED_LINE_NUMBER)
  else
    modify (set_on_error (Some linenum)) ;;;
    handling <- gets error_handle_mode ;;
    if (linenum =? 0) && handling then
      num <- gets error_num ;;
      p <- gets error_pos ;;
      raise {| err := num; pos := Some p |}
    else ret tt.

(** The argument of RESUME, as [_parse_resume_args_iter] yields it: no
    argument is [None]. *)
Inductive ResumeArg :=
| ResumeNext
| ResumeLine (n : nat).

Definition resume_ (where_ : option ResumeArg) : M unit :=
  saved <- gets error_resume ;;
  match saved with
  | None =>
      modify (set_on_error (Some 0)) ;;;
      raise (run_error RESUME_WITHOUT_ERROR)
  | Some (start_statement, runmode) =>
      modify (set_error_num 0) ;;;
      modify (set_error_handle_mode false) ;;;
      modify (set_error_resume None) ;;;
      modify (fun st => set_events (set_suspend_all false (events st)) st) ;;;
      match where_ with
      | None | Some (ResumeLine 0) =>
          set_pointer runmode (Some start_statement)
      | Some ResumeNext =>
          set_pointer runmode (Some start_statement) ;;;
          codestream <- get_codestream ;;
          do_stream codestream (skip_to END_STATEMENT_chars false)
      | Some (ResumeLine n) => jump (Some n) UNDEFINED_LINE_NUMBER
      end
  end.

(** *** Argument parsers of statements.py *)

Definition parse_name (ins : bool) : M (list ascii) :=
  name <- on_stream ins read_name ;;
  match name with
  | [] => raise (run_error STX)
  | _ => ret (complete_name name)
  end.

(** [struct.unpack('<H', token)[0]] *)
Definition unpack_H (token : list ascii) : Res nat :=
  match token with
  | [lo; hi] => Ok (nat_of_ascii lo + 256 * nat_of_ascii hi)
  | _ => Crash
  end.

Definition _parse_jumpnum (ins : bool) : M nat :=
  on_stream_res ins (require_read [T_UINT]) ;;;
  token <- on_stream ins (read 2) ;;
  lift (unpack_H token).

Definition _parse_optional_jumpnum (ins : bool) : M (option nat) :=
  d <- on_stream ins skip_blank ;;
  if negb (opt_inb d [T_UINT]) then ret None
  else
    n <- _parse_jumpnum ins ;;
    ret (Some n).

(** The bytes of a line number pointer, as [_parse_jumpnum] reads them,
    and of a list of them with commas in between. *)
Definition encode_target (n : nat) : list ascii :=
  [T_UINT; ascii_of_nat (n mod 256); ascii_of_nat (n / 256)].
Fixpoint encode_targets (targets : list nat) : list ascii :=
  match targets with
  | [] => []
  | [t] => encode_target t
  | t :: targets => encode_target t ++ [","] ++ encode_targets targets
  end.

(** The tokens a list of targets is made of are not mistaken for one
    another: the lead byte of a line number is no blank, comma, colon or
    line marker. *)
Definition uint_apart : Prop :=
  inb T_UINT (blanks ++ [","; ":"; NUL]) = false.

(** *** Branches *)

(** Modelled from the spec: [error.range_check(0, 255, onvar)] of
    [error.py], which is not among the sources; the selector of a
    computed jump lies in [0, 255], and a value outside is an error. *)
Definition range_check (lo hi v : Z) : M unit :=
  if ((v <? lo) || (hi <? v))%Z then raise (run_error IFC) else ret tt.

(** The end of the argument iterator of ON, once the list of targets
    is over, and the test that follows the loop of [on_jump_]; [i] is the
    index of the last target the loop saw, -1 when it saw none. *)
Definition on_jump_end (ins : bool) (onvar i : Z) : M unit :=
  on_stream_res ins require_end ;;;
  if (i =? onvar - 2)%Z then raise (run_error STX) else ret tt.

(** The loop of [on_jump_] over the targets the iterator
    [_parse_on_jump_args_iter] yields one at a time; a target takes at
    least three bytes. *)
Fixpoint on_jump_loop (fuel : nat) (ins : bool) (onvar : Z)
    (jump_type : ascii) (i : Z) : M unit :=
  match fuel with
  | 0 => ret tt
  | S fuel =>
      num <- _parse_optional_jumpnum ins ;;
      match num with
      | None => on_jump_end ins onvar i
      | Some jumpnum =>
          let i := (i + 1)%Z in
          if (i =? onvar - 1)%Z then
            if Ascii.eqb jump_type GOTO then
              jump (Some jumpnum) UNDEFINED_LINE_NUMBER
            else if Ascii.eqb jump_type GOSUB then
              jump_sub (Some jumpnum) None
            else ret tt
          else
            comma <- on_stream ins (skip_blank_read_if [","]) ;;
            match comma with
            | Some _ => on_jump_loop fuel ins onvar jump_type i
            | None => on_jump_end ins onvar i
            end
      end
  end.

(** What [on_jump_] does with the target it has chosen. *)
Definition on_jump_action (jump_type : ascii) (jumpnum : nat) : M unit :=
  if Ascii.eqb jump_type GOTO then
    jump (Some jumpnum) UNDEFINED_LINE_NUMBER
  else if Ascii.eqb jump_type GOSUB then
    jump_sub (Some jumpnum) None
  else ret tt.

(** [on_jump_], from the value [onvar] of the selector on. *)
Definition on_jump_ (onvar : Z) : M unit :=
  ins <- get_codestream ;;
  range_check 0 255 onvar ;;;
  jump_type <- on_stream_res ins (require_read [GOTO; GOSUB]) ;;
  rest <- on_stream ins (fun s => (unread s, s)) ;;
  on_jump_loop (S (length rest)) ins onvar jump_type (-1).

(** *** Loops *)

(** The search of [iterate_loop] for the record of this NEXT:
    [for depth in range(num)], with [todo] turns left. *)
Fixpoint find_record (stack : list ForRecord) (pos : nat)
    (todo depth : nat) : option (nat * ForRecord) :=
  match todo with
  | 0 => None
  | S todo =>
      match stack !! (length stack - depth - 1) with
      | Some r =>
          if pos =? nextpos r then Some (depth, r)
          else find_record stack pos todo (S depth)
      | None => None
      end
  end.

(** The same search read on the stack turned over, top first: the way
    the properties of [find_record] are stated. *)
Fixpoint find_top (pos : nat) (records : list ForRecord) (depth : nat)
    : option (nat * ForRecord) :=
  match records with
  | [] => None
  | r :: records =>
      if pos =? nextpos r then Some (depth, r)
      else find_top pos records (S depth)
  end.

Definition iterate_loop (dummy_varname : option (list ascii)) : M bool :=
  ins <- get_codestream ;;
  pos <- stream_tell ins ;;
  stack <- gets for_stack ;;
  match find_record stack pos (length stack) 0 with
  | None => raise (run_error NEXT_WITHOUT_FOR)
  | Some (depth, r) =>
      modify (set_for_stack (take (length stack - depth) stack)) ;;;
      vars <- gets scalars ;;
      counter <- lift (iadd (default null (vars !! counter_view r))
                         (f_step r)) ;;
      modify (set_scalars (<[counter_view r := counter]> vars)) ;;;
      let loop_ends :=
        if (0 <? f_sgn r)%Z then gt counter (f_stop r)
        else gt (f_stop r) counter in
      (if loop_ends then
         modify (fun st =>
           set_for_stack
             (take (length (for_stack st) - 1) (for_stack st)) st)
       else do_stream ins (seek (forpos r))) ;;;
      ret (negb loop_ends)
  end.

(** The loop of [next_] over the names [_parse_next_args_iter] yields. *)
Fixpoint next_loop (fuel : nat) (ins : bool) : M unit :=
  match fuel with
  | 0 => ret tt
  | S fuel =>
      d <- on_stream ins skip_blank ;;
      varname <-
        (if negb (END_STATEMENT d || opt_inb d [","]) then
           name <- parse_name ins ;; ret (Some name)
         else ret None) ;;
      continues <- iterate_loop varname ;;
      if continues then ret tt
      else
        comma <- on_stream ins (skip_blank_read_if [","]) ;;
        match comma with
        | Some _ => next_loop fuel ins
        | None => ret tt
        end
  end.

Definition next_ : M unit :=
  ins <- get_codestream ;;
  rest <- on_stream ins (fun s => (unread s, s)) ;;
  next_loop (S (length rest)) ins.

Definition _find_next (ins : bool) (varname : list ascii)
    : M (nat * nat) :=
  endforpos <- stream_tell ins ;;
  do_stream ins (skip_block FOR NEXT true) ;;;
  d <- on_stream ins skip_blank ;;
  if negb (opt_inb d [NEXT; ","]) then
    do_stream ins (seek endforpos) ;;;
    raise (run_error FOR_WITHOUT_NEXT)
  else
    c <- on_stream ins read1 ;;
    let comma := opt_inb c [","] in
    d <- on_stream ins skip_blank ;;
    varname2 <-
      (if negb (END_STATEMENT d) then
         name <- parse_name ins ;; ret (Some name)
       else ret None) ;;
    nextpos <- stream_tell ins ;;
    if (comma || bool_decide (is_Some varname2))
       && bool_decide (varname2 <> Some varname) then
      raise (run_error NEXT_WITHOUT_FOR)
    else
      do_stream ins (seek endforpos) ;;;
      ret (endforpos, nextpos).

(** [for_], from the values the iterator [_parse_for_args_iter] yields:
    the name, the start, the stop and the optional step. The iterator
    has read the stream up to the end of the FOR statement. *)
Definition for_ (varname : list ascii) (start stop : V)
    (step : option V) : M unit :=
  match last varname with
  | None => lift Crash
  | Some vartype =>
      start <- lift (to_type vartype start) ;;
      if inb vartype [STR; DBL] then raise (run_error TYPE_MISMATCH)
      else
        stop <- lift (to_type vartype stop) ;;
        step <-
          match step with
          | Some step => lift (to_type vartype step)
          | None => ret (from_value_1 vartype)
          end ;;
        ins <- get_codestream ;;
        ' (forpos, nextpos) <- _find_next ins varname ;;
        modify (fun st => set_scalars (<[varname := start]> (scalars st)) st) ;;;
        let counter_view := varname in
        modify (fun st =>
          set_for_stack
            (for_stack st ++
             [{| counter_view := counter_view; f_stop := stop;
                 f_step := step; f_sgn := sign step;
                 forpos := forpos; nextpos := nextpos |}]) st) ;;;
        if (if (0 <? sign step)%Z then gt start stop else gt stop start) then
          do_stream ins (seek nextpos) ;;;
          iterate_loop None ;;;
          ret tt
        else ret tt
  end.

(** *** WHILE and WEND

  The numbers of two more errors, the expression parser that
  [parse_expression] of [statements.py] calls, and the operations of
  [values.py] that test a condition, all from modules that are not
  among the sources. *)
Context (WHILE_WITHOUT_WEND WEND_WITHOUT_WHILE : Z).
Context (parse_expression : bool -> M V).
Context (pass_number : V -> Res V) (is_zero : V -> bool).

Definition _find_wend (ins : bool) : M (nat * nat) :=
  whilepos <- stream_tell ins ;;
  do_stream ins (skip_block WHILE WEND false) ;;;
  c <- on_stream ins read1 ;;
  if negb (opt_inb c [WEND]) then
    do_stream ins (seek whilepos) ;;;
    raise (run_error WHILE_WITHOUT_WEND)
  else
    do_stream ins (skip_to END_STATEMENT_chars true) ;;;
    wendpos <- stream_tell ins ;;
    do_stream ins (seek whilepos) ;;;
    ret (whilepos, wendpos).

(** [whilepos-2] is the start of the WHILE statement; a position below
    2, which no WHILE token read from a statement has in a program,
    gives 0 here. A [pop] from an empty list is an [IndexError]. *)
Definition _check_while_condition (ins : bool) (whilepos : nat) : M unit :=
  do_stream ins (seek whilepos) ;;;
  v <- parse_expression ins ;;
  n <- lift (pass_number v) ;;
  if negb (is_zero n) then
    modify (set_current_statement (whilepos - 2)) ;;;
    on_stream_res ins require_end
  else
    stack <- gets while_stack ;;
    match last stack with
    | None => lift Crash
    | Some (_, wendpos) =>
        modify (set_while_stack (take (length stack - 1) stack)) ;;;
        do_stream ins (seek wendpos)
    end.

Definition while_ : M unit :=
  ins <- get_codestream ;;
  ' (whilepos, wendpos) <- _find_wend ins ;;
  modify (fun st =>
    set_while_stack (while_stack st ++ [(whilepos, wendpos)]) st) ;;;
  _check_while_condition ins whilepos.

(** The loop of [wend_]: every turn that goes round again has popped a
    record. *)
Fixpoint wend_loop (fuel : nat) (pos : nat) : M nat :=
  match fuel with
  | 0 => lift Crash
  | S fuel =>
      stack <- gets while_stack ;;
      match last stack with
      | None => raise (run_error WEND_WITHOUT_WHILE)
      | Some (whilepos, wendpos) =>
          if pos =? wendpos then ret whilepos
          else
            modify (set_while_stack (take (length stack - 1) stack)) ;;;
            wend_loop fuel pos
      end
  end.

(** [wend_]; the argument iterator [_parse_end], run by [list(args)],
    is the call of [require_end]. *)
Definition wend_ : M unit :=
  ins <- get_codestream ;;
  on_stream_res ins require_end ;;;
  pos <- stream_tell ins ;;
  stack <- gets while_stack ;;
  whilepos <- wend_loop (S (length stack)) pos ;;
  _check_while_condition ins whilepos.

(** *** IF

  [IF] is the token [tk.IF]. *)
Context (IF : ascii).

(** The search of [if_] for the ELSE of this IF. *)
Fixpoint if_else_loop (fuel : nat) (ins : bool) (nesting_level : nat)
    : M unit :=
  match fuel with
  | 0 => ret tt
  | S fuel =>
      d <- on_stream ins (skip_to_read (END_STATEMENT_chars ++ [IF])) ;;
      if opt_inb d [IF] then if_else_loop fuel ins (S nesting_level)
      else if opt_inb d [":"] then
        e <- on_stream ins (skip_blank_read_if [ELSE]) ;;
        match e with
        | Some _ =>
            if 0 <? nesting_level then
              if_else_loop fuel ins (nesting_level - 1)
            else ret tt
        | None => if_else_loop fuel ins nesting_level
        end
      else do_stream ins (seek_back (len1 d))
  end.

(** [if_], from the test [val.is_zero()] of the condition on; the
    branch is what the iterator [_parse_if_args_iter] yields last, a
    line number when one stands where the search has left the stream. *)
Definition if_ (val_is_zero : bool) : M unit :=
  (if val_is_zero then
     ins <- get_codestream ;;
     rest <- on_stream ins (fun s => (unread s, s)) ;;
     if_else_loop (S (length rest)) ins 0
   else ret tt) ;;;
  ins <- get_codestream ;;
  branch <- _parse_optional_jumpnum ins ;;
  match branch with
  | Some _ => jump branch UNDEFINED_LINE_NUMBER
  | None => ret tt
  end.

(** *** ERL and ERR *)

(** [get_line_number] is [program.get_line_number], from a module that
    is not among the sources. *)
Definition erl_ (get_line_number : Z -> Z) : M Z :=
  p <- gets error_pos ;;
  if (p =? 0)%Z then ret 0%Z
  else if (p =? -1)%Z then ret 65535%Z
  else ret (get_line_number p).

Definition err_ : M Z := gets error_num.

(** *** The main loop

  One turn of the loop of [parse]: [true] when the loop goes round
  again, [false] when the method returns. [parse_statement] is the
  statement parser; the poll of the event queue, the trace output and
  the debugger are left out. *)
Context (parse_statement : bool -> M unit).

Definition parse_turn_body : M bool :=
  handle_basic_events ;;;
  ins <- get_codestream ;;
  p <- stream_tell ins ;;
  modify (set_current_statement p) ;;;
  c <- on_stream ins skip_blank_read ;;
  stream_ended <-
    (if END_LINE c then
       token <- on_stream ins (read 4) ;;
       if is_nul_nul (take 2 token) || (length token <? 4) then
         resume <- gets error_resume ;;
         match resume with
         | Some _ =>
             modify (set_error_handle_mode true) ;;;
             p <- stream_tell ins ;;
             raise {| err := NO_RESUME;
                      pos := Some (Z.of_nat p - Z.of_nat (length token)
                                   - 2)%Z |}
         | None => set_pointer false None ;;; ret true
         end
       else ret false
     else
       (if negb (opt_inb c [":"]) then do_stream ins (seek_back (len1 c))
        else ret tt) ;;;
       ret false) ;;
  if stream_ended then ret false
  else parse_statement ins ;;; ret true.

(** [try: ... except error.RunError as e: self.trap_error(e)] *)
Definition parse_turn : M bool :=
  fun st =>
    match parse_turn_body st with
    | (Raise e, st') => bind (trap_error e) (fun _ => ret true) st'
    | r => r
    end.

End Engine.
End Interpreter.

(** ** The values of the GW-BASIC dialect

    The token values, the error numbers and the 16-bit integers of the
    dialect PC-BASIC runs, for the examples. *)

Module GW.

Definition plus_bytes (c : ascii) : option nat :=
  let n := nat_of_ascii c in
  if (n =? 15) || (n =? 255) || (n =? 254) || (n =? 253) then Some 1
  else if (n =? 11) || (n =? 12) || (n =? 13) || (n =? 14) || (n =? 28)
  then Some 2
  else if n =? 29 then Some 4
  else if n =? 31 then Some 8
  else if n =? 0 then Some 4
  else None.

#[export] Instance tokens : Tokens := {|
  REM := "143";
  FOR := "130";
  NEXT := "131";
  WHILE := "177";
  WEND := "178";
  THEN := "205";
  ELSE := "161";
  GOTO := "137";
  GOSUB := "141";
  T_UINT := "014";
  PLUS_BYTES := plus_bytes;
  NAME_CHARS := ascii_letters ++ digits ++ ["."];
  SIGILS := ["#"; "!"; "%"; "$"]
|}.

#[export] Instance errors : ErrorNumbers := {|
  NEXT_WITHOUT_FOR := 1;
  STX := 2;
  RETURN_WITHOUT_GOSUB := 3;
  IFC := 5;
  OVERFLOW := 6;
  UNDEFINED_LINE_NUMBER := 8;
  TYPE_MISMATCH := 13;
  NO_RESUME := 19;
  RESUME_WITHOUT_ERROR := 20;
  FOR_WITHOUT_NEXT := 26
|}.

(** 16-bit integers: a sum out of range raises Overflow. *)
Definition int_iadd (a b : Z) : Res Z :=
  let c := (a + b)%Z in
  if ((c <? -32768) || (32767 <? c))%Z
  then Raise {| err := 6; pos := None |}
  else Ok c.

#[export] Instance integers : Values Z := {|
  STR := "$";
  DBL := "#";
  to_type := fun _ v => Ok v;
  from_value_1 := fun _ => 1%Z;
  gt := Z.gtb;
  iadd := int_iadd;
  sign := Z.sgn;
  null := 0%Z
|}.

(** The variable names of the examples have their sigil. *)
Definition complete_name (name : list ascii) : list ascii := name.

Definition no_events : Events :=
  {| suspend_all := false; active := false; handlers := []; enabled := [] |}.

(** [10 FOR I%=5 TO 1] / [20 PRINT I%] / [30 NEXT I%] / [40 END], with
    the offsets of the lines. *)
Definition empty_loop_program : list ascii :=
  [NUL; "001"; "001"; "010"; "000"; "130"; " "; "I"; "%"; "231"; "022";
   " "; "204"; " "; "018"] ++
  [NUL; "001"; "001"; "020"; "000"; "145"; " "; "I"; "%"] ++
  [NUL; "001"; "001"; "030"; "000"; "131"; " "; "I"; "%"] ++
  [NUL; "001"; "001"; "040"; "000"; "129"] ++
  [NUL; NUL; NUL].

Definition empty_loop_lines : gmap nat nat :=
  {[ 10 := 0; 20 := 15; 30 := 24; 40 := 33 ]}.

Definition events_reset (ev : Events) : Events := no_events.

(** A program with the one line [100 RETURN]. *)
Definition return_program : list ascii :=
  [NUL; "001"; "001"; "100"; "000"; "142"] ++ [NUL; NUL; NUL].

(** The direct line [GOSUB 100:PRINT], read up to the end of the line
    number, in front of a program: nothing is running yet. *)
Definition in_direct_line (program : list ascii) (lines : gmap nat nat)
    (line : list ascii) (p : nat) : Interpreter.State (V:=Z) :=
  {| Interpreter.run_mode := false;
     Interpreter.program_code :=
       {| getvalue := program; tell := length program |};
     Interpreter.direct_line := {| getvalue := line; tell := p |};
     Interpreter.line_numbers := lines;
     Interpreter.current_statement := 0;
     Interpreter.gosub_stack := [];
     Interpreter.for_stack := [];
     Interpreter.while_stack := [];
     Interpreter.data_pos := 0;
     Interpreter.error_handle_mode := false;
     Interpreter.error_resume := None;
     Interpreter.on_error := None;
     Interpreter.error_num := 0;
     Interpreter.error_pos := 0;
     Interpreter.events := no_events;
     Interpreter.scalars := ∅ |}.

(** A running program, at offset [p], the statement in hand having
    started at [statement]. *)
Definition in_program (program : list ascii) (lines : gmap nat nat)
    (statement p : nat) : Interpreter.State (V:=Z) :=
  {| Interpreter.run_mode := true;
     Interpreter.program_code := {| getvalue := program; tell := p |};
     Interpreter.direct_line := {| getvalue := []; tell := 0 |};
     Interpreter.line_numbers := lines;
     Interpreter.current_statement := statement;
     Interpreter.gosub_stack := [];
     Interpreter.for_stack := [];
     Interpreter.while_stack := [];
     Interpreter.data_pos := 0;
     Interpreter.error_handle_mode := false;
     Interpreter.error_resume := None;
     Interpreter.on_error := None;
     Interpreter.error_num := 0;
     Interpreter.error_pos := 0;
     Interpreter.events := no_events;
     Interpreter.scalars := ∅ |}.

Definition return_lines : gmap nat nat := {[ 100 := 0 ]}.

Definition gosub_direct_line : list ascii :=
  ["141"; "014"; "100"; "000"; ":"; "145"].

(** [10 ON 2 GOTO 10,20,30] / [20 END] / [30 END], read up to the GOTO
    token at offset 9. *)
Definition on_goto_program : list ascii :=
  [NUL; "001"; "001"; "010"; "000"; "149"; " "; "019"; " "; "137";
   "014"; "010"; "000"; ","; "014"; "020"; "000"; ",";
   "014"; "030"; "000"] ++
  [NUL; "001"; "001"; "020"; "000"; "129"] ++
  [NUL; "001"; "001"; "030"; "000"; "129"] ++
  [NUL; NUL; NUL].

Definition on_goto_lines : gmap nat nat :=
  {[ 10 := 0; 20 := 21; 30 := 27 ]}.

Definition on_goto_tail : list ascii :=
  [NUL; "001"; "001"; "020"; "000"; "129"] ++
  [NUL; "001"; "001"; "030"; "000"; "129"] ++
  [NUL; NUL; NUL].

(** [PRINT "A":NEXT] and the same with the byte of the comment token
    in place of [A]. *)
Definition print_next (inner : ascii) : list ascii :=
  ["145"; QUOTE; inner; QUOTE; ":"; "131"].

(** A FOR stack of an outer loop whose NEXT ends at offset 33 and an
    inner loop, jumped out of, whose NEXT ends at offset 50. *)
Definition dangling_stack : list (Interpreter.ForRecord (V:=Z)) :=
  [ {| Interpreter.counter_view := ["I"; "%"]; Interpreter.f_stop := 3%Z;
       Interpreter.f_step := 1%Z; Interpreter.f_sgn := 1%Z;
       Interpreter.forpos := 15; Interpreter.nextpos := 33 |};
    {| Interpreter.counter_view := ["J"; "%"]; Interpreter.f_stop := 9%Z;
       Interpreter.f_step := 1%Z; Interpreter.f_sgn := 1%Z;
       Interpreter.forpos := 40; Interpreter.nextpos := 50 |} ].

(** Events let through, with the handlers [hs], all enabled. *)
Definition with_events (hs : list EventHandler)
    (st : Interpreter.State (V:=Z)) : Interpreter.State (V:=Z) :=
  Interpreter.set_events
    {| suspend_all := false; active := true; handlers := hs;
       enabled := seq 0 (length hs) |} st.

(** A condition that is always 1, a statement parser that does
    nothing, and the line [IF X THEN PRINT:ELSE 100], for the examples
    of WHILE, of the main loop and of IF. *)
Definition condition_one (ins : bool) : Interpreter.M (V:=Z) Z :=
  Interpreter.ret 1%Z.
Definition no_statement (ins : bool) : Interpreter.M (V:=Z) unit :=
  Interpreter.ret tt.
Definition token_IF : ascii := "139".
Definition if_else_line : list ascii :=
  [token_IF; "X"; "205"; "145"; ":"; "161"; "014"; "100"; "000"].

End GW.

(** * Properties *)

Module StreamFacts.
Import CodeStream.

Lemma seek_tell (s : Stream) : seek (tell s) s = s.
Proof. by destruct s. Qed.

Lemma seek_seek (p q : nat) (s : Stream) : seek p (seek q s) = seek p s.
Proof. done. Qed.

Lemma read1_back (s : Stream) :
  seek_back (len1 (fst (read1 s))) (snd (read1 s)) = s.
Proof.
  unfold read1, seek_back, seek. destruct s as [b p].
  destruct (unread _); simpl; f_equal; lia.
Qed.

Lemma unread_seek (s : Stream) (k : nat) :
  unread (seek (tell s + k) s) = drop k (unread s).
Proof. unfold unread, seek. simpl. by rewrite drop_drop. Qed.

Lemma unread_cons (s : Stream) (c : ascii) (rest : list ascii) :
  unread s = c :: rest -> unread (seek (S (tell s)) s) = rest.
Proof.
  intros Hs. rewrite <- Nat.add_1_r, unread_seek, Hs. reflexivity.
Qed.

Lemma skip_blank_at (s : Stream) (c : ascii) (rest : list ascii) :
  unread s = c :: rest -> inb c blanks = false ->
  skip_blank s = (Some c, s).
Proof.
  intros Hs Hc. unfold skip_blank, skip_read1. rewrite Hs.
  cbn [skip_read_loop]. rewrite Hc. unfold seek_back, seek.
  destruct s as [b p]. simpl. do 2 f_equal. lia.
Qed.

Lemma skip_blank_end (s : Stream) :
  unread s = [] -> skip_blank s = (None, s).
Proof.
  intros Hs. unfold skip_blank, skip_read1. rewrite Hs. simpl.
  unfold seek_back, seek. destruct s as [b p]. simpl.
  do 2 f_equal. lia.
Qed.

Lemma read_at (s : Stream) (n : nat) :
  n <= length (unread s) ->
  read n s = (take n (unread s), seek (tell s + n) s).
Proof. intros Hn. unfold read. by rewrite length_take_le. Qed.

Lemma read1_head (s : Stream) : fst (read1 s) = head (unread s).
Proof. unfold read1. by destruct (unread s). Qed.

Lemma peek1_head (s : Stream) : peek1 s = (head (unread s), s).
Proof.
  unfold peek1. pose proof (read1_back s) as Hb.
  pose proof (read1_head s) as Hh.
  destruct (read1 s) as [d r]. simpl in *. by rewrite Hb, Hh.
Qed.

(** C10. Where the next character is no double quote, or the buffer is
    at its end, [read_string] returns the empty string and leaves the
    stream, and so its position, as it was. *)
Theorem read_string_no_quote (end_line : option ascii -> bool) (s : Stream) :
  head (unread s) <> Some QUOTE ->
  read_string end_line s = ([], s).
Proof.
  intros Hq. unfold read_string.
  pose proof (read1_back s) as Hback.
  unfold read1 in *. destruct (unread s) as [|c rest]; simpl in *.
  - by rewrite Hback.
  - destruct (Ascii.eqb_spec c QUOTE) as [->|Hne]; [done|].
    simpl. by rewrite Hback.
Qed.

Lemma read_string_no_quote_witness :
  let s := {| getvalue := ["A"; QUOTE; "B"; QUOTE]; tell := 2 |} in
  head (unread s) <> Some QUOTE /\ read_string END_LINE s = ([], s).
Proof.
  split; [discriminate | apply read_string_no_quote; discriminate].
Defined.

End StreamFacts.

Module NumberFacts.
Import CodeStream StreamFacts.

(** *** Stripping *)

Lemma lstrip_split (chars s : list ascii) :
  exists pre,
    s = pre ++ lstrip chars s /\ Forall (fun c => inb c chars = true) pre.
Proof.
  induction s as [|c s IH]; simpl.
  - by exists [].
  - destruct (inb c chars) eqn:Hc.
    + destruct IH as (pre & Hs & Hpre). exists (c :: pre).
      split; [simpl; congruence|by constructor].
    + by exists [].
Qed.

Lemma lstrip_head (chars s : list ascii) :
  opt_inb (head (lstrip chars s)) chars = false.
Proof.
  induction s as [|c s IH]; simpl; [done|].
  destruct (inb c chars) eqn:Hc; [done|]. simpl. exact Hc.
Qed.

Lemma lstrip_id (chars s : list ascii) :
  opt_inb (head s) chars = false -> lstrip chars s = s.
Proof. destruct s as [|c s]; simpl; [done|]. by intros ->. Qed.

Lemma rstrip_split (chars s : list ascii) :
  exists suf,
    s = rstrip chars s ++ suf /\ Forall (fun c => inb c chars = true) suf.
Proof.
  unfold rstrip. destruct (lstrip_split chars (rev s)) as (pre & Hs & Hpre).
  exists (rev pre). split.
  - rewrite <- rev_app_distr, <- Hs. by rewrite rev_involutive.
  - apply Forall_forall. intros x Hx. rewrite Forall_forall in Hpre.
    apply Hpre. apply list_elem_of_In. apply in_rev.
    by apply list_elem_of_In.
Qed.

Lemma last_rev_head {A} (l : list A) : last (rev l) = head l.
Proof.
  destruct l as [|x l]; [done|]. simpl.
  by rewrite last_snoc.
Qed.

Lemma rstrip_last (chars s : list ascii) :
  opt_inb (last (rstrip chars s)) chars = false.
Proof. unfold rstrip. rewrite last_rev_head. apply lstrip_head. Qed.

Lemma rstrip_id (chars s : list ascii) :
  opt_inb (last s) chars = false -> rstrip chars s = s.
Proof.
  intros Hl. unfold rstrip. rewrite lstrip_id.
  - apply rev_involutive.
  - by rewrite <- last_rev_head, rev_involutive.
Qed.

Lemma rstrip_length (chars s : list ascii) :
  length (rstrip chars s) <= length s.
Proof.
  destruct (rstrip_split chars s) as (suf & Hs & _).
  rewrite Hs at 2. rewrite length_app. lia.
Qed.

Lemma remove_blanks_app (a b : list ascii) :
  remove_blanks (a ++ b) = remove_blanks a ++ remove_blanks b.
Proof. apply List.filter_app. Qed.

Lemma remove_blanks_all (pre : list ascii) :
  Forall (fun c => inb c blanks = true) pre -> remove_blanks pre = [].
Proof.
  induction 1 as [|c pre Hc _ IH]; [done|].
  unfold remove_blanks in *. cbn [List.filter]. by rewrite Hc.
Qed.

Lemma remove_blanks_lstrip (s : list ascii) :
  remove_blanks (lstrip blanks s) = remove_blanks s.
Proof.
  destruct (lstrip_split blanks s) as (pre & Hs & Hpre).
  rewrite Hs at 2.
  by rewrite remove_blanks_app, (remove_blanks_all pre Hpre).
Qed.

Lemma remove_blanks_rstrip (s : list ascii) :
  remove_blanks (rstrip blanks s) = remove_blanks s.
Proof.
  destruct (rstrip_split blanks s) as (suf & Hs & Hsuf).
  rewrite Hs at 2.
  by rewrite remove_blanks_app, (remove_blanks_all suf Hsuf), app_nil_r.
Qed.

Lemma remove_blanks_none (s : list ascii) :
  Forall (fun c => inb c blanks = false) s -> remove_blanks s = s.
Proof.
  induction 1 as [|c s Hc _ IH]; [done|].
  unfold remove_blanks in *. cbn [List.filter]. rewrite Hc.
  cbn [negb]. by rewrite IH.
Qed.

Lemma remove_blanks_clean (s : list ascii) :
  Forall (fun c => inb c blanks = false) (remove_blanks s).
Proof.
  apply Forall_forall. intros c Hc. apply list_elem_of_In in Hc.
  apply List.filter_In in Hc as [_ Hc]. by apply negb_true_iff.
Qed.

Lemma strip_clean (s : list ascii) :
  Forall (fun c => inb c blanks = false) s ->
  strip blanks (rstrip blanks s) = s.
Proof.
  intros Hs.
  assert (Hlast : opt_inb (last s) blanks = false).
  { destruct (last s) as [c|] eqn:Hl; [|done]. simpl.
    rewrite Forall_forall in Hs. apply Hs.
    rewrite last_Some in Hl. destruct Hl as [l' ->]. set_solver. }
  unfold strip. rewrite !(rstrip_id _ s Hlast).
  apply lstrip_id. destruct s as [|c s]; [done|].
  simpl. by inversion Hs.
Qed.

Lemma lstrip_In (chars s : list ascii) (x : ascii) :
  In x (lstrip chars s) -> In x s.
Proof.
  destruct (lstrip_split chars s) as (pre & Hs & _).
  intros Hx. rewrite Hs. apply in_or_app. by right.
Qed.

Lemma rstrip_In (chars s : list ascii) (x : ascii) :
  In x (rstrip chars s) -> In x s.
Proof.
  destruct (rstrip_split chars s) as (suf & Hs & _).
  intros Hx. rewrite Hs. apply in_or_app. by left.
Qed.

(** *** Upper case *)

Lemma upper_cases (c : ascii) :
  upper c = c \/ inb (upper c) (map upper ascii_lowercase) = true.
Proof.
  destruct c as [[] [] [] [] [] [] [] []];
    first [left; reflexivity | right; reflexivity].
Qed.

Lemma upper_blank (c : ascii) : inb (upper c) blanks = inb c blanks.
Proof. destruct c as [[] [] [] [] [] [] [] []]; reflexivity. Qed.

Lemma upper_plain (c x : ascii) :
  inb x (map upper ascii_lowercase) = false -> upper c = x -> c = x.
Proof.
  intros Hx Hc. destruct (upper_cases c) as [Hu|Hu]; congruence.
Qed.

(** *** The loop of [_read_dec] *)

Lemma dec_end_spec_cons (e : DecEnd) (c0 : ascii) (rest w : list ascii)
    (he he' : bool) (p p' : nat) :
  dec_end_spec e rest w he' (S p) p' ->
  (he' = false -> he = false /\ inb (upper c0) ["E"; "D"] = false) ->
  dec_end_spec e (c0 :: rest) (upper c0 :: w) he p p'.
Proof.
  destruct e; simpl; intros Hspec Hexp.
  - destruct Hspec as [-> ->]. lia.
  - destruct Hspec as [-> ?]. lia.
  - destruct Hspec as (-> & Hhe & Hall & c & Hlast & Hc).
    destruct (Hexp Hhe) as [-> Hc0].
    split; [lia|]. split; [done|]. split; [by constructor|].
    exists c. split; [|done].
    destruct w; [done|]. exact Hlast.
  - destruct Hspec as [-> Hlook]. split; [lia|done].
Qed.

Lemma read_dec_loop_spec (rest : list ascii) :
  forall he hp word p word' p' e,
    read_dec_loop rest he hp word p = (word', p', e) ->
    exists w,
      word' = word ++ w
      /\ map upper (take (length w) rest) = w
      /\ ~ In "%" w
      /\ dec_end_spec e rest w he p p'.
Proof.
  induction rest as [|c0 rest IH]; intros he hp word p word' p' e Hloop;
    cbn [read_dec_loop] in Hloop.
  - injection Hloop as <- <- <-. exists []. rewrite app_nil_r.
    split; [done|]. split; [done|]. split; [by intros []|]. simpl. lia.
  - assert (Hrec : forall he' hp',
      read_dec_loop rest he' hp' (word ++ [upper c0]) (S p) = (word', p', e) ->
      upper c0 <> "%" ->
      (he' = false -> he = false /\ inb (upper c0) ["E"; "D"] = false) ->
      exists w,
        word' = word ++ w
        /\ map upper (take (length w) (c0 :: rest)) = w
        /\ ~ In "%" w
        /\ dec_end_spec e (c0 :: rest) w he p p').
    { intros he' hp' Hrun Hne Hexp.
      apply IH in Hrun as (w & -> & Hw & Hpc & Hspec).
      exists (upper c0 :: w). rewrite <- app_assoc. split; [done|].
      split; [simpl; by rewrite Hw|].
      split; [intros [Hin|Hin]; [by apply Hne|by apply Hpc]|].
      by apply dec_end_spec_cons with he'. }
    assert (Hstop : forall n,
      n < 1 -> (word', p', e) = (word, p + n, PutBack) ->
      exists w,
        word' = word ++ w
        /\ map upper (take (length w) (c0 :: rest)) = w
        /\ ~ In "%" w
        /\ dec_end_spec e (c0 :: rest) w he p p').
    { intros n Hn [= -> -> ->]. exists []. rewrite app_nil_r.
      split; [done|]. split; [done|]. split; [by intros []|]. simpl. lia. }
    destruct (Ascii.eqb (upper c0) "." && negb hp && negb he) eqn:Hdot.
    { apply (Hrec _ _ Hloop).
      - intros Hc. rewrite Hc in Hdot. discriminate.
      - intros Hhe. split; [done|].
        apply andb_true_iff in Hdot as [[Hc _]%andb_true_iff _].
        apply Ascii.eqb_eq in Hc. by rewrite Hc. }
    destruct (inb (upper c0) ["E"; "D"] && negb he) eqn:Hexp.
    { destruct (Ascii.eqb (upper c0) "E"
                && opt_inb (option_map upper (head rest)) ["L"; "Q"]).
      - apply (Hstop 0); [lia|]. rewrite Nat.add_0_r. by symmetry.
      - apply (Hrec _ _ Hloop).
        + intros Hc. rewrite Hc in Hexp. discriminate.
        + discriminate. }
    assert (Hkeep : he = false -> he = false
                    /\ inb (upper c0) ["E"; "D"] = false).
    { intros ->. split; [done|]. by rewrite andb_true_r in Hexp. }
    destruct (inb (upper c0) ["-"; "+"]
              && match word with
                 | [] => true
                 | _ :: _ => last_in word ["E"; "D"]
                 end) eqn:Hsign.
    { apply (Hrec _ _ Hloop); [|done].
      intros Hc. rewrite Hc in Hsign. discriminate. }
    destruct (inb (upper c0) (digits ++ blanks ++ separators)) eqn:Hdigit.
    { apply (Hrec _ _ Hloop); [|done].
      intros Hc. rewrite Hc in Hdigit. discriminate. }
    destruct (inb (upper c0) ["!"; "#"] && negb he) eqn:Hsuffix.
    { injection Hloop as <- <- <-. exists [upper c0].
      apply andb_true_iff in Hsuffix as [Hc Hhe].
      apply negb_true_iff in Hhe.
      assert (Hc' : upper c0 = "!" \/ upper c0 = "#").
      { unfold inb in Hc. simpl in Hc.
        apply orb_true_iff in Hc as [Hc|Hc];
          [left; by apply Ascii.eqb_eq|].
        apply orb_true_iff in Hc as [Hc|Hc]; [|done].
        right; by apply Ascii.eqb_eq. }
      split; [done|]. split; [done|].
      split; [intros [Hin|[]]; destruct Hc' as [Hx|Hx];
              rewrite Hx in Hin; discriminate|].
      simpl. split; [lia|]. split; [done|].
      split; [constructor; [|done]; by destruct Hc' as [-> | ->]|].
      by exists (upper c0). }
    destruct (Ascii.eqb_spec (upper c0) "%") as [Hpc|Hpc].
    { injection Hloop as <- <- <-. exists []. rewrite app_nil_r.
      split; [done|]. split; [done|]. split; [by intros []|].
      simpl. split; [lia|]. f_equal. by apply upper_plain. }
    apply (Hstop 0); [lia|]. rewrite Nat.add_0_r. by symmetry.
Qed.

Lemma lookup_of_map_take (f : ascii -> ascii) (w : list ascii) :
  forall rest i x,
    map f (take (length w) rest) = w -> w !! i = Some x ->
    exists y, rest !! i = Some y /\ f y = x.
Proof.
  induction w as [|a w IH]; intros rest i x Hmap Hx; [done|].
  destruct rest as [|b rest]; [done|]. simpl in Hmap.
  injection Hmap as Hb Hmap. destruct i as [|i]; simpl in *.
  - injection Hx as <-. by exists b.
  - by apply IH.
Qed.

Lemma last_lstrip (chars s : list ascii) (c : ascii) :
  last s = Some c -> inb c chars = false ->
  last (lstrip chars s) = Some c.
Proof.
  induction s as [|a s IH]; [done|]. intros Hl Hc. simpl.
  destruct (inb a chars) eqn:Ha; [|done].
  destruct s as [|b s]; [simpl in Hl; congruence|]. by apply IH.
Qed.

Lemma read_dec_unfold (s : Stream) (word : list ascii) (p : nat)
    (e : DecEnd) :
  read_dec_loop (unread s) false false [] (tell s) = (word, p, e) ->
  _read_dec s
  = (strip blanks (rstrip blanks word),
     seek (p - (length word - length (rstrip blanks word))) s).
Proof. intros Hloop. unfold _read_dec. by rewrite Hloop. Qed.




(** *** Blanks inside a numeral *)

Lemma sign_ok_snoc (word : list ascii) (c : ascii) :
  sign_ok (word ++ [c]) = inb c ["E"; "D"].
Proof.
  unfold sign_ok, last_in. rewrite last_snoc.
  by destruct word.
Qed.

Lemma blank_cases (c : ascii) :
  inb c blanks = true -> c = " " \/ c = "009" \/ c = "010".
Proof.
  unfold inb. simpl. rewrite !orb_true_iff.
  intros [Hc|[Hc|[Hc|Hc]]]; try discriminate;
    apply Ascii.eqb_eq in Hc; auto.
Qed.

Lemma remove_blanks_cons_blank (c : ascii) (rest : list ascii) :
  inb c blanks = true -> remove_blanks (c :: rest) = remove_blanks rest.
Proof. intros Hc. unfold remove_blanks. cbn [List.filter]. by rewrite Hc. Qed.

Lemma remove_blanks_cons (c : ascii) (rest : list ascii) :
  inb c blanks = false ->
  remove_blanks (c :: rest) = c :: remove_blanks rest.
Proof. intros Hc. unfold remove_blanks. cbn [List.filter]. by rewrite Hc. Qed.

Lemma head_remove_blanks (ae : bool) (rest : list ascii) :
  no_blank_after_exp ae rest = true -> ae = true ->
  head (remove_blanks rest) = head rest.
Proof.
  destruct rest as [|c rest]; [done|]. cbn [no_blank_after_exp].
  destruct (inb c blanks) eqn:Hc.
  - intros Hn ->. discriminate.
  - intros _ _. by rewrite remove_blanks_cons.
Qed.

(** The loop on a numeral and on the numeral without its blanks: the
    words are the same up to the blanks. *)
Lemma read_dec_loop_blanks (rest : list ascii) :
  forall he hp word wordf p q ae,
    sign_ok word = ae -> sign_ok wordf = ae ->
    no_blank_after_exp ae rest = true ->
    exists w,
      fst (fst (read_dec_loop rest he hp word p)) = word ++ w
      /\ fst (fst (read_dec_loop (remove_blanks rest) he hp wordf q))
         = wordf ++ remove_blanks w.
Proof.
  induction rest as [|c0 rest IH];
    intros he hp word wordf p q ae Hword Hwordf Hrest.
  - exists []. simpl. by rewrite !app_nil_r.
  - cbn [no_blank_after_exp] in Hrest.
    destruct (inb c0 blanks) eqn:Hblank.
    + apply andb_true_iff in Hrest as [Hae Hrest].
      apply negb_true_iff in Hae. rewrite Hae in Hword, Hwordf.
      rewrite (remove_blanks_cons_blank c0 rest Hblank).
      destruct (IH he hp (word ++ [c0]) wordf (S p) q false)
        as (w & Hraw & Hfil); [|done|done|].
      { rewrite sign_ok_snoc. by destruct (blank_cases c0 Hblank)
          as [->|[->| ->]]. }
      exists (c0 :: w). rewrite (remove_blanks_cons_blank c0 w Hblank).
      split; [|done].
      transitivity
        (fst (fst (read_dec_loop rest he hp (word ++ [c0]) (S p))));
        [|by rewrite Hraw, <- app_assoc].
      destruct (blank_cases c0 Hblank) as [->|[->| ->]]; reflexivity.
    + rewrite (remove_blanks_cons c0 rest Hblank).
      assert (Hup : inb (upper c0) blanks = false)
        by (by rewrite upper_blank).
      assert (Hstep : forall he' hp',
        exists w,
          fst (fst (read_dec_loop rest he' hp' (word ++ [upper c0]) (S p)))
          = word ++ w
          /\ fst (fst (read_dec_loop (remove_blanks rest) he' hp'
                         (wordf ++ [upper c0]) (S q)))
             = wordf ++ remove_blanks w).
      { intros he' hp'.
        destruct (IH he' hp' (word ++ [upper c0]) (wordf ++ [upper c0])
                    (S p) (S q) (inb (upper c0) ["E"; "D"]))
          as (w & Hraw & Hfil);
          [apply sign_ok_snoc|apply sign_ok_snoc|done|].
        exists (upper c0 :: w). rewrite (remove_blanks_cons _ w Hup).
        rewrite Hraw, Hfil, <- !app_assoc. done. }
      assert (Hnil : exists w,
        word = word ++ w /\ wordf = wordf ++ remove_blanks w).
      { exists []. by rewrite !app_nil_r. }
      assert (Hone : exists w,
        word ++ [upper c0] = word ++ w
        /\ wordf ++ [upper c0] = wordf ++ remove_blanks w).
      { exists [upper c0]. by rewrite (remove_blanks_cons _ [] Hup). }
      cbn [read_dec_loop].
      change (match word with [] => true | _ :: _ => last_in word ["E"; "D"] end)
        with (sign_ok word).
      change (match wordf with [] => true | _ :: _ => last_in wordf ["E"; "D"] end)
        with (sign_ok wordf).
      rewrite Hword, Hwordf.
      destruct (Ascii.eqb (upper c0) "." && negb hp && negb he);
        [apply Hstep|].
      destruct (inb (upper c0) ["E"; "D"] && negb he) eqn:Hexp.
      { apply andb_true_iff in Hexp as [Hexp _]. rewrite Hexp in Hrest.
        rewrite (head_remove_blanks true rest Hrest eq_refl).
        destruct (Ascii.eqb (upper c0) "E"
                  && opt_inb (option_map upper (head rest)) ["L"; "Q"]);
          [apply Hnil|apply Hstep]. }
      destruct (inb (upper c0) ["-"; "+"] && ae); [apply Hstep|].
      destruct (inb (upper c0) (digits ++ blanks ++ separators));
        [apply Hstep|].
      destruct (inb (upper c0) ["!"; "#"] && negb he); [apply Hone|].
      destruct (Ascii.eqb (upper c0) "%"); apply Hnil.
Qed.




End NumberFacts.

Module EngineFacts.
Import CodeStream TokenisedStream Interpreter.

Section Engine.
Context `{Tokens} `{ErrorNumbers} {V : Type} `{Values V}.
Context (events_reset : Events -> Events).
Context (complete_name : list ascii -> list ascii).

#[local] Abbreviation State := (State (V:=V)).
#[local] Abbreviation ForRecord := (ForRecord (V:=V)).

Lemma set_pointer_run (mode : bool) (p : nat) (st : State) :
  exists st',
    set_pointer mode (Some p) st = (Ok tt, st')
    /\ run_mode st' = mode
    /\ tell (current_stream st') = p
    /\ gosub_stack st' = gosub_stack st
    /\ for_stack st' = for_stack st
    /\ error_handle_mode st' = error_handle_mode st
    /\ error_resume st' = error_resume st
    /\ suspend_all (events st') = suspend_all (events st)
    /\ stream_of (negb mode) st' = stream_of (negb mode) st.
Proof.
  eexists. split; [reflexivity|].
  unfold current_stream. destruct mode; simpl; auto 10.
Qed.

(** C8, as the code has it. CLEAR empties the FOR and WHILE stacks, leaves
    the GOSUB stack as it is, unsets the trap target, clears the handling
    flag and the resume context, zeroes the last error number and
    position, and puts the DATA cursor at the start of the program. *)
Theorem clear_clears (st : State) :
  exists st',
    clear events_reset st = (Ok tt, st')
    /\ for_stack st' = []
    /\ while_stack st' = []
    /\ gosub_stack st' = gosub_stack st
    /\ on_error st' = None
    /\ error_handle_mode st' = false
    /\ error_resume st' = None
    /\ error_num st' = 0%Z
    /\ error_pos st' = 0%Z
    /\ data_pos st' = 0.
Proof. eexists. split; [reflexivity|]. simpl. auto 10. Qed.

(** What [clear_stacks], which RUN and NEW go through, does and CLEAR
    does not: it empties the GOSUB stack as well. *)
Lemma clear_stacks_clears (st : State) :
  exists st',
    clear_stacks st = (Ok tt, st')
    /\ gosub_stack st' = [] /\ for_stack st' = [] /\ while_stack st' = [].
Proof. eexists. split; [reflexivity|]. simpl. auto. Qed.

(** C1. With a trap target [line] that is not 0 and is a line of the
    program, and no error being handled, [trap_error] saves the start of
    the failing statement and the run mode, jumps to the offset of the
    target in run mode, sets the handling flag and suspends the dispatch
    of events, so that [handle_basic_events] does nothing. From any later
    state that still holds the saved context, RESUME without argument
    puts the stream of the saved run mode at the saved offset, clears
    the handling flag and the context, and lets events through again. *)
Theorem trap_error_then_resume (e : RunError) (st : State)
    (line target : nat) :
  on_error st = Some line ->
  line <> 0 ->
  error_handle_mode st = false ->
  line_numbers st !! line = Some target ->
  exists st1,
    trap_error e st = (Ok tt, st1)
    /\ error_resume st1 = Some (current_statement st, run_mode st)
    /\ run_mode st1 = true
    /\ tell (program_code st1) = target
    /\ error_handle_mode st1 = true
    /\ suspend_all (events st1) = true
    /\ handle_basic_events st1 = (Ok tt, st1)
    /\ forall st2 : State,
         error_resume st2 = error_resume st1 ->
         exists st3,
           resume_ None st2 = (Ok tt, st3)
           /\ run_mode st3 = run_mode st
           /\ tell (current_stream st3) = current_statement st
           /\ error_handle_mode st3 = false
           /\ error_resume st3 = None
           /\ suspend_all (events st3) = false.
Proof.
  intros Htrap Hline Hmode Htarget.
  unfold trap_error, bind, gets, modify. simpl.
  rewrite Htrap, Hmode. simpl.
  rewrite bool_decide_true by (intros [=]; lia).
  simpl. unfold jump, bind, gets. simpl. rewrite Htarget. simpl.
  eexists. split; [reflexivity|]. simpl.
  repeat (split; [reflexivity|]).
  intros st2 Hsaved. simpl in Hsaved.
  unfold resume_, bind, gets, modify. simpl. rewrite Hsaved. simpl.
  eexists. split; [reflexivity|].
  unfold current_stream. destruct (run_mode st); simpl; auto.
Qed.


Lemma pop_snoc {A} (l : list A) (x : A) :
  last (l ++ [x]) = Some x /\ take (length (l ++ [x]) - 1) (l ++ [x]) = l.
Proof.
  split; [apply last_snoc|].
  rewrite length_app. simpl.
  replace (length l + 1 - 1) with (length l) by lia.
  by rewrite take_app_length.
Qed.

(** GOSUB pushes the position it was called at together with the run
    mode the jump has just set, which is always [true]. *)
Lemma gosub_pushes (st : State) (line target : nat) :
  line_numbers st !! line = Some target ->
  exists st1,
    gosub_ (Some line) st = (Ok tt, st1)
    /\ gosub_stack st1 =
         gosub_stack st ++
         [{| g_pos := tell (current_stream st); g_runmode := true;
             g_handler := None |}]
    /\ run_mode st1 = true
    /\ tell (program_code st1) = target
    /\ (run_mode st = false -> direct_line st1 = direct_line st).
Proof.
  intros Hline.
  unfold gosub_, jump_sub, jump, bind, gets, stream_tell, on_stream,
    current_stream.
  simpl. destruct (run_mode st) eqn:Hm; simpl; rewrite Hline; simpl;
    (eexists; split; [reflexivity|]); simpl; auto.
Qed.

(** A GOSUB and the RETURN that follows: execution goes on in run mode,
    in the program, from the position of the call, whatever the run mode
    of the call was. *)
Lemma gosub_then_return (st : State) (line target : nat) :
  line_numbers st !! line = Some target ->
  exists st1 st2,
    gosub_ (Some line) st = (Ok tt, st1)
    /\ return_ None st1 = (Ok tt, st2)
    /\ gosub_stack st2 = gosub_stack st
    /\ run_mode st2 = true
    /\ program_code st2 =
         skip_to END_STATEMENT_chars true
           (seek (tell (current_stream st)) (program_code st))
    /\ (run_mode st = false -> direct_line st2 = direct_line st).
Proof.
  intros Hline.
  destruct (gosub_pushes st line target Hline)
    as (st1 & Hg & Hstack & Hmode & Htell & Hdirect).
  exists st1. rewrite Hg.
  unfold return_, bind, gets, modify. simpl.
  rewrite Hstack.
  destruct (pop_snoc (gosub_stack st)
    {| g_pos := tell (current_stream st); g_runmode := true;
       g_handler := None |}) as [-> ->].
  simpl. eexists. split; [reflexivity|]. split; [reflexivity|].
  simpl. split; [reflexivity|]. split; [reflexivity|].
  split; [|exact Hdirect].
  f_equal.
  revert Hg. unfold gosub_, jump_sub, jump, bind, gets, stream_tell,
    on_stream. simpl.
  destruct (run_mode st); simpl; rewrite Hline; simpl;
    intros [= <-]; reflexivity.
Qed.

(** *** The search for the record of a NEXT *)

Lemma find_record_find_top (stack : list ForRecord) (pos : nat) :
  forall todo depth,
    depth + todo = length stack ->
    find_record stack pos todo depth
    = find_top pos (drop depth (reverse stack)) depth.
Proof.
  induction todo as [|todo IH]; intros depth Hlen; simpl.
  - rewrite drop_ge; [done|]. rewrite length_reverse. lia.
  - assert (Hlook : reverse stack !! depth
                    = stack !! (length stack - depth - 1)).
    { rewrite reverse_lookup by lia. f_equal. lia. }
    destruct (stack !! (length stack - depth - 1)) as [r|] eqn:Hr.
    + rewrite (drop_S _ r depth) by done. simpl.
      destruct (pos =? nextpos r); [done|]. apply IH. lia.
    + apply lookup_ge_None in Hr. lia.
Qed.

Lemma find_top_found (pos : nat) (above : list ForRecord) (r : ForRecord)
    (below : list ForRecord) :
  forall depth,
    Forall (fun r' => nextpos r' <> pos) above ->
    nextpos r = pos ->
    find_top pos (above ++ r :: below) depth
    = Some (depth + length above, r).
Proof.
  induction above as [|a above IH]; intros depth Habove Hr; simpl.
  - subst pos. rewrite Nat.eqb_refl. do 2 f_equal. lia.
  - inversion Habove as [|? ? Ha Hrest]; subst.
    destruct (Nat.eqb_spec (nextpos r) (nextpos a)) as [Heq|_];
      [congruence|].
    rewrite IH by done. do 2 f_equal. lia.
Qed.

Lemma find_top_none (pos : nat) (records : list ForRecord) :
  forall depth,
    Forall (fun r' => nextpos r' <> pos) records ->
    find_top pos records depth = None.
Proof.
  induction records as [|a records IH]; intros depth Hall; simpl; [done|].
  inversion Hall as [|? ? Ha Hrest]; subst.
  destruct (Nat.eqb_spec pos (nextpos a)) as [Heq|_]; [congruence|].
  by apply IH.
Qed.

Lemma find_record_found (below : list ForRecord) (r : ForRecord)
    (above : list ForRecord) (pos : nat) :
  nextpos r = pos ->
  Forall (fun r' => nextpos r' <> pos) above ->
  find_record (below ++ r :: above) pos (length (below ++ r :: above)) 0
  = Some (length above, r).
Proof.
  intros Hr Habove.
  rewrite find_record_find_top by lia.
  rewrite drop_0, reverse_app, reverse_cons, <- app_assoc. simpl.
  rewrite find_top_found; [by rewrite length_reverse|
                           by apply Forall_reverse|done].
Qed.

Lemma find_record_none (stack : list ForRecord) (pos : nat) :
  Forall (fun r' => nextpos r' <> pos) stack ->
  find_record stack pos (length stack) 0 = None.
Proof.
  intros Hall. rewrite find_record_find_top by lia.
  rewrite drop_0. apply find_top_none. by apply Forall_reverse.
Qed.

Lemma take_below {A} (below : list A) (r : A) (above : list A) :
  take (length (below ++ r :: above) - length above) (below ++ r :: above)
  = below ++ [r].
Proof.
  rewrite length_app. simpl.
  replace (length below + S (length above) - length above)
    with (length (below ++ [r])) by (rewrite length_app; simpl; lia).
  replace (below ++ r :: above) with ((below ++ [r]) ++ above)
    by (by rewrite <- app_assoc).
  by rewrite take_app_length.
Qed.


(** *** FOR *)

Lemma put_stream_put_stream (ins : bool) (s s' : Stream) (st : State) :
  put_stream ins s' (put_stream ins s st) = put_stream ins s' st.
Proof. by destruct ins. Qed.

Lemma put_stream_same (ins : bool) (st : State) :
  put_stream ins (stream_of ins st) st = st.
Proof. by destruct ins, st. Qed.

Lemma stream_only_ret {A} (ins : bool) (a : A) : stream_only (V:=V) ins (ret a).
Proof. intros st. exists (stream_of ins st). simpl. by rewrite put_stream_same. Qed.

Lemma stream_only_raise {A} (ins : bool) (e : RunError) :
  stream_only (V:=V) ins (raise (A:=A) e).
Proof. intros st. exists (stream_of ins st). simpl. by rewrite put_stream_same. Qed.

Lemma stream_only_on_stream {A} (ins : bool) (f : Stream -> A * Stream) :
  stream_only (V:=V) ins (on_stream ins f).
Proof.
  intros st. unfold on_stream. destruct (f _) as [a s]. by exists s.
Qed.

Lemma stream_only_bind {A B} (ins : bool) (m : M (V:=V) A)
    (k : A -> M (V:=V) B) :
  stream_only (V:=V) ins m -> (forall a, stream_only (V:=V) ins (k a)) ->
  stream_only (V:=V) ins (bind m k).
Proof.
  intros Hm Hk st. unfold bind. destruct (Hm st) as [s Hs].
  destruct (m st) as [[a|e|] st1]; simpl in Hs; subst st1.
  - destruct (Hk a (put_stream ins s st)) as [s' Hs'].
    exists s'. by rewrite Hs', put_stream_put_stream.
  - by exists s.
  - by exists s.
Qed.

Lemma stream_only_parse_name (ins : bool) :
  stream_only (V:=V) ins (parse_name complete_name ins).
Proof.
  apply stream_only_bind; [apply stream_only_on_stream|].
  intros [|c name]; [apply stream_only_raise|apply stream_only_ret].
Qed.

Lemma stream_only_find_next (ins : bool) (varname : list ascii) :
  stream_only (V:=V) ins (_find_next complete_name ins varname).
Proof.
  unfold _find_next, stream_tell, do_stream.
  repeat first
    [ apply stream_only_on_stream
    | apply stream_only_parse_name
    | apply stream_only_ret
    | apply stream_only_raise
    | apply stream_only_bind; [|intros ?]
    | match goal with
      | |- stream_only _ (if ?b then _ else _) => destruct b
      end ].
Qed.


End Engine.

Import GW.

(** C2, where the code departs from it. GOSUB 100 typed as a direct line
    (run mode [false]), with the line number read up to offset 4 of the
    line, then the RETURN of line 100: execution does not go back to
    offset 4 of the direct line in run mode [false]; it goes on in run
    mode [true] at offset 4 of the program, and the direct line stays
    where the jump left it. *)
Theorem gosub_return_from_direct_line :
  let st := in_direct_line return_program return_lines gosub_direct_line 4 in
  exists st1 st2,
    gosub_ (Some 100) st = (Ok tt, st1)
    /\ return_ None st1 = (Ok tt, st2)
    /\ run_mode st = false
    /\ tell (current_stream st) = 4
    /\ run_mode st2 = true
    /\ tell (current_stream st2) = 4
    /\ current_stream st2 = program_code st2
    /\ direct_line st2 = direct_line st.
Proof.
  intros st.
  destruct (gosub_then_return st 100 0 eq_refl)
    as (st1 & st2 & Hg & Hr & _ & Hmode & Hprog & Hdirect).
  exists st1, st2. split; [exact Hg|]. split; [exact Hr|].
  split; [reflexivity|]. split; [reflexivity|].
  split; [exact Hmode|].
  unfold current_stream. rewrite Hmode. simpl. rewrite Hprog.
  split; [reflexivity|]. split; [reflexivity|].
  by apply Hdirect.
Qed.


(** C8 as it is stated fails: CLEAR inside a subroutine leaves the
    return record of the GOSUB on its stack. *)
Lemma clear_keeps_gosub_stack :
  let frame := {| g_pos := 12; g_runmode := true; g_handler := None |} in
  let st := set_gosub_stack [frame]
              (in_program empty_loop_program empty_loop_lines 20 24) in
  gosub_stack (snd (clear events_reset st)) = [frame]
  /\ gosub_stack (snd (clear events_reset st)) <> [].
Proof. split; [reflexivity|discriminate]. Qed.

Lemma trap_error_then_resume_witness :
  let st := set_on_error (Some 40)
              (in_program empty_loop_program empty_loop_lines 20 24) in
  exists st1,
    trap_error {| err := 11; pos := None |} st = (Ok tt, st1)
    /\ error_resume st1 = Some (20, true)
    /\ run_mode st1 = true
    /\ tell (program_code st1) = 33
    /\ error_handle_mode st1 = true
    /\ suspend_all (events st1) = true
    /\ handle_basic_events st1 = (Ok tt, st1)
    /\ forall st2 : State (V:=Z),
         error_resume st2 = error_resume st1 ->
         exists st3,
           resume_ None st2 = (Ok tt, st3)
           /\ run_mode st3 = true
           /\ tell (current_stream st3) = 20
           /\ error_handle_mode st3 = false
           /\ error_resume st3 = None
           /\ suspend_all (events st3) = false.
Proof.
  intros st.
  apply (trap_error_then_resume {| err := 11; pos := None |} st 40 33);
    [reflexivity | lia | reflexivity | reflexivity].
Defined.


Lemma int_iadd_past (a b s c : Z) :
  iadd a s = Ok c ->
  (if (0 <? sign s)%Z then gt a b else gt b a) = true ->
  (if (0 <? sign s)%Z then gt c b else gt b c) = true.
Proof.
  simpl. unfold int_iadd.
  destruct ((a + s <? -32768) || (32767 <? a + s))%Z; [discriminate|].
  intros [= <-]. destruct (Z.ltb_spec 0 (Z.sgn s)); lia.
Qed.


End EngineFacts.

Module JumpFacts.
Import CodeStream TokenisedStream Interpreter StreamFacts EngineFacts.

Section Engine.
Context `{Tokens} `{ErrorNumbers} {V : Type} `{Values V}.

#[local] Abbreviation State := (State (V:=V)).

Lemma stream_of_advance (ins : bool) (k : nat) (st : State) :
  stream_of ins (advance ins k st)
  = seek (tell (stream_of ins st) + k) (stream_of ins st).
Proof. by destruct ins. Qed.

Lemma unread_advance (ins : bool) (k : nat) (st : State) :
  unread (stream_of ins (advance ins k st))
  = drop k (unread (stream_of ins st)).
Proof. rewrite stream_of_advance. apply unread_seek. Qed.

Lemma advance_advance (ins : bool) (j k : nat) (st : State) :
  advance ins k (advance ins j st) = advance ins (j + k) st.
Proof.
  destruct ins; unfold advance; simpl; unfold seek; simpl;
    by rewrite Nat.add_assoc.
Qed.

Lemma advance_0 (ins : bool) (st : State) : advance ins 0 st = st.
Proof.
  unfold advance, seek. rewrite Nat.add_0_r.
  destruct ins, st as [? [] [] ? ? ? ? ? ? ? ? ? ? ? ? ?]; reflexivity.
Qed.

Lemma put_stream_seek (ins : bool) (k : nat) (st : State) :
  put_stream ins (seek (tell (stream_of ins st) + k) (stream_of ins st)) st
  = advance ins k st.
Proof. reflexivity. Qed.

Lemma unpack_target (n : nat) :
  n < 256 * 256 ->
  unpack_H [ascii_of_nat (n mod 256); ascii_of_nat (n / 256)] = Ok n.
Proof.
  intros Hn. unfold unpack_H.
  rewrite !nat_ascii_embedding.
  - f_equal. pose proof (Nat.div_mod_eq n 256). lia.
  - apply Nat.Div0.div_lt_upper_bound. lia.
  - apply Nat.mod_upper_bound. lia.
Qed.

Lemma uint_apart_blank : uint_apart -> inb T_UINT blanks = false.
Proof.
  unfold uint_apart, inb. rewrite existsb_app. by intros [? _]%orb_false_iff.
Qed.

Lemma uint_apart_neq :
  uint_apart -> T_UINT <> "," /\ T_UINT <> ":" /\ T_UINT <> NUL.
Proof.
  unfold uint_apart, inb. rewrite existsb_app.
  intros [_ Hx]%orb_false_iff. simpl in Hx.
  repeat split; intros Heq; rewrite Heq in Hx; simpl in Hx;
    rewrite ?orb_true_r in Hx; discriminate.
Qed.

Lemma end_statement_head (tail : list ascii) :
  END_STATEMENT (head tail) = true ->
  tail = [] \/ exists c rest, tail = c :: rest /\ (c = NUL \/ c = ":").
Proof.
  destruct tail as [|c rest]; [by left|]. simpl. intros Hc. right.
  exists c, rest. split; [done|].
  apply orb_true_iff in Hc as [Hc|Hc]; apply Ascii.eqb_eq in Hc; auto.
Qed.

Lemma require_read_at (s : Stream) (c : ascii) (rest range : list ascii) :
  unread s = c :: rest -> inb c blanks = false -> inb c range = true ->
  require_read range s = (Ok c, seek (tell s + 1) s).
Proof.
  intros Hs Hb Hr. unfold require_read. rewrite Hs.
  cbn [skip_read_loop]. rewrite Hb, Hr. by rewrite Nat.add_1_r.
Qed.

Lemma inb_singleton (c : ascii) : inb c [c] = true.
Proof. unfold inb. simpl. by rewrite Ascii.eqb_refl. Qed.

Lemma parse_target (ins : bool) (t : nat) (rest : list ascii) (st : State) :
  uint_apart -> t < 256 * 256 ->
  unread (stream_of ins st) = encode_target t ++ rest ->
  _parse_optional_jumpnum ins st = (Ok (Some t), advance ins 3 st).
Proof.
  intros Hu Ht Hs. pose proof (uint_apart_blank Hu) as Hb.
  unfold _parse_optional_jumpnum, _parse_jumpnum, bind, on_stream,
    on_stream_res, lift.
  rewrite (skip_blank_at _ _ _ Hs Hb).
  rewrite put_stream_same. cbn [opt_inb]. rewrite inb_singleton.
  cbn [negb].
  rewrite (require_read_at _ _ _ _ Hs Hb (inb_singleton _)).
  rewrite put_stream_seek.
  rewrite read_at by (rewrite unread_advance, Hs; simpl; lia).
  rewrite unread_advance, Hs. cbn [encode_target app drop take].
  rewrite unpack_target by done.
  rewrite put_stream_seek, advance_advance. reflexivity.
Qed.

Lemma parse_no_target (ins : bool) (tail : list ascii) (st : State) :
  uint_apart -> END_STATEMENT (head tail) = true ->
  unread (stream_of ins st) = tail ->
  _parse_optional_jumpnum ins st = (Ok None, st).
Proof.
  intros Hu Hend Hs. unfold _parse_optional_jumpnum, bind, on_stream.
  destruct (end_statement_head tail Hend) as [->|(c & rest & -> & Hc)].
  - rewrite (skip_blank_end _ Hs). simpl. by rewrite put_stream_same.
  - assert (Hcb : inb c blanks = false) by (by destruct Hc as [->| ->]).
    rewrite (skip_blank_at _ _ _ Hs Hcb). simpl. rewrite put_stream_same.
    assert (Ascii.eqb c T_UINT = false) as ->; [|done].
    apply Ascii.eqb_neq. intros ->.
    destruct (uint_apart_neq Hu) as (_ & ? & ?). by destruct Hc.
Qed.

Lemma require_end_at (ins : bool) (tail : list ascii) (st : State) :
  END_STATEMENT (head tail) = true ->
  unread (stream_of ins st) = tail ->
  on_stream_res ins require_end st = (Ok tt, st).
Proof.
  intros Hend Hs. unfold on_stream_res, require_end.
  destruct (end_statement_head tail Hend) as [->|(c & rest & -> & Hc)].
  - rewrite (skip_blank_end _ Hs). simpl. by rewrite put_stream_same.
  - assert (Hcb : inb c blanks = false) by (by destruct Hc as [->| ->]).
    rewrite (skip_blank_at _ _ _ Hs Hcb).
    assert (END_STATEMENT (Some c) = true) as -> by done.
    by rewrite put_stream_same.
Qed.

Lemma read_comma (ins : bool) (rest : list ascii) (st : State) :
  unread (stream_of ins st) = "," :: rest ->
  on_stream ins (skip_blank_read_if [","]) st
  = (Ok (Some ","), advance ins 1 st).
Proof.
  intros Hs. unfold on_stream, skip_blank_read_if.
  rewrite (skip_blank_at _ _ _ Hs eq_refl). unfold read_if.
  rewrite inb_singleton.
  rewrite read_at by (rewrite Hs; simpl; lia). reflexivity.
Qed.

Lemma read_no_comma (ins : bool) (tail : list ascii) (st : State) :
  END_STATEMENT (head tail) = true ->
  unread (stream_of ins st) = tail ->
  on_stream ins (skip_blank_read_if [","]) st = (Ok None, st).
Proof.
  intros Hend Hs. unfold on_stream, skip_blank_read_if.
  destruct (end_statement_head tail Hend) as [->|(c & rest & -> & Hc)].
  - rewrite (skip_blank_end _ Hs). simpl. by rewrite put_stream_same.
  - assert (Hcb : inb c blanks = false) by (by destruct Hc as [->| ->]).
    rewrite (skip_blank_at _ _ _ Hs Hcb). simpl.
    assert (Ascii.eqb c "," = false) as -> by (by destruct Hc as [->| ->]).
    simpl. by rewrite put_stream_same.
Qed.

Lemma encode_targets_cons (t : nat) (targets : list nat) :
  encode_targets (t :: targets)
  = encode_target t ++
    match targets with [] => [] | _ => "," :: encode_targets targets end.
Proof. destruct targets; simpl; by rewrite ?app_nil_r. Qed.

Lemma encode_targets_length (targets : list nat) :
  length (encode_targets targets) = 4 * length targets - 1.
Proof.
  induction targets as [|t targets IH]; [done|].
  rewrite encode_targets_cons, length_app.
  destruct targets as [|t' targets]; [done|].
  cbn [length encode_target] in *. lia.
Qed.

(** The loop of [on_jump_] in front of the targets that are left:
    [onvar - 2 - i] is the rank, from 0, of the chosen one among them. *)
Lemma on_jump_loop_spec (ins : bool) (onvar : Z) (jump_type : ascii)
    (tail : list ascii) :
  uint_apart -> END_STATEMENT (head tail) = true ->
  forall targets fuel i (st : State),
    Forall (fun t => t < 256 * 256) targets ->
    unread (stream_of ins st) = encode_targets targets ++ tail ->
    length targets < fuel ->
    on_jump_loop fuel ins onvar jump_type i st
    = match targets !! Z.to_nat (onvar - 2 - i) with
      | Some t =>
          if (0 <=? onvar - 2 - i)%Z then
            on_jump_action jump_type t
              (advance ins (4 * Z.to_nat (onvar - 2 - i) + 3) st)
          else
            (Ok tt, advance ins (length (encode_targets targets)) st)
      | None =>
          if (i + Z.of_nat (length targets) =? onvar - 2)%Z then
            (Raise (run_error STX),
             advance ins (length (encode_targets targets)) st)
          else (Ok tt, advance ins (length (encode_targets targets)) st)
      end.
Proof.
  intros Hu Hend. induction targets as [|t targets IH];
    intros fuel i st Hall Hs Hfuel;
    (destruct fuel as [|fuel]; [simpl in Hfuel; lia|]).
  - cbn [on_jump_loop]. unfold bind at 1.
    rewrite (parse_no_target ins tail st Hu Hend Hs).
    unfold on_jump_end, bind. rewrite (require_end_at ins tail st Hend Hs).
    rewrite lookup_nil. simpl length. rewrite advance_0, Z.add_0_r.
    destruct (i =? onvar - 2)%Z; reflexivity.
  - inversion Hall as [|? ? Ht Hrest]; subst.
    rewrite encode_targets_cons, <- app_assoc in Hs.
    cbn [on_jump_loop]. unfold bind at 1.
    rewrite (parse_target ins t _ st Hu Ht Hs).
    destruct (Z.eqb_spec (i + 1) (onvar - 1)) as [Hi|Hi].
    + replace (onvar - 2 - i)%Z with 0%Z by lia. reflexivity.
    + assert (Hrest' : unread (stream_of ins (advance ins 3 st))
                = match targets with
                  | [] => []
                  | _ => "," :: encode_targets targets
                  end ++ tail).
      { rewrite unread_advance, Hs. reflexivity. }
      destruct targets as [|t' targets].
      * unfold bind at 1.
        rewrite (read_no_comma ins tail _ Hend Hrest').
        unfold on_jump_end, bind.
        rewrite (require_end_at ins tail _ Hend Hrest').
        cbn [length]. change (Z.of_nat 1) with 1%Z.
        destruct (Z.to_nat (onvar - 2 - i)) as [|k] eqn:Hk.
        -- cbn [lookup list_lookup].
           destruct (Z.leb_spec 0 (onvar - 2 - i)); [lia|].
           destruct (Z.eqb_spec (i + 1) (onvar - 2)); [lia|].
           reflexivity.
        -- cbn [lookup list_lookup].
           destruct (i + 1 =? onvar - 2)%Z; reflexivity.
      * unfold bind at 1.
        rewrite (read_comma ins _ _ Hrest'). rewrite advance_advance.
        simpl in Hfuel.
        rewrite (IH fuel (i + 1)%Z (advance ins (3 + 1) st) Hrest);
          [|by rewrite unread_advance, Hs|simpl; lia].
        rewrite !advance_advance.
        rewrite (encode_targets_cons t (t' :: targets)).
        rewrite length_app.
        remember (t' :: targets) as rest eqn:Hr.
        replace (i + Z.of_nat (length (t :: rest)))%Z
          with (i + 1 + Z.of_nat (length rest))%Z by (cbn [length]; lia).
        destruct (Z.leb_spec 0 (onvar - 2 - i)) as [Hk|Hk].
        -- replace (Z.to_nat (onvar - 2 - i))
             with (S (Z.to_nat (onvar - 2 - (i + 1)))) by lia.
           cbn [lookup list_lookup].
           destruct (rest !! Z.to_nat (onvar - 2 - (i + 1))) as [x|] eqn:Hx.
           ++ destruct (Z.leb_spec 0 (onvar - 2 - (i + 1))); [|lia].
              f_equal. f_equal. lia.
           ++ subst rest. reflexivity.
        -- replace (Z.to_nat (onvar - 2 - i)) with 0 by lia.
           replace (Z.to_nat (onvar - 2 - (i + 1))) with 0 by lia.
           subst rest. cbn [lookup list_lookup].
           destruct (Z.leb_spec 0 (onvar - 2 - (i + 1))); [lia|].
           reflexivity.
Qed.

Lemma on_jump_in_range (onvar : Z) (jump_type : ascii) (targets : list nat)
    (tail : list ascii) (st : State) :
  uint_apart ->
  inb jump_type blanks = false ->
  inb jump_type [GOTO; GOSUB] = true ->
  Forall (fun t => t < 256 * 256) targets ->
  END_STATEMENT (head tail) = true ->
  unread (current_stream st) = jump_type :: encode_targets targets ++ tail ->
  (0 <= onvar <= 255)%Z ->
  on_jump_ onvar st
  = on_jump_loop (S (length (encode_targets targets ++ tail)))
      (run_mode st) onvar jump_type (-1) (advance (run_mode st) 1 st).
Proof.
  intros Hu Hb Hj Hall Hend Hs Hrange.
  unfold on_jump_, bind, get_codestream, gets, range_check.
  destruct (Z.ltb_spec onvar 0); [lia|].
  destruct (Z.ltb_spec 255 onvar); [lia|]. cbn [orb ret].
  unfold on_stream_res, on_stream. unfold current_stream in Hs.
  rewrite (require_read_at _ _ _ _ Hs Hb Hj), put_stream_seek.
  rewrite unread_advance, Hs. cbn [drop].
  by rewrite put_stream_same.
Qed.


End Engine.

Import GW.


End JumpFacts.

Module ScanFacts.
Import CodeStream TokenisedStream StreamFacts.

Section Scanner.
Context `{Tokens}.

(** *** Reading, in terms of the unread bytes *)

Lemma read1_spec (s : Stream) :
  match unread s with
  | [] => read1 s = (None, s)
  | c :: rest =>
      exists r,
        read1 s = (Some c, r) /\ tell r = S (tell s) /\ unread r = rest
        /\ seek_back 1 r = s
  end.
Proof.
  unfold read1. destruct (unread s) as [|c rest] eqn:Hs; [done|].
  eexists. split; [reflexivity|]. split; [done|].
  split; [by apply unread_cons with c|].
  unfold seek_back, seek. destruct s as [b p]. simpl. f_equal. lia.
Qed.

Lemma read_spec (n : nat) (s : Stream) :
  exists r,
    read n s = (take n (unread s), r)
    /\ tell r = tell s + length (take n (unread s))
    /\ unread r = drop n (unread s).
Proof.
  unfold read. eexists. split; [reflexivity|]. split; [done|].
  rewrite unread_seek, length_take.
  destruct (Nat.le_ge_cases n (length (unread s))) as [Hn|Hn].
  - by rewrite Nat.min_l.
  - rewrite Nat.min_r by done. by rewrite !drop_ge.
Qed.

(** *** The relation *)

Lemma region_eq_length (literal rem : bool) (l1 l2 : list ascii) :
  region_eq literal rem l1 l2 -> length l1 = length l2.
Proof.
  induction 1 as [| | |literal rem c l1 l2 Hf Htake Hreg IH];
    simpl; try lia.
  rewrite <- (take_drop (plus c) l1), <- (take_drop (plus c) l2).
  by rewrite !length_app, IH, Htake.
Qed.

Lemma flags_inert (c : ascii) (literal rem : bool) :
  inert c = true -> flags c literal rem = (literal, rem).
Proof.
  unfold inert, flags. intros Hc. apply negb_true_iff in Hc.
  apply orb_false_iff in Hc as [[Hq Hr]%orb_false_iff Hn].
  by rewrite Hq, Hr, Hn.
Qed.

Lemma flags_outside (c : ascii) (literal rem : bool) :
  flags c literal rem = (false, false) -> Ascii.eqb c QUOTE = false ->
  flags c false false = (false, false).
Proof.
  unfold flags. intros Hf Hq. rewrite Hq in *.
  destruct (Ascii.eqb c REM); [congruence|].
  destruct (Ascii.eqb c NUL); [done|]. congruence.
Qed.

(** The relation read at its first bytes. *)
Lemma region_eq_cons_inv (literal rem : bool) (x y : ascii)
    (l1 l2 : list ascii) :
  region_eq literal rem (x :: l1) (y :: l2) ->
  flags y literal rem = flags x literal rem
  /\ (if fst (flags x literal rem) || snd (flags x literal rem) then
        region_eq (fst (flags x literal rem)) (snd (flags x literal rem))
          l1 l2
      else
        x = y /\ take (plus x) l1 = take (plus x) l2
        /\ region_eq false false (drop (plus x) l1) (drop (plus x) l2)).
Proof.
  inversion 1 as [|? ? ? ? ? ? Hin Hx Hy Hreg
                  |? ? ? ? ? lit' rem' Hf Hsup Hreg
                  |? ? ? ? ? Hf Htake Hreg]; subst.
  - rewrite !flags_inert by done. simpl. by rewrite Hin.
  - rewrite Hf. simpl. by rewrite Hsup.
  - rewrite Hf. simpl. done.
Qed.

Lemma region_eq_head (x y : ascii) (l1 l2 : list ascii) :
  region_eq false false (x :: l1) (y :: l2) -> x = y.
Proof. inversion 1; subst; done. Qed.

Lemma region_eq_nil_inv (literal rem : bool) (l1 l2 : list ascii) :
  region_eq literal rem l1 l2 -> (l1 = [] <-> l2 = []).
Proof.
  intros Hlen%region_eq_length.
  destruct l1, l2; simpl in Hlen; split; intros; congruence.
Qed.

(** *** [skip_to] *)

Lemma take_2_of_4 (l1 l2 : list ascii) :
  take 4 l1 = take 4 l2 -> take 2 l1 = take 2 l2.
Proof.
  intros H4. change 2 with (2 `min` 4).
  rewrite <- (take_take l1 2 4), <- (take_take l2 2 4).
  by rewrite H4.
Qed.

(** The scan stops at the same position in two buffers so related. *)
Lemma skip_to_loop_tell (findrange : list ascii) :
  forall fuel literal rem first s1 s2,
    aligned literal rem s1 s2 ->
    tell (skip_to_loop fuel findrange literal rem first s1)
    = tell (skip_to_loop fuel findrange literal rem first s2).
Proof.
  induction fuel as [|fuel IH]; intros literal rem first s1 s2 [Htell Hreg];
    [done|].
  cbn [skip_to_loop].
  pose proof (read1_spec s1) as R1. pose proof (read1_spec s2) as R2.
  pose proof (region_eq_length _ _ _ _ Hreg) as Hlen.
  destruct (unread s1) as [|x t1]; destruct (unread s2) as [|y t2];
    try discriminate.
  { by rewrite R1, R2. }
  destruct R1 as (r1 & -> & Ht1 & Hu1 & _).
  destruct R2 as (r2 & -> & Ht2 & Hu2 & _).
  apply region_eq_cons_inv in Hreg as [Hfl Hreg]. rewrite Hfl.
  destruct (flags x literal rem) as [literal' rem']. cbn [fst snd] in Hreg.
  destruct (literal' || rem') eqn:Hsup.
  { apply IH. split; [lia|]. by rewrite Hu1, Hu2. }
  apply orb_false_iff in Hsup as [-> ->].
  destruct Hreg as (<- & Htake & Hdrop).
  destruct (inb x findrange && first).
  { unfold seek_back. simpl. lia. }
  simpl in Hlen. unfold plus in Htake, Hdrop.
  destruct (Ascii.eqb x NUL).
  - destruct (read_spec 2 r1) as (q1 & -> & Hq1 & Hv1).
    destruct (read_spec 2 r2) as (q2 & -> & Hq2 & Hv2).
    rewrite Hu1 in *. rewrite Hu2 in *.
    rewrite (take_2_of_4 _ _ Htake) in *.
    destruct ((length (take 2 t2) <? 2) || is_nul_nul (take 2 t2));
      [lia|].
    destruct (read_spec 2 q1) as (w1 & -> & Hw1 & Hx1).
    destruct (read_spec 2 q2) as (w2 & -> & Hw2 & Hx2).
    apply IH. split.
    + rewrite Hw1, Hw2, Hv1, Hv2, !length_take, !length_drop. lia.
    + rewrite Hx1, Hx2, Hv1, Hv2, !drop_drop. exact Hdrop.
  - destruct (PLUS_BYTES x) as [n|]; simpl in Htake, Hdrop.
    + destruct (read_spec n r1) as (q1 & -> & Hq1 & Hv1).
      destruct (read_spec n r2) as (q2 & -> & Hq2 & Hv2).
      apply IH. split.
      * rewrite Hq1, Hq2, Hu1, Hu2, Htake. lia.
      * by rewrite Hv1, Hv2, Hu1, Hu2.
    + apply IH. split; [lia|]. by rewrite Hu1, Hu2.
Qed.

(** With the line marker in the range and the quote out of it, a scan
    that stops at the first match stops outside strings and comments:
    the bytes from there on are related as from the start of a scan. *)
Lemma skip_to_loop_stop (findrange : list ascii) :
  inb NUL findrange = true -> inb QUOTE findrange = false ->
  forall fuel literal rem s1 s2,
    aligned literal rem s1 s2 ->
    length (unread s1) < fuel ->
    aligned false false
      (skip_to_loop fuel findrange literal rem true s1)
      (skip_to_loop fuel findrange literal rem true s2)
    /\ length (unread (skip_to_loop fuel findrange literal rem true s1))
       <= length (unread s1)
    /\ match unread (skip_to_loop fuel findrange literal rem true s1) with
       | [] => True
       | c :: _ =>
           inb c findrange = true /\ flags c false false = (false, false)
       end.
Proof.
  intros Hnul Hquote.
  induction fuel as [|fuel IH]; intros literal rem s1 s2 [Htell Hreg] Hfuel;
    [lia|].
  cbn [skip_to_loop].
  pose proof (read1_spec s1) as R1. pose proof (read1_spec s2) as R2.
  pose proof (region_eq_length _ _ _ _ Hreg) as Hlen.
  destruct (unread s1) as [|x t1] eqn:Hs1;
    destruct (unread s2) as [|y t2] eqn:Hs2; try discriminate.
  { rewrite R1, R2, Hs1. split; [|done]. split; [done|].
    rewrite Hs1, Hs2. constructor. }
  destruct R1 as (r1 & -> & Ht1 & Hu1 & Hb1).
  destruct R2 as (r2 & -> & Ht2 & Hu2 & Hb2).
  pose proof Hreg as Hreg0.
  apply region_eq_cons_inv in Hreg as [Hfl Hreg]. rewrite Hfl.
  destruct (flags x literal rem) as [literal' rem'] eqn:Hfx.
  cbn [fst snd] in Hreg. simpl in Hfuel, Hlen.
  assert (Hgo : forall lit' rem' q1 q2,
    aligned lit' rem' q1 q2 -> length (unread q1) <= length t1 ->
    aligned false false
      (skip_to_loop fuel findrange lit' rem' true q1)
      (skip_to_loop fuel findrange lit' rem' true q2)
    /\ length (unread (skip_to_loop fuel findrange lit' rem' true q1))
       <= S (length t1)
    /\ match unread (skip_to_loop fuel findrange lit' rem' true q1) with
       | [] => True
       | c :: _ =>
           inb c findrange = true /\ flags c false false = (false, false)
       end).
  { intros lit' rem'' q1 q2 Hq Hle.
    destruct (IH lit' rem'' q1 q2 Hq ltac:(lia)) as (Ha & Hl & Hc).
    split; [done|]. split; [lia|done]. }
  destruct (literal' || rem') eqn:Hsup.
  { apply Hgo; [|rewrite Hu1; lia]. split; [lia|]. by rewrite Hu1, Hu2. }
  apply orb_false_iff in Hsup as [-> ->].
  destruct Hreg as (<- & Htake & Hdrop).
  rewrite andb_true_r.
  destruct (inb x findrange) eqn:Hx.
  { rewrite Hb1, Hb2, Hs1.
    assert (Hxq : Ascii.eqb x QUOTE = false).
    { apply Ascii.eqb_neq. intros ->. congruence. }
    pose proof (flags_outside x literal rem Hfx Hxq) as Hout.
    split; [|split; [simpl; lia|done]].
    split; [done|]. rewrite Hs1, Hs2. by apply region_eq_token. }
  destruct (Ascii.eqb_spec x NUL) as [->|Hxn]; [congruence|].
  unfold plus in Htake, Hdrop.
  rewrite (proj2 (Ascii.eqb_neq x NUL) Hxn) in Htake, Hdrop.
  destruct (PLUS_BYTES x) as [n|]; simpl in Htake, Hdrop.
  - destruct (read_spec n r1) as (q1 & -> & Hq1 & Hv1).
    destruct (read_spec n r2) as (q2 & -> & Hq2 & Hv2).
    apply Hgo.
    + split; [rewrite Hq1, Hq2, Hu1, Hu2, Htake; lia|].
      by rewrite Hv1, Hv2, Hu1, Hu2.
    + rewrite Hv1, Hu1, length_drop. lia.
  - apply Hgo; [|rewrite Hu1; lia]. split; [lia|]. by rewrite Hu1, Hu2.
Qed.

(** *** Tokens of their own *)

Lemma plain_spec (c : ascii) :
  plain c = true ->
  inert c = true /\ flags c false false = (false, false) /\ plus c = 0
  /\ Ascii.eqb c QUOTE = false /\ Ascii.eqb c NUL = false.
Proof.
  unfold plain. intros [Hi Hp]%andb_true_iff.
  apply bool_decide_eq_true in Hp.
  split; [done|]. split; [by apply flags_inert|].
  unfold inert in Hi. apply negb_true_iff in Hi.
  apply orb_false_iff in Hi as [[Hq Hr]%orb_false_iff Hn].
  unfold plus. by rewrite Hn, Hp.
Qed.

Lemma inb_In (c : ascii) (l : list ascii) : inb c l = true <-> In c l.
Proof.
  unfold inb. rewrite existsb_exists. split.
  - intros (x & Hx & ->%Ascii.eqb_eq). done.
  - intros Hc. exists c. split; [done|apply Ascii.eqb_refl].
Qed.

Lemma block_tokens (for_char next_char c : ascii) :
  block_tokens_plain for_char next_char = true ->
  inb c (blanks ++ [":"; ","; THEN; ELSE; for_char; next_char]) = true ->
  plain c = true.
Proof.
  unfold block_tokens_plain. intros [Hall _]%andb_true_iff Hc.
  rewrite forallb_forall in Hall. by apply Hall, inb_In.
Qed.

Lemma aligned_head (s1 s2 : Stream) :
  aligned false false s1 s2 -> head (unread s1) = head (unread s2).
Proof.
  intros [_ Hreg]. pose proof (region_eq_length _ _ _ _ Hreg) as Hlen.
  destruct (unread s1), (unread s2); try discriminate; [done|].
  simpl. f_equal. by apply region_eq_head in Hreg.
Qed.

(** After a token of its own, read in both streams. *)
Lemma aligned_plain (s1 s2 r1 r2 : Stream) (c : ascii) (t1 : list ascii) :
  aligned false false s1 s2 -> unread s1 = c :: t1 -> plain c = true ->
  tell r1 = S (tell s1) -> tell r2 = S (tell s2) ->
  unread r1 = t1 -> unread r2 = drop 1 (unread s2) ->
  aligned false false r1 r2.
Proof.
  intros [Htell Hreg] Hs1 Hc Hr1 Hr2 Hu1 Hu2.
  destruct (plain_spec c Hc) as (_ & Hf & Hp & _).
  rewrite Hs1 in Hreg.
  pose proof (region_eq_length _ _ _ _ Hreg) as Hlen.
  destruct (unread s2) as [|y t2]; [done|].
  apply region_eq_cons_inv in Hreg as [_ Hreg].
  rewrite Hf, Hp in Hreg. simpl in Hreg. destruct Hreg as (_ & _ & Hreg).
  split; [lia|]. by rewrite Hu1, Hu2.
Qed.

Lemma read_one (s : Stream) :
  exists r,
    read 1 s = (take 1 (unread s), r)
    /\ (unread s <> [] -> tell r = S (tell s))
    /\ unread r = drop 1 (unread s).
Proof.
  destruct (read_spec 1 s) as (r & Hr & Ht & Hu). exists r.
  split; [done|]. split; [|done].
  intros Hne. rewrite Ht. destruct (unread s); [done|]. simpl. lia.
Qed.

(** *** Blanks *)

Lemma skip_read_loop_sim :
  (forall c, inb c blanks = true -> plain c = true) ->
  forall l1 l2 p,
    region_eq false false l1 l2 ->
    exists k,
      skip_read_loop blanks l1 p
      = (head (drop k l1), p + k + len1 (head (drop k l1)))
      /\ skip_read_loop blanks l2 p
         = (head (drop k l2), p + k + len1 (head (drop k l2)))
      /\ region_eq false false (drop k l1) (drop k l2)
      /\ k <= length l1.
Proof.
  intros Hblank. induction l1 as [|x t1 IH]; intros l2 p Hreg.
  - apply region_eq_nil_inv in Hreg as Hnil.
    rewrite (proj1 Hnil eq_refl) in *. exists 0. simpl.
    rewrite !Nat.add_0_r. repeat split; auto.
  - pose proof (region_eq_length _ _ _ _ Hreg) as Hlen.
    destruct l2 as [|y t2]; [done|].
    pose proof (region_eq_head _ _ _ _ Hreg) as <-.
    cbn [skip_read_loop]. destruct (inb x blanks) eqn:Hx.
    + destruct (plain_spec x (Hblank x Hx)) as (_ & Hf & Hp & _).
      apply region_eq_cons_inv in Hreg as [_ Hreg].
      rewrite Hf, Hp in Hreg. simpl in Hreg.
      destruct Hreg as (_ & _ & Hreg).
      destruct (IH t2 (S p) Hreg) as (k & H1 & H2 & Hr & Hk).
      exists (S k). simpl drop.
      rewrite H1, H2. replace (S p + k) with (p + S k) by lia.
      repeat split; auto. simpl. lia.
    + exists 0. simpl. rewrite !Nat.add_0_r, !Nat.add_1_r.
      repeat split; auto. lia.
Qed.

Lemma skip_blank_closed (s : Stream) (k : nat) (d : option ascii) :
  skip_read_loop blanks (unread s) (tell s) = (d, tell s + k + len1 d) ->
  skip_blank s = (d, seek (tell s + k) s).
Proof.
  intros Hloop. unfold skip_blank, skip_read1. rewrite Hloop.
  unfold seek_back, seek. simpl. do 2 f_equal. lia.
Qed.

Lemma skip_blank_sim (s1 s2 : Stream) :
  (forall c, inb c blanks = true -> plain c = true) ->
  aligned false false s1 s2 ->
  exists d r1 r2,
    skip_blank s1 = (d, r1) /\ skip_blank s2 = (d, r2)
    /\ aligned false false r1 r2
    /\ head (unread r1) = d
    /\ length (unread r1) <= length (unread s1).
Proof.
  intros Hblank [Htell Hreg].
  destruct (skip_read_loop_sim Hblank _ _ (tell s1) Hreg)
    as (k & H1 & H2 & Hr & Hk).
  assert (Hd : head (drop k (unread s2)) = head (drop k (unread s1))).
  { pose proof (region_eq_length _ _ _ _ Hr) as Hlen.
    destruct (drop k (unread s1)), (drop k (unread s2));
      try discriminate; [done|].
    simpl. f_equal. by apply region_eq_head in Hr. }
  rewrite Hd, Htell in H2.
  exists (head (drop k (unread s1))),
    (seek (tell s1 + k) s1), (seek (tell s2 + k) s2).
  split; [by apply skip_blank_closed|].
  split; [by apply skip_blank_closed|].
  unfold aligned. rewrite !unread_seek. split; [|split; [done|]].
  - split; [simpl; lia|done].
  - rewrite length_drop. lia.
Qed.

(** *** [skip_block] *)

Section Block.
Variables for_char next_char : ascii.
Hypothesis Htokens : block_tokens_plain for_char next_char = true.

Lemma blanks_plain (c : ascii) : inb c blanks = true -> plain c = true.
Proof.
  intros Hc. apply (block_tokens for_char next_char c Htokens).
  unfold inb in *. rewrite existsb_app. by rewrite Hc.
Qed.

Lemma token_plain (c : ascii) :
  inb c [":"; ","; THEN; ELSE; for_char; next_char] = true ->
  plain c = true.
Proof.
  intros Hc. apply (block_tokens for_char next_char c Htokens).
  unfold inb in *. rewrite existsb_app. rewrite Hc. apply orb_true_r.
Qed.

Lemma inb_here (c : ascii) (l : list ascii) : inb c (c :: l) = true.
Proof. unfold inb. simpl. by rewrite Ascii.eqb_refl. Qed.

Lemma inb_one (c x : ascii) : inb c [x] = Ascii.eqb c x.
Proof. unfold inb. simpl. apply orb_false_r. Qed.

Lemma inb_later (c x : ascii) (l : list ascii) :
  inb c l = true -> inb c (x :: l) = true.
Proof. unfold inb. simpl. intros ->. apply orb_true_r. Qed.

Lemma quote_not_plain (c : ascii) :
  plain c = true -> Ascii.eqb QUOTE c = false.
Proof.
  intros Hc. destruct (plain_spec c Hc) as (_ & _ & _ & Hq & _).
  by rewrite Ascii.eqb_sym.
Qed.

(** The scan of [skip_block] and of its inner loop, from the start of
    a scan: it stops at the start of a scan again. *)
Lemma skip_to_stop (findrange : list ascii) (s1 s2 : Stream) :
  inb NUL findrange = true -> inb QUOTE findrange = false ->
  aligned false false s1 s2 ->
  aligned false false (skip_to findrange true s1) (skip_to findrange true s2)
  /\ length (unread (skip_to findrange true s1)) <= length (unread s1)
  /\ match unread (skip_to findrange true s1) with
     | [] => True
     | c :: _ =>
         inb c findrange = true /\ flags c false false = (false, false)
     end.
Proof.
  intros Hnul Hquote Hal. unfold skip_to.
  rewrite <- (region_eq_length _ _ _ _ (proj2 Hal)).
  apply skip_to_loop_stop; [done|done|done|lia].
Qed.

(** One byte read, a token of its own, in both streams. *)
Lemma read_plain (s1 s2 : Stream) (c : ascii) :
  aligned false false s1 s2 -> head (unread s1) = Some c ->
  plain c = true ->
  aligned false false (snd (read 1 s1)) (snd (read 1 s2))
  /\ length (unread (snd (read 1 s1))) < length (unread s1).
Proof.
  intros Hal Hc Hp. pose proof (aligned_head s1 s2 Hal) as Hh.
  destruct (read_one s1) as (r1 & -> & Ht1 & Hu1).
  destruct (read_one s2) as (r2 & -> & Ht2 & Hu2). cbn [snd].
  destruct (unread s1) as [|x t1] eqn:Hs1; [done|].
  injection Hc as ->.
  destruct (unread s2) as [|y t2] eqn:Hs2; [done|].
  split; [|rewrite Hu1, length_drop; simpl; lia].
  apply (aligned_plain s1 s2 r1 r2 c t1); auto.
  by rewrite Hs2.
Qed.

Lemma skip_block_commas_sim :
  forall fuel stack s1 s2,
    aligned false false s1 s2 ->
    exists stack' r1 r2 returned,
      skip_block_commas fuel stack s1 = (stack', r1, returned)
      /\ skip_block_commas fuel stack s2 = (stack', r2, returned)
      /\ aligned false false r1 r2.
Proof.
  induction fuel as [|fuel IH]; intros stack s1 s2 Hal.
  { by exists stack, s1, s2, false. }
  cbn [skip_block_commas].
  destruct (skip_blank_sim s1 s2 blanks_plain Hal)
    as (d & r1 & r2 & -> & -> & Hr & _ & _).
  destruct (END_STATEMENT d); [by exists stack, r1, r2, false|].
  destruct (skip_to_stop (END_STATEMENT_chars ++ [","]) r1 r2)
    as (Hq & _ & _); [done|done|done|].
  rewrite !peek1_head. rewrite <- (aligned_head _ _ Hq).
  destruct (opt_inb (head (unread (skip_to (END_STATEMENT_chars ++ [","])
                                     true r1))) [","]) eqn:Hcomma.
  - destruct (0 <? stack); [|by eexists _, _, _, true].
    destruct (head (unread (skip_to _ true r1))) as [c|] eqn:Hc; [|done].
    assert (c = ",") as ->.
    { simpl in Hcomma. unfold inb in Hcomma. simpl in Hcomma.
      rewrite orb_false_r in Hcomma. by apply Ascii.eqb_eq. }
    destruct (read_plain _ _ "," Hq Hc) as [Hv _].
    { apply token_plain. apply inb_later, inb_here. }
    destruct (read 1 (skip_to _ true r1)) as [? v1].
    destruct (read 1 (skip_to _ true r2)) as [? v2].
    by apply IH.
  - by apply IH.
Qed.

Lemma skip_block_loop_tell (allow_comma : bool) :
  forall fuel stack s1 s2,
    aligned false false s1 s2 ->
    tell (skip_block_loop fuel for_char next_char allow_comma stack s1)
    = tell (skip_block_loop fuel for_char next_char allow_comma stack s2).
Proof.
  induction fuel as [|fuel IH]; intros stack s1 s2 Hal; [apply Hal|].
  assert (Hfirst : forall u1 u2,
    aligned false false u1 u2 ->
    tell
      (let '(d, s) := skip_blank u1 in
       match d with
       | None => s
       | Some d =>
           if Ascii.eqb d for_char then
             let '(_, s) := read 1 s in
             skip_block_loop fuel for_char next_char allow_comma (S stack) s
           else if Ascii.eqb d next_char then
             if stack <=? 0 then s
             else
               let '(_, s) := read 1 s in
               let stack := stack - 1 in
               if allow_comma then
                 let '(stack, s, returned) :=
                   skip_block_commas (S (length (unread s))) stack s in
                 if returned then s
                 else
                   skip_block_loop fuel for_char next_char allow_comma
                     stack s
               else
                 skip_block_loop fuel for_char next_char allow_comma stack s
           else skip_block_loop fuel for_char next_char allow_comma stack s
       end)
    = tell
      (let '(d, s) := skip_blank u2 in
       match d with
       | None => s
       | Some d =>
           if Ascii.eqb d for_char then
             let '(_, s) := read 1 s in
             skip_block_loop fuel for_char next_char allow_comma (S stack) s
           else if Ascii.eqb d next_char then
             if stack <=? 0 then s
             else
               let '(_, s) := read 1 s in
               let stack := stack - 1 in
               if allow_comma then
                 let '(stack, s, returned) :=
                   skip_block_commas (S (length (unread s))) stack s in
                 if returned then s
                 else
                   skip_block_loop fuel for_char next_char allow_comma
                     stack s
               else
                 skip_block_loop fuel for_char next_char allow_comma stack s
           else skip_block_loop fuel for_char next_char allow_comma stack s
       end)).
  { intros u1 u2 Hu.
    destruct (skip_blank_sim u1 u2 blanks_plain Hu)
      as (d & r1 & r2 & -> & -> & Hr & Hd & _).
    destruct d as [d|]; [|apply Hr].
    destruct (Ascii.eqb_spec d for_char) as [->|_].
    { destruct (read_plain _ _ for_char Hr Hd) as [Hv _].
      { apply token_plain. do 4 apply inb_later. apply inb_here. }
      destruct (read 1 r1) as [? v1]. destruct (read 1 r2) as [? v2].
      by apply IH. }
    destruct (Ascii.eqb_spec d next_char) as [->|_]; [|by apply IH].
    destruct (stack <=? 0); [apply Hr|].
    destruct (read_plain _ _ next_char Hr Hd) as [Hv _].
    { apply token_plain. do 5 apply inb_later. apply inb_here. }
    destruct (read 1 r1) as [? v1]. destruct (read 1 r2) as [? v2].
    cbn [snd] in Hv. cbv zeta.
    destruct allow_comma; [|by apply IH].
    rewrite <- (region_eq_length _ _ _ _ (proj2 Hv)).
    destruct (skip_block_commas_sim (S (length (unread v1))) (stack - 1)
                v1 v2 Hv) as (stack' & w1 & w2 & b & -> & -> & Hw).
    destruct b; [apply Hw|by apply IH]. }
  cbn [skip_block_loop]. unfold skip_to_read.
  destruct (skip_to_stop (END_STATEMENT_chars ++ [THEN; ELSE]) s1 s2)
    as (Hq & _ & Hc); [done| |done|].
  { change (inb QUOTE (END_STATEMENT_chars ++ [THEN; ELSE]))
      with (Ascii.eqb QUOTE NUL
            || (Ascii.eqb QUOTE ":"
                || (Ascii.eqb QUOTE THEN || (Ascii.eqb QUOTE ELSE || false)))).
    rewrite (quote_not_plain THEN), (quote_not_plain ELSE); [done|..];
      apply token_plain.
    - do 3 apply inb_later. apply inb_here.
    - do 2 apply inb_later. apply inb_here. }
  set (q1 := skip_to (END_STATEMENT_chars ++ [THEN; ELSE]) true s1) in *.
  set (q2 := skip_to (END_STATEMENT_chars ++ [THEN; ELSE]) true s2) in *.
  pose proof (read1_spec q1) as R1. pose proof (read1_spec q2) as R2.
  pose proof (aligned_head _ _ Hq) as Hh.
  destruct Hq as [Hqt Hqr].
  destruct (unread q1) as [|c t1] eqn:Hu1;
    destruct (unread q2) as [|c' t2] eqn:Hu2; try discriminate.
  { rewrite R1, R2. cbn [opt_inb]. apply Hfirst. split; [done|].
    rewrite Hu1, Hu2. constructor. }
  injection Hh as <-. destruct Hc as [Hin Hflags].
  destruct R1 as (r1 & -> & Ht1 & Hv1 & _).
  destruct R2 as (r2 & -> & Ht2 & Hv2 & _).
  apply region_eq_cons_inv in Hqr as [_ Hqr]. rewrite Hflags in Hqr.
  cbn [fst snd orb] in Hqr. destruct Hqr as (_ & Htake & Hdrop).
  cbn [opt_inb]. rewrite !inb_one.
  destruct (Ascii.eqb_spec c NUL) as [->|Hcn].
  - change (plus NUL) with 4 in Htake, Hdrop.
    destruct (read_spec 4 r1) as (w1 & -> & Hw1 & Hx1).
    destruct (read_spec 4 r2) as (w2 & -> & Hw2 & Hx2).
    rewrite Hv1, Hv2, Htake in *.
    assert (Hw : aligned false false w1 w2).
    { split; [lia|]. by rewrite Hx1, Hx2. }
    destruct ((length (take 4 t2) <? 2) || is_nul_nul (take 2 (take 4 t2)));
      [apply Hw|by apply Hfirst].
  - assert (Hp : plain c = true).
    { apply token_plain. unfold inb in Hin. simpl in Hin.
      rewrite (proj2 (Ascii.eqb_neq c NUL) Hcn) in Hin. simpl in Hin.
      unfold inb. simpl.
      destruct (Ascii.eqb c ":"); [done|].
      destruct (Ascii.eqb c THEN); [by rewrite !orb_true_r|].
      destruct (Ascii.eqb c ELSE); [by rewrite !orb_true_r|]. done. }
    destruct (plain_spec c Hp) as (_ & _ & Hplus & _).
    rewrite Hplus in Hdrop. simpl in Hdrop.
    apply Hfirst. split; [lia|]. by rewrite Hv1, Hv2.
Qed.

End Block.


End Scanner.

Import GW.

Lemma print_next_region_eq :
  region_eq false false (print_next "A") (print_next FOR).
Proof.
  unfold print_next.
  apply region_eq_token; [reflexivity|reflexivity|]. cbn [plus drop].
  apply (region_eq_flag _ _ _ _ _ true false); [reflexivity|reflexivity|].
  apply region_eq_inside; [reflexivity|reflexivity|reflexivity|].
  apply region_eq_token; [reflexivity|reflexivity|].
  apply region_eq_token; [reflexivity|reflexivity|].
  apply region_eq_token; [reflexivity|reflexivity|].
  apply region_eq_nil.
Defined.



End ScanFacts.

(** ** The cursor: reading, skipping and scanning *)

Module CursorFacts.
Import CodeStream TokenisedStream StreamFacts NumberFacts ScanFacts.

Lemma inb_self (c : ascii) : inb c [c] = true.
Proof. unfold inb. cbn [existsb]. by rewrite Ascii.eqb_refl. Qed.

(** *** Reading without consuming *)

Lemma seek_back_seek (s : Stream) (k : nat) :
  seek_back k (seek (tell s + k) s) = s.
Proof.
  destruct s as [g t]. unfold seek_back, seek. simpl. f_equal. lia.
Qed.

(** X1. [peek] returns the bytes [read] would return, at most [n] of
    them and fewer at the end of the buffer, and leaves the stream as
    it was. *)
Theorem peek_leaves_stream (n : nat) (s : Stream) :
  peek n s = (fst (read n s), s)
  /\ fst (read n s) = take n (unread s)
  /\ (n <= length (unread s) -> length (fst (peek n s)) = n).
Proof.
  unfold peek, read. cbn [fst snd]. split; [|split].
  - by rewrite seek_back_seek.
  - done.
  - intros Hn. rewrite length_take. lia.
Qed.

(** *** Skipping blanks *)

Lemma skip_read_loop_spec (range rest : list ascii) :
  forall p,
    exists k,
      k <= length rest
      /\ Forall (fun c => inb c range = true) (take k rest)
      /\ opt_inb (head (drop k rest)) range = false
      /\ skip_read_loop range rest p
         = (head (drop k rest), p + k + len1 (head (drop k rest))).
Proof.
  induction rest as [|c rest IH]; intros p.
  - exists 0. simpl. repeat split; [lia|constructor|f_equal; lia].
  - cbn [skip_read_loop]. destruct (inb c range) eqn:Hc.
    + destruct (IH (S p)) as (k & Hk & Hall & Hhead & Hloop).
      exists (S k). cbn [take drop length]. rewrite Hloop.
      repeat split; [lia|by constructor|done|f_equal; lia].
    + exists 0. cbn [take drop head len1 length opt_inb].
      repeat split; [lia|constructor|done|f_equal; lia].
Qed.

(** X2. [skip_blank] moves the stream over a run of blanks and no
    further: the bytes passed are blanks, the byte returned is the next
    unread byte (nothing at the end of the buffer) and is no blank, and
    a second call changes nothing. *)
Theorem skip_blank_spec (s : Stream) :
  exists k,
    skip_blank s = (head (drop k (unread s)), seek (tell s + k) s)
    /\ k <= length (unread s)
    /\ Forall (fun c => inb c blanks = true) (take k (unread s))
    /\ opt_inb (head (drop k (unread s))) blanks = false
    /\ skip_blank (seek (tell s + k) s)
       = (head (drop k (unread s)), seek (tell s + k) s).
Proof.
  destruct (skip_read_loop_spec blanks (unread s) (tell s))
    as (k & Hk & Hall & Hhead & Hloop).
  exists k. split; [by apply skip_blank_closed|].
  split; [done|]. split; [done|]. split; [done|].
  pose proof (unread_seek s k) as Hu.
  destruct (drop k (unread s)) as [|c rest] eqn:Hd.
  - by apply skip_blank_end.
  - by apply skip_blank_at with rest.
Qed.

(** *** [read_to] *)

Lemma read_to_loop_spec (findrange : option ascii -> bool)
    (rest : list ascii) :
  forall out p,
    exists w tl,
      rest = w ++ tl
      /\ Forall (fun c => findrange (Some c) = false) w
      /\ match tl with
         | [] => True
         | c :: _ => findrange (Some c) = true
         end
      /\ read_to_loop findrange rest out p = (out ++ w, p + length w).
Proof.
  induction rest as [|c rest IH]; intros out p.
  - exists [], []. simpl. rewrite app_nil_r.
    repeat split; [constructor|f_equal; lia].
  - cbn [read_to_loop]. destruct (findrange (Some c)) eqn:Hc.
    + exists [], (c :: rest). simpl. rewrite app_nil_r.
      repeat split; [constructor|done|f_equal; lia].
    + destruct (IH (out ++ [c]) (S p)) as (w & tl & -> & Hall & Htl & Hloop).
      exists (c :: w), tl. rewrite Hloop, <- app_assoc. simpl.
      repeat split; [by constructor|done|f_equal; lia].
Qed.

Lemma read_to_loop_prefix (findrange : option ascii -> bool)
    (body rest : list ascii) :
  Forall (fun c => findrange (Some c) = false) body ->
  match rest with
  | [] => True
  | c :: _ => findrange (Some c) = true
  end ->
  forall out p,
    read_to_loop findrange (body ++ rest) out p
    = (out ++ body, p + length body).
Proof.
  intros Hbody Hrest. induction Hbody as [|c body Hc _ IH]; intros out p.
  - simpl. rewrite app_nil_r, Nat.add_0_r.
    destruct rest as [|c rest]; [done|]. cbn [read_to_loop].
    by rewrite Hrest.
  - cbn [app read_to_loop]. rewrite Hc, IH, <- app_assoc. simpl.
    f_equal. lia.
Qed.

(** X3. [read_to] cuts the unread bytes in two: it returns the longest
    run of bytes outside the range, and leaves the stream at the first
    byte of the range, or at the end of the buffer when there is none. *)
Theorem read_to_split (findrange : option ascii -> bool) (s : Stream) :
  exists out tl,
    read_to findrange s = (out, seek (tell s + length out) s)
    /\ unread s = out ++ tl
    /\ unread (snd (read_to findrange s)) = tl
    /\ Forall (fun c => findrange (Some c) = false) out
    /\ match tl with
       | [] => True
       | c :: _ => findrange (Some c) = true
       end.
Proof.
  destruct (read_to_loop_spec findrange (unread s) [] (tell s))
    as (w & tl & Hu & Hall & Htl & Hloop).
  exists w, tl. unfold read_to. rewrite Hloop. cbn [fst snd app].
  split; [done|]. split; [done|]. split; [|done].
  rewrite unread_seek, Hu. by rewrite drop_app_length.
Qed.

(** *** String literals *)

(** X4. A string literal runs from its opening quote to the closing
    quote, which is part of the result and is consumed; a literal that
    the end of the line or of the buffer cuts short is returned without
    a closing quote, and the stream is left at the line marker. *)
Theorem read_string_literal (end_line : option ascii -> bool) (s : Stream)
    (body rest : list ascii) :
  unread s = QUOTE :: body ++ rest ->
  Forall (fun c => c <> QUOTE /\ end_line (Some c) = false) body ->
  match rest with
  | [] =>
      read_string end_line s
      = (QUOTE :: body, seek (tell s + (1 + length body)) s)
  | c :: _ =>
      (c = QUOTE ->
       read_string end_line s
       = (QUOTE :: body ++ [QUOTE], seek (tell s + (2 + length body)) s))
      /\ (c <> QUOTE -> end_line (Some c) = true ->
          read_string end_line s
          = (QUOTE :: body, seek (tell s + (1 + length body)) s))
  end.
Proof.
  intros Hu Hbody.
  set (f := fun d => opt_inb d [QUOTE] || end_line d).
  assert (Hf : Forall (fun c => f (Some c) = false) body).
  { eapply Forall_impl; [exact Hbody|]. intros c [Hq He]. unfold f.
    rewrite He, orb_false_r. cbn [opt_inb]. rewrite inb_one.
    by apply Ascii.eqb_neq. }
  assert (Hread : read1 s = (Some QUOTE, seek (S (tell s)) s)).
  { unfold read1. by rewrite Hu. }
  assert (Hs1 : unread (seek (S (tell s)) s) = body ++ rest).
  { by apply unread_cons with QUOTE. }
  assert (Hto : (match rest with [] => True | c :: _ => f (Some c) = true end) ->
    read_to f (seek (S (tell s)) s)
    = (body, seek (tell s + (1 + length body)) s)).
  { intros Hrest. unfold read_to. rewrite Hs1.
    rewrite (read_to_loop_prefix f body rest Hf Hrest). cbn [app tell seek].
    rewrite seek_seek. do 2 f_equal. lia. }
  assert (Hs2 : unread (seek (tell s + (1 + length body)) s) = rest).
  { rewrite unread_seek, Hu.
    change (1 + length body) with (S (length body)). cbn [drop].
    by rewrite drop_app_length. }
  unfold read_string. rewrite Hread. cbn [opt_inb]. rewrite inb_self.
  cbn [negb]. fold f.
  destruct rest as [|c rest].
  - rewrite (Hto I). unfold read1 at 1. rewrite Hs2. cbn [opt_inb len1].
    unfold seek_back. cbn [tell seek]. rewrite Nat.sub_0_r.
    by rewrite seek_seek.
  - split.
    + intros ->. rewrite Hto.
      2:{ unfold f. cbn [opt_inb]. by rewrite inb_self. }
      unfold read1 at 1. rewrite Hs2. cbn [opt_inb].
      rewrite inb_self. cbn [tell seek]. rewrite seek_seek.
      do 2 f_equal. lia.
    + intros Hc He. rewrite Hto.
      2:{ unfold f. by rewrite He, orb_true_r. }
      unfold read1 at 1. rewrite Hs2. cbn [opt_inb]. rewrite inb_one.
      apply Ascii.eqb_neq in Hc. rewrite Hc. cbn [len1].
      unfold seek_back, seek. cbn [tell getvalue].
      do 2 f_equal. lia.
Qed.

Lemma read_string_literal_witness :
  let s := {| getvalue := ["145"; QUOTE; "H"; "I"; QUOTE; ":"]; tell := 1 |} in
  read_string END_LINE s = ([QUOTE; "H"; "I"; QUOTE], seek 5 s).
Proof.
  intros s.
  pose proof (read_string_literal END_LINE s ["H"; "I"] [QUOTE; ":"]
                eq_refl) as Hlit.
  cbv beta iota in Hlit. apply Hlit; [|done].
  repeat (apply Forall_cons_2; [split; [discriminate|reflexivity]|]).
  apply Forall_nil_2.
Defined.

(** *** [require_read] *)

(** X5. [require_read] passes the blanks as [skip_blank] does. A byte
    of the range is consumed and returned; any other byte, or the end
    of the buffer, is a syntax error, and the stream is left in front of
    the byte that was refused, the blanks before it consumed. *)
Theorem require_read_after_blanks `{ErrorNumbers} (in_range : list ascii)
    (s : Stream) :
  require_read in_range s
  = match skip_blank s with
    | (Some c, s1) =>
        if inb c in_range then (Ok c, seek (S (tell s1)) s1)
        else (Raise {| err := STX; pos := None |}, s1)
    | (None, s1) => (Raise {| err := STX; pos := None |}, s1)
    end.
Proof.
  destruct (skip_read_loop_spec blanks (unread s) (tell s))
    as (k & Hk & Hall & Hhead & Hloop).
  rewrite (skip_blank_closed s k _ Hloop).
  unfold require_read. rewrite Hloop.
  destruct (head (drop k (unread s))) as [c|]; cbn [len1].
  - destruct (inb c in_range).
    + cbn [tell seek]. rewrite seek_seek. do 2 f_equal. lia.
    + unfold seek_back, seek. cbn [tell getvalue]. do 2 f_equal. lia.
  - do 2 f_equal. lia.
Qed.

(** *** Hexadecimal and octal literals *)

Lemma read_hex_loop_run (digs rest : list ascii) :
  Forall (fun c => inb c hexdigits = true) digs ->
  opt_inb (head rest) hexdigits = false ->
  forall word p,
    read_hex_loop (digs ++ rest) word p = (word ++ digs, p + length digs).
Proof.
  intros Hdigs Hrest. induction Hdigs as [|c digs Hc _ IH]; intros word p.
  - cbn [app length]. rewrite app_nil_r, Nat.add_0_r.
    destruct rest as [|c rest]; [done|]. cbn [read_hex_loop].
    cbn [head opt_inb] in Hrest. by rewrite Hrest.
  - cbn [app read_hex_loop]. rewrite Hc, IH, <- app_assoc.
    cbn [app length]. f_equal. lia.
Qed.

(** X6. A hexadecimal literal is [&], an [H] of either case and the
    run of hexadecimal digits that follows: the token has the prefix
    written [&H], the digits as they stand, and the stream is left at
    the first byte that is no hexadecimal digit, a blank included. *)
Theorem read_number_hex (s : Stream) (h : ascii) (digs rest : list ascii) :
  unread s = "&" :: h :: digs ++ rest ->
  upper h = "H" ->
  Forall (fun c => inb c hexdigits = true) digs ->
  opt_inb (head rest) hexdigits = false ->
  read_number s
  = (Some ("&" :: "H" :: digs), seek (tell s + (2 + length digs)) s).
Proof.
  intros Hu Hh Hdigs Hrest.
  assert (Hs1 : unread (seek (tell s + 1) s) = h :: digs ++ rest).
  { rewrite unread_seek, Hu. done. }
  assert (Hs2 : unread (seek (tell s + 2) s) = digs ++ rest).
  { rewrite unread_seek, Hu. done. }
  unfold read_number. rewrite peek1_head, Hu. cbn [head].
  change (Ascii.eqb "&" "&") with true. cbv iota.
  rewrite read_at by (rewrite Hu; cbn [length]; lia).
  rewrite peek1_head, Hs1. cbn [head option_map opt_inb].
  rewrite Hh, inb_self.
  unfold _read_hex.
  rewrite read_at by (rewrite Hs1; cbn [length]; lia).
  cbn [tell seek]. rewrite seek_seek.
  replace (tell s + 1 + 1) with (tell s + 2) by lia.
  rewrite Hs2, (read_hex_loop_run digs rest Hdigs Hrest).
  cbn [app]. rewrite seek_seek. do 2 f_equal. lia.
Qed.

Lemma read_number_hex_witness :
  let s := {| getvalue := ["&"; "h"; "1"; "F"; " "; "2"]; tell := 0 |} in
  read_number s = (Some ["&"; "H"; "1"; "F"], seek 4 s).
Proof.
  intros s.
  apply (read_number_hex s "h" ["1"; "F"] [" "; "2"]);
    [reflexivity|reflexivity| |reflexivity].
  repeat (apply Forall_cons_2; [reflexivity|]). apply Forall_nil_2.
Defined.

Lemma read_oct_loop_spec (rest : list ascii) :
  forall word p,
    exists w tl,
      rest = w ++ tl
      /\ Forall (fun c => inb c (octdigits ++ blanks) = true) w
      /\ opt_inb (head tl) (octdigits ++ blanks) = false
      /\ read_oct_loop rest word p = (word ++ w, p + length w).
Proof.
  induction rest as [|c rest IH]; intros word p.
  - exists [], []. cbn [app length read_oct_loop]. rewrite app_nil_r.
    repeat split; [constructor|f_equal; lia].
  - cbn [read_oct_loop]. destruct (inb c (octdigits ++ blanks)) eqn:Hc.
    + destruct (IH (word ++ [c]) (S p)) as (w & tl & -> & Hall & Htl & Hloop).
      exists (c :: w), tl. rewrite Hloop, <- app_assoc. cbn [app length].
      repeat split; [by constructor|done|f_equal; lia].
    + exists [], (c :: rest). cbn [app length head opt_inb].
      rewrite app_nil_r.
      repeat split; [constructor|done|f_equal; lia].
Qed.

(** X7. In an octal literal the letter after [&] is optional: [&O]
    with the digits and [&] with the same digits give the same token,
    written with the prefix [&O]. The token is the run of octal digits
    and blanks that follows, the blanks kept, a run of blanks at its end
    included. *)
Theorem read_number_oct_optional_letter (s1 s2 : Stream) (o : ascii)
    (w : list ascii) :
  unread s1 = "&" :: o :: w ->
  upper o = "O" ->
  unread s2 = "&" :: w ->
  opt_inb (option_map upper (head w)) ["H"; "O"] = false ->
  exists word tl,
    w = word ++ tl
    /\ Forall (fun c => inb c (octdigits ++ blanks) = true) word
    /\ opt_inb (head tl) (octdigits ++ blanks) = false
    /\ read_number s1
       = (Some ("&" :: "O" :: word), seek (tell s1 + (2 + length word)) s1)
    /\ read_number s2
       = (Some ("&" :: "O" :: word), seek (tell s2 + (1 + length word)) s2).
Proof.
  intros Hu1 Ho Hu2 Hw.
  assert (HwH : opt_inb (option_map upper (head w)) ["H"] = false).
  { destruct (head w) as [c|]; [|done]. cbn [option_map opt_inb] in *.
    unfold inb in *. cbn [existsb] in *.
    by destruct (Ascii.eqb (upper c) "H"). }
  assert (HwO : opt_inb (option_map upper (head w)) ["O"] = false).
  { destruct (head w) as [c|]; [|done]. cbn [option_map opt_inb] in *.
    unfold inb in *. cbn [existsb] in *.
    destruct (Ascii.eqb (upper c) "O"); [|done].
    by rewrite orb_true_r in Hw. }
  destruct (read_oct_loop_spec w [] 0) as (word & tl & Hsplit & Hall & Htl & _).
  assert (Hloop : forall p, read_oct_loop w [] p = (word, p + length word)).
  { intros p.
    destruct (read_oct_loop_spec w [] p) as (w' & tl' & Hs' & Ha' & Ht' & Hl').
    rewrite Hl'. cbn [app].
    assert (w' = word) as ->; [|done].
    clear Hl'. rewrite Hsplit in Hs'. clear Hsplit HwH HwO Hw Hu1 Hu2.
    revert w' Hs' Ha'. induction Hall as [|c word Hc _ IH]; intros w' Hs' Ha'.
    - destruct w' as [|c' w']; [done|]. cbn [app] in Hs'.
      inversion Ha' as [|? ? Hc' _]. subst tl. cbn [head opt_inb] in Htl.
      congruence.
    - destruct w' as [|c' w'].
      + cbn [app] in Hs'. subst tl'. cbn [head opt_inb] in Ht'. congruence.
      + cbn [app] in Hs'. injection Hs' as <- Hs'.
        inversion Ha'. f_equal. by apply IH. }
  exists word, tl. split; [done|]. split; [done|]. split; [done|].
  assert (Hs11 : unread (seek (tell s1 + 1) s1) = o :: w).
  { by rewrite unread_seek, Hu1. }
  assert (Hs12 : unread (seek (tell s1 + 2) s1) = w).
  { by rewrite unread_seek, Hu1. }
  assert (Hs21 : unread (seek (tell s2 + 1) s2) = w).
  { by rewrite unread_seek, Hu2. }
  split.
  - unfold read_number. rewrite peek1_head, Hu1. cbn [head].
    change (Ascii.eqb "&" "&") with true. cbv iota.
    rewrite read_at by (rewrite Hu1; cbn [length]; lia).
    rewrite peek1_head, Hs11. cbn [head option_map opt_inb].
    rewrite Ho. change (inb "O" ["H"]) with false. cbv iota.
    unfold _read_oct. rewrite peek1_head, Hs11.
    cbn [head option_map opt_inb]. rewrite Ho, inb_self.
    rewrite read_at by (rewrite Hs11; cbn [length]; lia).
    cbn [snd tell seek]. rewrite seek_seek.
    replace (tell s1 + 1 + 1) with (tell s1 + 2) by lia.
    rewrite Hs12, Hloop. rewrite seek_seek. do 2 f_equal. lia.
  - unfold read_number. rewrite peek1_head, Hu2. cbn [head].
    change (Ascii.eqb "&" "&") with true. cbv iota.
    rewrite read_at by (rewrite Hu2; cbn [length]; lia).
    rewrite peek1_head, Hs21. rewrite HwH.
    unfold _read_oct. rewrite peek1_head, Hs21. rewrite HwO.
    cbv beta iota zeta. rewrite Hs21, Hloop. cbn [tell seek]. rewrite seek_seek. do 2 f_equal. lia.
Qed.

Lemma read_number_oct_optional_letter_witness :
  let s1 := {| getvalue := ["&"; "o"; "1"; " "; "7"; " "; "X"]; tell := 0 |} in
  let s2 := {| getvalue := ["&"; "1"; " "; "7"; " "; "X"]; tell := 0 |} in
  exists word tl,
    ["1"; " "; "7"; " "; "X"] = word ++ tl
    /\ Forall (fun c => inb c (octdigits ++ blanks) = true) word
    /\ opt_inb (head tl) (octdigits ++ blanks) = false
    /\ read_number s1
       = (Some ("&" :: "O" :: word), seek (tell s1 + (2 + length word)) s1)
    /\ read_number s2
       = (Some ("&" :: "O" :: word), seek (tell s2 + (1 + length word)) s2).
Proof.
  intros s1 s2.
  apply (read_number_oct_optional_letter s1 s2 "o"
           ["1"; " "; "7"; " "; "X"]); reflexivity.
Defined.

(** *** Decimal literals *)

Lemma count_lstrip (f : ascii -> bool) (chars s : list ascii) :
  length (List.filter f (lstrip chars s)) <= length (List.filter f s).
Proof.
  destruct (lstrip_split chars s) as (pre & Hs & _).
  rewrite Hs at 2. rewrite List.filter_app, length_app. lia.
Qed.

Lemma count_rstrip (f : ascii -> bool) (chars s : list ascii) :
  length (List.filter f (rstrip chars s)) <= length (List.filter f s).
Proof.
  destruct (rstrip_split chars s) as (suf & Hs & _).
  rewrite Hs at 2. rewrite List.filter_app, length_app. lia.
Qed.

Lemma read_dec_loop_counts (rest : list ascii) :
  forall he hp word p word' p' e,
    read_dec_loop rest he hp word p = (word', p', e) ->
    exists w,
      word' = word ++ w
      /\ length (List.filter is_exp w) <= (if he then 0 else 1)
      /\ length (List.filter is_point w) <= (if hp || he then 0 else 1).
Proof.
  induction rest as [|c0 rest IH]; intros he hp word p word' p' e Hloop;
    cbn [read_dec_loop] in Hloop.
  - injection Hloop as <- <- <-. exists []. rewrite app_nil_r.
    cbn [List.filter length]. repeat split; lia.
  - assert (Hstop : (word', p', e) = (word, p, PutBack) ->
      exists w,
        word' = word ++ w
        /\ length (List.filter is_exp w) <= (if he then 0 else 1)
        /\ length (List.filter is_point w) <= (if hp || he then 0 else 1)).
    { intros [= -> -> ->]. exists []. rewrite app_nil_r.
      cbn [List.filter length]. repeat split; lia. }
    assert (Hrec : forall he' hp' (x y : nat),
      read_dec_loop rest he' hp' (word ++ [upper c0]) (S p) = (word', p', e) ->
      (if is_exp (upper c0) then 1 else 0) + (if he' then 0 else 1)
        <= (if he then 0 else 1) ->
      (if is_point (upper c0) then 1 else 0) + (if hp' || he' then 0 else 1)
        <= (if hp || he then 0 else 1) ->
      exists w,
        word' = word ++ w
        /\ length (List.filter is_exp w) <= (if he then 0 else 1)
        /\ length (List.filter is_point w) <= (if hp || he then 0 else 1)).
    { intros he' hp' _ _ Hrun Hexp Hpoint.
      apply IH in Hrun as (w & -> & Hwe & Hwp).
      exists (upper c0 :: w). rewrite <- app_assoc. split; [done|].
      cbn [List.filter].
      destruct (is_exp (upper c0)), (is_point (upper c0));
        cbn [length]; lia. }
    destruct (Ascii.eqb (upper c0) "." && negb hp && negb he) eqn:Hdot.
    { apply andb_true_iff in Hdot as [[Hc Hhp]%andb_true_iff Hhe].
      apply Ascii.eqb_eq in Hc. apply negb_true_iff in Hhp, Hhe.
      subst hp he. apply (Hrec _ _ 0 0 Hloop); rewrite Hc; simpl; lia. }
    destruct (inb (upper c0) ["E"; "D"] && negb he) eqn:Hexp.
    { destruct (Ascii.eqb (upper c0) "E"
                && opt_inb (option_map upper (head rest)) ["L"; "Q"]).
      - apply Hstop. by symmetry.
      - apply andb_true_iff in Hexp as [Hc Hhe].
        apply negb_true_iff in Hhe. subst he.
        apply (Hrec _ _ 0 0 Hloop).
        + unfold is_exp. rewrite Hc. simpl. lia.
        + assert (is_point (upper c0) = false) as ->.
          { unfold is_point. apply inb_In in Hc.
            destruct Hc as [<-|[<-|[]]]; reflexivity. }
          rewrite orb_true_r. destruct hp; simpl; lia. }
    assert (Hne : he = true \/ is_exp (upper c0) = false).
    { apply andb_false_iff in Hexp as [Hc|Hhe]; [by right|].
      left. by apply negb_false_iff. }
    assert (Hnp : hp || he = true \/ is_point (upper c0) = false).
    { apply andb_false_iff in Hdot as [Hd|Hhe].
      - apply andb_false_iff in Hd as [Hc|Hhp]; [by right|].
        left. apply negb_false_iff in Hhp. by rewrite Hhp.
      - left. apply negb_false_iff in Hhe. rewrite Hhe. apply orb_true_r. }
    assert (Hplain : forall he' hp',
      he' = he -> hp' = hp ->
      (is_exp (upper c0) = false /\ is_point (upper c0) = false) ->
      (if is_exp (upper c0) then 1 else 0) + (if he' then 0 else 1)
        <= (if he then 0 else 1)
      /\ (if is_point (upper c0) then 1 else 0)
         + (if hp' || he' then 0 else 1)
         <= (if hp || he then 0 else 1)).
    { intros he' hp' -> -> [-> ->]. split; simpl; lia. }
    destruct (inb (upper c0) ["-"; "+"]
              && match word with
                 | [] => true
                 | _ :: _ => last_in word ["E"; "D"]
                 end) eqn:Hsign.
    { apply andb_true_iff in Hsign as [Hc _]. apply inb_In in Hc.
      destruct (Hplain he hp eq_refl eq_refl) as [H1 H2].
      { destruct Hc as [<-|[<-|[]]]; split; reflexivity. }
      by apply (Hrec _ _ 0 0 Hloop). }
    destruct (inb (upper c0) (digits ++ blanks ++ separators)) eqn:Hdigit.
    { apply inb_In in Hdigit.
      destruct (Hplain he hp eq_refl eq_refl) as [H1 H2].
      { cbn in Hdigit.
        repeat (destruct Hdigit as [<-|Hdigit]; [split; reflexivity|]).
        destruct Hdigit. }
      by apply (Hrec _ _ 0 0 Hloop). }
    destruct (inb (upper c0) ["!"; "#"] && negb he) eqn:Hsuffix.
    { injection Hloop as <- <- <-. exists [upper c0]. split; [done|].
      apply andb_true_iff in Hsuffix as [Hc _]. apply inb_In in Hc.
      assert (is_exp (upper c0) = false /\ is_point (upper c0) = false)
        as [He Hp].
      { destruct Hc as [<-|[<-|[]]]; split; reflexivity. }
      cbn [List.filter]. rewrite He, Hp. cbn [length]. split; lia. }
    destruct (Ascii.eqb (upper c0) "%").
    { injection Hloop as <- <- <-. exists []. rewrite app_nil_r.
      cbn [List.filter length]. repeat split; lia. }
    apply Hstop. by symmetry.
Qed.

(** X8. A decimal token holds at most one exponent marker ([E] or
    [D], a lower-case one turned into upper case) and at most one
    decimal point, whatever the bytes of the buffer are. *)
Theorem read_dec_one_exponent (s : Stream) :
  length (List.filter is_exp (fst (_read_dec s))) <= 1
  /\ length (List.filter is_point (fst (_read_dec s))) <= 1.
Proof.
  destruct (read_dec_loop (unread s) false false [] (tell s))
    as [[word p] e] eqn:Hloop.
  rewrite (read_dec_unfold s word p e Hloop). cbn [fst].
  apply read_dec_loop_counts in Hloop as (w & Hw & Hexp & Hpoint).
  cbn [app orb] in *. subst w. unfold strip.
  split.
  - etransitivity; [apply count_lstrip|].
    etransitivity; [apply count_rstrip|].
    etransitivity; [apply count_rstrip|]. done.
  - etransitivity; [apply count_lstrip|].
    etransitivity; [apply count_rstrip|].
    etransitivity; [apply count_rstrip|]. done.
Qed.

(** *** The stream after a numeric literal *)

Lemma read_hex_loop_forward (rest : list ascii) :
  forall word p, p <= snd (read_hex_loop rest word p).
Proof.
  induction rest as [|c rest IH]; intros word p; cbn [read_hex_loop].
  - done.
  - destruct (inb c hexdigits); [|done].
    etransitivity; [|apply IH]. lia.
Qed.

Lemma read_oct_loop_forward (rest : list ascii) :
  forall word p, p <= snd (read_oct_loop rest word p).
Proof.
  induction rest as [|c rest IH]; intros word p; cbn [read_oct_loop].
  - done.
  - destruct (inb c (octdigits ++ blanks)); [|done].
    etransitivity; [|apply IH]. lia.
Qed.

Lemma read_dec_forward (s : Stream) : tell s <= tell (snd (_read_dec s)).
Proof.
  destruct (read_dec_loop (unread s) false false [] (tell s))
    as [[word p] e] eqn:Hloop.
  rewrite (read_dec_unfold s word p e Hloop). cbn [snd tell seek].
  apply read_dec_loop_spec in Hloop as (w & Hw & _ & _ & Hspec).
  cbn [app] in Hw. subst w.
  pose proof (rstrip_length blanks word) as Hlen.
  assert (tell s + length word <= p); [|lia].
  destruct e; cbn [dec_end_spec] in Hspec.
  - destruct Hspec as [-> _]. lia.
  - destruct Hspec as [-> _]. lia.
  - destruct Hspec as (-> & _). lia.
  - destruct Hspec as [-> _]. lia.
Qed.

(** X9. Reading a numeric literal never moves the stream back and
    changes no byte of the buffer; where the first byte starts no
    literal ([&], a digit, a point or a sign), nothing is returned and
    the stream is left where it was. *)
Theorem read_number_moves_forward (s : Stream) :
  getvalue (snd (read_number s)) = getvalue s
  /\ tell s <= tell (snd (read_number s))
  /\ (opt_inb (head (unread s)) (["&"] ++ digits ++ ["."; "+"; "-"]) = false ->
      head (unread s) <> None ->
      read_number s = (None, s)).
Proof.
  unfold read_number. rewrite peek1_head.
  destruct (head (unread s)) as [c|] eqn:Hhead.
  2:{ split; [done|]. split; [done|]. by intros _ []. }
  destruct (Ascii.eqb_spec c "&") as [->|Hamp].
  - set (s1 := seek (tell s + length (take 1 (unread s))) s).
    assert (Hr : read 1 s = (take 1 (unread s), s1)) by reflexivity.
    rewrite Hr. cbv beta iota zeta. rewrite !peek1_head.
    assert (Hs1 : tell s <= tell s1) by (cbn [s1 tell seek]; lia).
    split; [|split; [|by intros [=]]].
    + destruct (opt_inb (option_map upper (head (unread s1))) ["H"]).
      * unfold _read_hex, read. by destruct (read_hex_loop _ _ _).
      * unfold _read_oct. rewrite peek1_head.
        destruct (opt_inb (option_map upper (head (unread s1))) ["O"]);
          by destruct (read_oct_loop _ _ _).
    + destruct (opt_inb (option_map upper (head (unread s1))) ["H"]).
      * unfold _read_hex, read.
        set (s2 := seek (tell s1 + length (take 1 (unread s1))) s1).
        pose proof (read_hex_loop_forward (unread s2) [] (tell s2)) as Hf.
        destruct (read_hex_loop _ _ _) as [word p].
        subst s2. cbn [snd tell seek] in *. lia.
      * unfold _read_oct. rewrite peek1_head.
        set (s2 := if opt_inb (option_map upper (head (unread s1))) ["O"]
                   then snd (read 1 s1) else s1).
        assert (Hs2 : tell s1 <= tell s2).
        { unfold s2. destruct (opt_inb _ ["O"]); [|done].
          cbn [read snd tell seek]. lia. }
        pose proof (read_oct_loop_forward (unread s2) [] (tell s2)) as Hf.
        destruct (read_oct_loop _ _ _) as [word p].
        cbn [snd tell seek] in *. lia.
  - destruct (inb c (digits ++ ["."; "+"; "-"])) eqn:Hd.
    + pose proof (read_dec_forward s) as Hf.
      destruct (_read_dec s) as [w s'] eqn:Hdec. cbn [snd] in *.
      split; [|split; [done|]].
      * revert Hdec. unfold _read_dec.
        destruct (read_dec_loop _ _ _ _ _) as [[word p] e].
        by intros [= _ <-].
      * cbn [opt_inb app]. unfold inb at 1. cbn [existsb].
        apply Ascii.eqb_neq in Hamp. rewrite Hamp. cbn [orb].
        fold (inb c (digits ++ ["."; "+"; "-"])). by rewrite Hd.
    + split; [done|]. split; [done|]. done.
Qed.

Section Scanner.
Context `{Tokens}.

(** *** Names *)

Lemma upper_upper (c : ascii) : upper (upper c) = upper c.
Proof. destruct c as [[] [] [] [] [] [] [] []]; reflexivity. Qed.

Lemma read_name_loop_forward (rest : list ascii) :
  forall d name p name' d' p',
    read_name_loop d rest name p = (name', d', p') -> p <= p'.
Proof.
  induction rest as [|c rest IH]; intros d name p name' d' p' Hloop;
    cbn [read_name_loop] in Hloop.
  - destruct (opt_inb d NAME_CHARS); injection Hloop as <- <- <-; lia.
  - destruct (opt_inb d NAME_CHARS).
    + apply IH in Hloop. lia.
    + injection Hloop as <- <- <-. lia.
Qed.

(** X10. A name, as [read_name] returns it, has at most 41 bytes (40
    and a sigil) and no lower-case letter; the buffer is not changed
    and the stream never moves back. When the first byte after the
    blanks is no letter the name is empty, and the stream is left in
    front of that byte, the blanks consumed. *)
Theorem read_name_shape (s : Stream) :
  length (fst (read_name s)) <= 41
  /\ Forall (fun c => upper c = c) (fst (read_name s))
  /\ getvalue (snd (read_name s)) = getvalue s
  /\ tell s <= tell (snd (read_name s))
  /\ (opt_inb (fst (skip_blank s)) ascii_letters = false ->
      read_name s = ([], snd (skip_blank s))).
Proof.
  destruct (skip_read_loop_spec blanks (unread s) (tell s))
    as (k & Hk & Hall & Hhead & Hskip).
  unfold read_name, skip_blank, skip_blank_read, skip_read1.
  rewrite Hskip. set (d := head (drop k (unread s))).
  destruct (opt_inb d ascii_letters) eqn:Hd; cbn [negb fst snd].
  2:{ split; [cbn [length]; lia|]. split; [apply Forall_nil_2|].
      split; [done|]. split; [|done].
      unfold seek_back. cbn [tell seek]. lia. }
  destruct d as [c|]; [|discriminate]. cbn [len1] in *.
  destruct (read_name_loop (Some c)
              (unread (seek (tell s + k + 1) s)) []
              (tell (seek (tell s + k + 1) s)))
    as [[name d'] p'] eqn:Hloop.
  apply read_name_loop_forward in Hloop. cbn [tell seek] in Hloop.
  assert (Hupper : forall l : list ascii,
            Forall (fun c => upper c = c) (map upper l)).
  { intros l. apply Forall_forall. intros x Hx.
    apply list_elem_of_fmap in Hx as (y & -> & _). apply upper_upper. }
  assert (Hlen : length (take 40 name) <= 40).
  { rewrite length_take. lia. }
  destruct (opt_inb d' SIGILS); cbn [fst snd].
  - split; [|split; [apply Hupper|split; [done|split; [|congruence]]]].
    + rewrite length_map, length_app. destruct d'; cbn [str1 length]; lia.
    + cbn [tell seek]. lia.
  - split; [|split; [apply Hupper|split; [done|split; [|congruence]]]].
    + rewrite length_map. lia.
    + unfold seek_back. cbn [tell seek]. destruct d'; cbn [len1]; lia.
Qed.

(** *** [skip_to] *)

Lemma region_eq_same (n : nat) :
  forall l literal rem,
    length l <= n -> region_eq literal rem l l.
Proof.
  induction n as [|n IH]; intros l literal rem Hn.
  - destruct l; [constructor|simpl in Hn; lia].
  - destruct l as [|c l]; [constructor|]. cbn [length] in Hn.
    destruct (flags c literal rem) as [literal' rem'] eqn:Hflags.
    destruct (literal' || rem') eqn:Hin.
    + apply region_eq_flag with literal' rem'; [done|done|].
      apply IH. lia.
    + apply orb_false_iff in Hin as [-> ->].
      apply region_eq_token; [done|done|].
      apply IH. rewrite length_drop. lia.
Qed.

Lemma aligned_same (s : Stream) : aligned false false s s.
Proof. split; [done|]. by apply region_eq_same with (length (unread s)). Qed.

Lemma getvalue_read1 (s : Stream) : getvalue (snd (read1 s)) = getvalue s.
Proof. unfold read1. by destruct (unread s). Qed.

Lemma getvalue_read (n : nat) (s : Stream) :
  getvalue (snd (read n s)) = getvalue s.
Proof. reflexivity. Qed.

Lemma skip_to_loop_getvalue (findrange : list ascii) :
  forall fuel literal rem first s,
    getvalue (skip_to_loop fuel findrange literal rem first s) = getvalue s.
Proof.
  induction fuel as [|fuel IH]; intros literal rem first s; [done|].
  cbn [skip_to_loop].
  pose proof (getvalue_read1 s) as H1.
  destruct (read1 s) as [[c|] s1]; cbn [snd] in H1; [|done].
  destruct (flags c literal rem) as [literal' rem'].
  destruct (literal' || rem'); [by rewrite IH|].
  destruct (inb c findrange && first); [done|].
  destruct (Ascii.eqb c NUL).
  - pose proof (getvalue_read 2 s1) as H2.
    destruct (read 2 s1) as [off s2]. cbn [snd] in H2.
    destruct ((length off <? 2) || is_nul_nul off); [congruence|].
    pose proof (getvalue_read 2 s2) as H3.
    destruct (read 2 s2) as [off' s3]. cbn [snd] in H3.
    rewrite IH. congruence.
  - destruct (PLUS_BYTES c) as [n|]; [|by rewrite IH].
    pose proof (getvalue_read n s1) as H2.
    destruct (read n s1) as [off s2]. cbn [snd] in H2.
    rewrite IH. congruence.
Qed.

Lemma getvalue_skip_to (findrange : list ascii) (first : bool) (s : Stream) :
  getvalue (skip_to findrange first s) = getvalue s.
Proof. apply skip_to_loop_getvalue. Qed.

Lemma getvalue_skip_blank (s : Stream) :
  getvalue (snd (skip_blank s)) = getvalue s.
Proof.
  unfold skip_blank, skip_read1. by destruct (skip_read_loop _ _ _).
Qed.

Lemma getvalue_read_name (s : Stream) :
  getvalue (snd (read_name s)) = getvalue s.
Proof.
  unfold read_name, skip_blank_read, skip_read1.
  destruct (skip_read_loop _ _ _) as [d p].
  destruct (negb (opt_inb d ascii_letters)); [done|].
  destruct (read_name_loop _ _ _ _) as [[name d'] p'].
  by destruct (opt_inb d' SIGILS).
Qed.

Lemma skip_block_commas_getvalue :
  forall fuel stack s,
    getvalue (snd (fst (skip_block_commas fuel stack s))) = getvalue s.
Proof.
  induction fuel as [|fuel IH]; intros stack s; [done|].
  cbn [skip_block_commas].
  pose proof (getvalue_skip_blank s) as H1.
  destruct (skip_blank s) as [d s1]. cbn [snd] in H1.
  destruct (END_STATEMENT d); [done|].
  rewrite peek1_head.
  pose proof (getvalue_skip_to (END_STATEMENT_chars ++ [","]) true s1) as H2.
  destruct (opt_inb (head (unread (skip_to _ true s1))) [","]).
  - destruct (0 <? stack); [|cbn [fst snd]; congruence].
    pose proof (getvalue_read 1 (skip_to (END_STATEMENT_chars ++ [","])
                                   true s1)) as H3.
    destruct (read 1 _) as [x s3]. cbn [snd] in H3.
    rewrite IH. congruence.
  - rewrite IH. congruence.
Qed.

Lemma skip_block_loop_getvalue (for_char next_char : ascii)
    (allow_comma : bool) :
  forall fuel stack s,
    getvalue (skip_block_loop fuel for_char next_char allow_comma stack s)
    = getvalue s.
Proof.
  induction fuel as [|fuel IH]; intros stack s; [done|].
  cbn [skip_block_loop]. unfold skip_to_read.
  pose proof (getvalue_skip_to (END_STATEMENT_chars ++ [THEN; ELSE]) true s)
    as H1.
  pose proof (getvalue_read1 (skip_to (END_STATEMENT_chars ++ [THEN; ELSE])
                                true s)) as H2.
  destruct (read1 _) as [c s1]. cbn [snd] in H2.
  assert (H3 : forall b s2,
    (if opt_inb c [NUL]
     then let '(trail, s) := read 4 s1 in
          ((length trail <? 2) || is_nul_nul (take 2 trail), s)
     else (false, s1)) = (b, s2) -> getvalue s2 = getvalue s).
  { intros b s2. destruct (opt_inb c [NUL]).
    - unfold read. intros [= _ <-]. cbn [getvalue seek]. congruence.
    - intros [= _ <-]. congruence. }
  destruct (if opt_inb c [NUL] then _ else _) as [at_end s2] eqn:Hend.
  specialize (H3 _ _ eq_refl).
  destruct at_end; [done|].
  pose proof (getvalue_skip_blank s2) as H4.
  destruct (skip_blank s2) as [[d|] s3]; cbn [snd] in H4; [|congruence].
  destruct (Ascii.eqb d for_char).
  { pose proof (getvalue_read 1 s3) as H5.
    destruct (read 1 s3) as [x s4]. cbn [snd] in H5.
    rewrite IH. congruence. }
  destruct (Ascii.eqb d next_char); [|rewrite IH; congruence].
  destruct (stack <=? 0); [congruence|].
  pose proof (getvalue_read 1 s3) as H5.
  destruct (read 1 s3) as [x s4]. cbn [snd] in H5.
  destruct allow_comma; [|rewrite IH; congruence].
  pose proof (skip_block_commas_getvalue (S (length (unread s4)))
                (stack - 1) s4) as H6.
  destruct (skip_block_commas _ _ s4) as [[stack' s5] returned].
  cbn [fst snd] in H6.
  destruct returned; [congruence|]. rewrite IH. congruence.
Qed.

Lemma getvalue_skip_block (for_char next_char : ascii) (allow_comma : bool)
    (s : Stream) :
  getvalue (skip_block for_char next_char allow_comma s) = getvalue s.
Proof. apply skip_block_loop_getvalue. Qed.

(** A scan over bytes that are tokens of their own and not of the
    range goes from one to the next. *)
Lemma plain_plus_none (c : ascii) : plain c = true -> PLUS_BYTES c = None.
Proof.
  unfold plain. intros [_ Hp]%andb_true_iff.
  by apply bool_decide_eq_true in Hp.
Qed.

Lemma skip_to_loop_run (findrange : list ascii) (body : list ascii) :
  Forall (fun c => plain c = true /\ inb c findrange = false) body ->
  forall k s rest,
    unread s = body ++ rest ->
    skip_to_loop (length body + k) findrange false false true s
    = skip_to_loop k findrange false false true
        (seek (tell s + length body) s).
Proof.
  induction 1 as [|c body [Hplain Hout] _ IH]; intros k s rest Hu.
  - cbn [length]. by rewrite Nat.add_0_r, seek_tell.
  - cbn [length Nat.add skip_to_loop]. unfold read1. rewrite Hu.
    cbn [app]. destruct (plain_spec c Hplain) as (_ & -> & _ & _ & ->).
    cbn [orb]. rewrite Hout. cbn [andb].
    rewrite (plain_plus_none c Hplain).
    rewrite (IH k (seek (S (tell s)) s) rest).
    + cbn [tell seek]. rewrite seek_seek. f_equal. f_equal. lia.
    + by apply unread_cons with c.
Qed.

Lemma skip_to_loop_statement (findrange : list ascii)
    (body rest : list ascii) (k : nat) (s : Stream) :
  Forall (fun c => plain c = true /\ inb c findrange = false) body ->
  unread s = body ++ rest ->
  match rest with
  | [] => True
  | x :: _ => inb x findrange = true /\ flags x false false = (false, false)
  end ->
  length rest <= k ->
  skip_to_loop (length body + k) findrange false false true s
  = seek (tell s + length body) s.
Proof.
  intros Hbody Hu Hrest Hk.
  rewrite (skip_to_loop_run findrange body Hbody k s rest Hu).
  assert (Hs : unread (seek (tell s + length body) s) = rest).
  { rewrite unread_seek, Hu. by rewrite drop_app_length. }
  destruct k as [|k]; [done|].
  cbn [skip_to_loop]. unfold read1. rewrite Hs.
  destruct rest as [|x rest]; [done|]. destruct Hrest as [Hx ->].
  cbn [orb]. rewrite Hx. cbn [andb].
  unfold seek_back, seek. cbn [tell getvalue]. f_equal. lia.
Qed.

(** The scan RESUME NEXT makes from the start of a statement, which
    is the colon or the line record in front of it. *)
Lemma skip_to_next_statement (lead body rest : list ascii) (s : Stream) :
  plain ":" = true ->
  REM <> NUL ->
  unread s = lead ++ body ++ rest ->
  (lead = [":"]
   \/ exists a b c d,
        lead = [NUL; a; b; c; d] /\ is_nul_nul [a; b] = false) ->
  Forall (fun c => plain c = true /\ c <> ":") body ->
  END_STATEMENT (head rest) = true ->
  skip_to END_STATEMENT_chars false s
  = seek (tell s + length lead + length body) s.
Proof.
  intros Hcolon Hrem Hu Hlead Hbody Hend.
  destruct (plain_spec ":" Hcolon) as (_ & Hfc & _ & _ & Hcn).
  assert (Hfn : flags NUL false false = (false, false)).
  { unfold flags. change (Ascii.eqb NUL QUOTE) with false. cbv iota.
    assert (Ascii.eqb NUL REM = false) as ->
      by (apply Ascii.eqb_neq; congruence).
    by rewrite Ascii.eqb_refl. }
  assert (Hbody' : Forall (fun c => plain c = true
                           /\ inb c END_STATEMENT_chars = false) body).
  { eapply Forall_impl; [exact Hbody|]. intros c [Hp Hc]. split; [done|].
    destruct (plain_spec c Hp) as (_ & _ & _ & _ & Hn).
    unfold END_STATEMENT_chars, inb. cbn [existsb]. rewrite Hn.
    apply Ascii.eqb_neq in Hc. by rewrite Hc. }
  assert (Hrest : match rest with
                  | [] => True
                  | x :: _ =>
                      inb x END_STATEMENT_chars = true
                      /\ flags x false false = (false, false)
                  end).
  { destruct rest as [|x rest]; [done|]. cbn [head END_STATEMENT] in Hend.
    apply orb_true_iff in Hend as [Hx|Hx]; apply Ascii.eqb_eq in Hx;
      subst x; by split. }
  unfold skip_to. rewrite Hu.
  destruct Hlead as [->|(a & b & c & d & -> & Hoff)].
  - cbn [app length].
    remember (S (length (body ++ rest))) as fuel eqn:Hfuel.
    cbn [skip_to_loop]. unfold read1. rewrite Hu. cbn [app].
    rewrite Hfc. cbn [orb]. rewrite andb_false_r, Hcn.
    rewrite (plain_plus_none ":" Hcolon).
    subst fuel. rewrite length_app.
    replace (S (length body + length rest))
      with (length body + S (length rest)) by lia.
    rewrite (skip_to_loop_statement END_STATEMENT_chars body rest
               (S (length rest)) (seek (S (tell s)) s) Hbody');
      [|by apply unread_cons with ":"|done|lia].
    cbn [tell seek]. rewrite seek_seek. f_equal. lia.
  - cbn [app length].
    remember (S (S (S (S (S (length (body ++ rest))))))) as fuel eqn:Hfuel.
    cbn [skip_to_loop]. unfold read1. rewrite Hu. cbn [app].
    rewrite Hfn. cbn [orb]. rewrite andb_false_r, Ascii.eqb_refl.
    assert (Hs1 : unread (seek (S (tell s)) s)
                  = a :: b :: c :: d :: body ++ rest).
    { by apply unread_cons with NUL. }
    rewrite read_at by (rewrite Hs1; cbn [length]; lia).
    rewrite Hs1. cbn [take length]. rewrite Hoff.
    change (2 <? 2) with false. cbn [orb].
    assert (Hs2 : unread (seek (tell (seek (S (tell s)) s) + 2)
                            (seek (S (tell s)) s))
                  = c :: d :: body ++ rest).
    { by rewrite unread_seek, Hs1. }
    rewrite read_at by (rewrite Hs2; cbn [length]; lia).
    cbn [tell seek]. rewrite !seek_seek. subst fuel. rewrite length_app.
    replace (S (S (S (S (S (length body + length rest))))))
      with (length body + (5 + length rest)) by lia.
    rewrite (skip_to_loop_statement END_STATEMENT_chars body rest
               (5 + length rest) (seek (S (tell s) + 2 + 2) s) Hbody');
      [| |done|lia].
    + cbn [tell seek]. rewrite seek_seek. f_equal. lia.
    + replace (S (tell s) + 2 + 2) with (tell s + 5) by lia.
      rewrite unread_seek, Hu. done.
Qed.

(** X11. A scan for a range that holds the line marker and not the
    quote, from outside strings and comments, changes no byte and never
    moves back; it stops at the end of the buffer or in front of a byte
    of the range that is no quote and no comment token, and a second
    scan from there does not move. *)
Theorem skip_to_stops (findrange : list ascii) (s : Stream) :
  inb NUL findrange = true ->
  inb QUOTE findrange = false ->
  getvalue (skip_to findrange true s) = getvalue s
  /\ tell s <= tell (skip_to findrange true s)
  /\ match unread (skip_to findrange true s) with
     | [] => True
     | c :: _ => inb c findrange = true /\ c <> QUOTE /\ c <> REM
     end
  /\ skip_to findrange true (skip_to findrange true s)
     = skip_to findrange true s.
Proof.
  intros Hnul Hquote.
  destruct (skip_to_stop findrange s s Hnul Hquote (aligned_same s))
    as (_ & Hlen & Hstop).
  pose proof (skip_to_loop_getvalue findrange (S (length (unread s)))
                false false true s) as Hg.
  fold (skip_to findrange true s) in Hg.
  set (s' := skip_to findrange true s) in *.
  split; [done|]. split; [|split].
  - unfold unread in Hlen. rewrite Hg, !length_drop in Hlen.
    destruct (decide (tell s < length (getvalue s))) as [Hin|Hout]; [lia|].
    assert (Hu : unread s = []).
    { unfold unread. apply drop_ge. lia. }
    subst s'. unfold skip_to. rewrite Hu. cbn [length skip_to_loop].
    unfold read1. by rewrite Hu.
  - destruct (unread s') as [|c rest]; [done|].
    destruct Hstop as [Hc Hflags]. split; [done|].
    unfold flags in Hflags.
    split; intros ->.
    + rewrite Ascii.eqb_refl in Hflags. discriminate.
    + destruct (Ascii.eqb REM QUOTE); [discriminate|].
      rewrite Ascii.eqb_refl in Hflags. discriminate.
  - unfold skip_to at 1. destruct (unread s') as [|c rest] eqn:Hu.
    + cbn [length skip_to_loop]. unfold read1. by rewrite Hu.
    + destruct Hstop as [Hc Hflags].
      cbn [length skip_to_loop]. unfold read1. rewrite Hu, Hflags.
      cbn [orb]. rewrite Hc. cbn [andb].
      destruct s' as [g t]. unfold seek_back, seek. cbn [tell getvalue].
      f_equal. lia.
Qed.

End Scanner.

Import GW.

Lemma skip_to_stops_witness :
  let s := {| getvalue := print_next ":"; tell := 0 |} in
  getvalue (skip_to END_STATEMENT_chars true s) = getvalue s
  /\ tell s <= tell (skip_to END_STATEMENT_chars true s)
  /\ match unread (skip_to END_STATEMENT_chars true s) with
     | [] => True
     | c :: _ => inb c END_STATEMENT_chars = true /\ c <> QUOTE /\ c <> REM
     end
  /\ skip_to END_STATEMENT_chars true (skip_to END_STATEMENT_chars true s)
     = skip_to END_STATEMENT_chars true s.
Proof.
  intros s. apply (skip_to_stops END_STATEMENT_chars s); reflexivity.
Defined.

End CursorFacts.

(** ** Control flow: jumps, traps, subroutines and loops *)

Module ControlFacts.
Import CodeStream TokenisedStream Interpreter StreamFacts EngineFacts
  JumpFacts ScanFacts CursorFacts.

Section Engine.
Context `{Tokens} `{ErrorNumbers} {V : Type} `{Values V}.
Context (events_reset : Events -> Events).
Context (complete_name : list ascii -> list ascii).

#[local] Abbreviation State := (State (V:=V)).
#[local] Abbreviation ForRecord := (ForRecord (V:=V)).

(** *** Jumps *)

(** X12. GOTO to a line the program does not have raises Undefined
    line number and changes nothing. GOTO to a line it has puts the
    interpreter in run mode with the program stream at the offset of the
    line; the direct line, the stacks and the trap are as before. *)
Theorem goto_line (n : nat) (st : State) :
  match line_numbers st !! n with
  | None => goto_ (Some n) st = (Raise (run_error UNDEFINED_LINE_NUMBER), st)
  | Some p =>
      exists st',
        goto_ (Some n) st = (Ok tt, st')
        /\ run_mode st' = true
        /\ program_code st' = seek p (program_code st)
        /\ direct_line st' = direct_line st
        /\ active (events st') = true
        /\ gosub_stack st' = gosub_stack st
        /\ for_stack st' = for_stack st
        /\ while_stack st' = while_stack st
        /\ on_error st' = on_error st
  end.
Proof.
  unfold goto_, jump, bind, gets. simpl.
  destruct (line_numbers st !! n) as [p|]; [|reflexivity].
  eexists. split; [reflexivity|]. simpl. auto 10.
Qed.

(** X13. RETURN takes the top record off the GOSUB stack before it
    jumps: with an empty stack it raises RETURN without GOSUB and
    changes nothing, and with a line number the program does not have
    it raises Undefined line number with the record already gone. *)
Theorem return_pops_before_jumping (jumpnum : option nat) (st : State) :
  (gosub_stack st = [] ->
   return_ jumpnum st = (Raise (run_error RETURN_WITHOUT_GOSUB), st))
  /\ (forall below frame,
        gosub_stack st = below ++ [frame] ->
        gosub_stack (snd (return_ jumpnum st)) = below
        /\ (forall n,
              jumpnum = Some n -> line_numbers st !! n = None ->
              fst (return_ jumpnum st)
              = Raise (run_error UNDEFINED_LINE_NUMBER))).
Proof.
  split.
  - intros Hstack. unfold return_, bind, gets. simpl. by rewrite Hstack.
  - intros below frame Hstack.
    unfold return_, bind, gets, modify. simpl. rewrite Hstack.
    destruct (pop_snoc below frame) as [-> ->].
    destruct (g_handler frame) as [h|]; simpl.
    + destruct jumpnum as [n|]; simpl.
      * unfold jump, bind, gets. simpl.
        destruct (line_numbers st !! n) as [p|] eqn:Hn; simpl.
        -- split; [reflexivity|]. intros n' [= <-] Hn'. congruence.
        -- split; [reflexivity|]. reflexivity.
      * split; [by destruct (g_runmode frame)|]. intros n' [=].
    + destruct jumpnum as [n|]; simpl.
      * unfold jump, bind, gets. simpl.
        destruct (line_numbers st !! n) as [p|] eqn:Hn; simpl.
        -- split; [reflexivity|]. intros n' [= <-] Hn'. congruence.
        -- split; [reflexivity|]. reflexivity.
      * split; [by destruct (g_runmode frame)|]. intros n' [=].
Qed.

(** *** Error trapping *)

(** The position an error is recorded at. *)
Lemma trap_error_raises (e : RunError) (st : State) :
  (bool_decide (on_error st <> None) && bool_decide (on_error st <> Some 0)
   && negb (error_handle_mode st)) = false ->
  let p := match pos e with
           | Some p => p
           | None =>
               if run_mode st then (Z.of_nat (tell (program_code st)) - 1)%Z
               else (-1)%Z
           end in
  trap_error e st
  = (Raise {| err := err e; pos := Some p |},
     set_direct_line (seek_end (direct_line st))
       (set_events (set_active false (events st))
          (set_run_mode false
             (set_error_handle_mode false
                (set_error_pos p (set_error_num (err e) st)))))).
Proof.
  intros Hcond p. unfold trap_error, bind, gets, modify. simpl.
  destruct e as [n [q|]]; simpl in *; rewrite Hcond; reflexivity.
Qed.

(** X14. An error is not trapped when no trap is set, when the trap is
    line 0, or while a handler runs: [trap_error] records the number
    and the position of the error (the byte before the program position
    in run mode, -1 in direct mode, unless the error brings its own),
    clears the handling flag, stops the program with the direct line at
    its end, and raises the error again; the stacks, the trap and the
    saved context are kept. *)
Theorem trap_error_untrapped (e : RunError) (st : State) :
  on_error st = None \/ on_error st = Some 0 \/ error_handle_mode st = true ->
  let p := match pos e with
           | Some p => p
           | None =>
               if run_mode st then (Z.of_nat (tell (program_code st)) - 1)%Z
               else (-1)%Z
           end in
  exists st',
    trap_error e st = (Raise {| err := err e; pos := Some p |}, st')
    /\ error_num st' = err e
    /\ error_pos st' = p
    /\ run_mode st' = false
    /\ error_handle_mode st' = false
    /\ tell (direct_line st') = length (getvalue (direct_line st))
    /\ program_code st' = program_code st
    /\ gosub_stack st' = gosub_stack st
    /\ for_stack st' = for_stack st
    /\ on_error st' = on_error st
    /\ error_resume st' = error_resume st.
Proof.
  intros Hcase p. eexists. split.
  - apply trap_error_raises.
    destruct Hcase as [-> | [-> | ->]]; [done|done|].
    by rewrite andb_false_r.
  - simpl. auto 12.
Qed.

(** X15. ON ERROR GOTO with a line of the program arms the trap: the
    next error, of whatever number, is not raised but sends the program
    to that line, in handling mode, with the statement it came from
    saved for RESUME. *)
Theorem on_error_goto_arms_trap (line target : nat) (e : RunError)
    (st : State) :
  line <> 0 ->
  line_numbers st !! line = Some target ->
  error_handle_mode st = false ->
  exists st2,
    on_error_goto_ line st = (Ok tt, set_on_error (Some line) st)
    /\ trap_error e (set_on_error (Some line) st) = (Ok tt, st2)
    /\ run_mode st2 = true
    /\ tell (program_code st2) = target
    /\ error_num st2 = err e
    /\ error_handle_mode st2 = true
    /\ error_resume st2 = Some (current_statement st, run_mode st)
    /\ gosub_stack st2 = gosub_stack st
    /\ for_stack st2 = for_stack st.
Proof.
  intros Hline Htarget Hmode. eexists. split.
  { unfold on_error_goto_, bind, gets, modify. simpl.
    rewrite Htarget. rewrite bool_decide_false by done.
    rewrite andb_false_r. simpl.
    destruct (Nat.eqb_spec line 0) as [->|_]; [done|]. reflexivity. }
  unfold trap_error, bind, gets, modify. simpl.
  rewrite Hmode. rewrite bool_decide_true by (intros [=]; lia).
  simpl. unfold jump, bind, gets. simpl. rewrite Htarget. simpl.
  split; [reflexivity|]. simpl. destruct e as [n [q|]]; simpl; auto 10.
Qed.

Lemma trap_off (st : State) :
  (bool_decide (on_error (set_on_error (Some 0) st) <> None)
   && bool_decide (on_error (set_on_error (Some 0) st) <> Some 0)
   && negb (error_handle_mode (set_on_error (Some 0) st))) = false.
Proof.
  apply andb_false_iff. left. apply andb_false_iff. right.
  apply bool_decide_false. simpl. auto.
Qed.

(** X16. ON ERROR GOTO 0 switches the trap off. Outside a handler the
    next error is raised, not trapped; inside a handler the statement
    itself raises the error that is being handled, with its position.
    A line the program does not have is refused with Undefined line
    number, and the trap stays as it was. *)
Theorem on_error_goto_zero (st : State) :
  (error_handle_mode st = false ->
   on_error_goto_ 0 st = (Ok tt, set_on_error (Some 0) st)
   /\ forall e,
        exists p,
          fst (trap_error e (set_on_error (Some 0) st))
          = Raise {| err := err e; pos := Some p |})
  /\ (error_handle_mode st = true ->
      on_error_goto_ 0 st
      = (Raise {| err := error_num st; pos := Some (error_pos st) |},
         set_on_error (Some 0) st))
  /\ (forall line,
        line <> 0 -> line_numbers st !! line = None ->
        on_error_goto_ line st
        = (Raise (run_error UNDEFINED_LINE_NUMBER), st)).
Proof.
  split; [|split].
  - intros Hmode. split.
    + unfold on_error_goto_, bind, gets, modify. simpl. by rewrite Hmode.
    + intros e. eexists. rewrite trap_error_raises; [reflexivity|].
      apply trap_off.
  - intros Hmode. unfold on_error_goto_, bind, gets, modify. simpl.
    by rewrite Hmode.
  - intros line Hline Hnone. unfold on_error_goto_, bind, gets. simpl.
    rewrite Hnone. rewrite bool_decide_true by done.
    destruct (Nat.eqb_spec line 0) as [->|_]; [done|]. reflexivity.
Qed.

(** X17. RESUME with no error pending raises RESUME without error and,
    before that, sets the trap to line 0: whatever line ON ERROR GOTO
    had named, the errors that follow are raised and not trapped. *)
Theorem resume_without_error (where_ : option ResumeArg) (st : State) :
  error_resume st = None ->
  resume_ where_ st
  = (Raise (run_error RESUME_WITHOUT_ERROR), set_on_error (Some 0) st)
  /\ forall e,
       exists p,
         fst (trap_error e (snd (resume_ where_ st)))
         = Raise {| err := err e; pos := Some p |}.
Proof.
  intros Hnone.
  assert (Hres : resume_ where_ st
                 = (Raise (run_error RESUME_WITHOUT_ERROR),
                    set_on_error (Some 0) st)).
  { unfold resume_, bind, gets, modify. simpl. by rewrite Hnone. }
  split; [done|]. intros e. rewrite Hres. eexists.
  rewrite trap_error_raises; [reflexivity|]. apply trap_off.
Qed.

(** *** Subroutines *)

Lemma skip_to_at_end (s : Stream) :
  inb REM END_STATEMENT_chars = false ->
  END_STATEMENT (head (unread s)) = true ->
  skip_to END_STATEMENT_chars true s = s.
Proof.
  intros Hrem Hend. unfold skip_to.
  destruct (unread s) as [|c rest] eqn:Hu.
  - cbn [length skip_to_loop]. unfold read1. by rewrite Hu.
  - cbn [length skip_to_loop]. unfold read1. rewrite Hu.
    assert (Hc : c = NUL \/ c = ":").
    { cbn [head END_STATEMENT] in Hend.
      apply orb_true_iff in Hend as [Hc|Hc]; apply Ascii.eqb_eq in Hc; auto. }
    assert (Hflags : flags c false false = (false, false)).
    { unfold flags.
      assert (Ascii.eqb c QUOTE = false) as ->
        by (destruct Hc as [-> | ->]; reflexivity).
      assert (Ascii.eqb c REM = false) as ->.
      { apply Ascii.eqb_neq. intros ->.
        assert (inb REM END_STATEMENT_chars = true); [|congruence].
        apply inb_In. destruct Hc as [-> | ->]; simpl; auto. }
      by destruct (Ascii.eqb c NUL). }
    rewrite Hflags. cbn [orb].
    assert (inb c END_STATEMENT_chars = true) as ->
      by (destruct Hc as [-> | ->]; reflexivity).
    cbn [andb]. destruct s as [g p]. unfold seek_back, seek.
    cbn [tell getvalue]. f_equal. lia.
Qed.

(** X18. In a running program, a GOSUB at the end of its statement and
    the RETURN of the subroutine bring back the state of the call: the
    same stacks, the program stream at the byte after the GOSUB
    statement, the direct line untouched. *)
Theorem gosub_return_round_trip (line target : nat) (st : State) :
  inb REM END_STATEMENT_chars = false ->
  run_mode st = true ->
  active (events st) = true ->
  line_numbers st !! line = Some target ->
  END_STATEMENT (head (unread (program_code st))) = true ->
  exists st1,
    gosub_ (Some line) st = (Ok tt, st1)
    /\ tell (program_code st1) = target
    /\ gosub_stack st1
       = gosub_stack st ++
         [{| g_pos := tell (program_code st); g_runmode := true;
             g_handler := None |}]
    /\ return_ None st1 = (Ok tt, st).
Proof.
  intros Hrem Hmode Hactive Hline Hend.
  eexists. split.
  { unfold gosub_, jump_sub, jump, bind, gets, stream_tell, on_stream.
    simpl. rewrite Hmode. simpl. rewrite Hline. simpl. reflexivity. }
  split; [reflexivity|]. split; [reflexivity|].
  unfold return_, bind, gets, modify. simpl.
  destruct (pop_snoc (gosub_stack st)
    {| g_pos := tell (program_code st); g_runmode := true;
       g_handler := None |}) as [-> ->].
  simpl. unfold do_stream, on_stream. simpl.
  rewrite seek_seek, seek_tell. rewrite (skip_to_at_end _ Hrem Hend).
  f_equal. destruct st as [rm pc dl ln cs gs fs ws dp eh er oe en ep ev sc].
  simpl in *. subst rm. unfold set_events, set_active. simpl.
  destruct ev as [sa ac hs en']. simpl in *. by subst ac.
Qed.

(** X19. An event that has triggered, is not stopped and has a
    handler sends a running program to the handler as a GOSUB does,
    with the event marked stopped and no longer triggered. While the
    handler runs the event is not taken again, and the RETURN of the
    handler takes the record off the stack and lets the event through
    again. *)
Theorem event_handler_round_trip (i line target : nat) (h : EventHandler)
    (st : State) :
  run_mode st = true ->
  suspend_all (events st) = false ->
  enabled (events st) = [i] ->
  handlers (events st) !! i = Some h ->
  triggered h = true ->
  stopped h = false ->
  gosub h = Some line ->
  line_numbers st !! line = Some target ->
  exists st1 st2,
    handle_basic_events st = (Ok tt, st1)
    /\ tell (program_code st1) = target
    /\ gosub_stack st1
       = gosub_stack st ++
         [{| g_pos := tell (program_code st); g_runmode := true;
             g_handler := Some i |}]
    /\ handlers (events st1) !! i
       = Some {| triggered := false; stopped := true; gosub := Some line |}
    /\ handle_basic_events st1 = (Ok tt, st1)
    /\ return_ None st1 = (Ok tt, st2)
    /\ gosub_stack st2 = gosub_stack st
    /\ handlers (events st2) !! i
       = Some {| triggered := false; stopped := false; gosub := Some line |}
    /\ program_code st2
       = skip_to END_STATEMENT_chars true (program_code st).
Proof.
  intros Hmode Hsusp Henabled Hh Htrig Hstop Hgosub Hline.
  destruct h as [tr sp gs]. simpl in Htrig, Hstop, Hgosub. subst tr sp gs.
  eexists. eexists. split.
  { unfold handle_basic_events, bind, gets. simpl.
    rewrite Hsusp, Hmode, Henabled. simpl.
    unfold bind, gets. simpl. rewrite Hh. simpl.
    unfold jump_sub, jump, bind, gets, stream_tell, on_stream, modify.
    simpl. rewrite Hmode. simpl. rewrite Hline. simpl. reflexivity. }
  split; [reflexivity|]. split; [reflexivity|].
  split.
  { simpl. rewrite list_lookup_alter, decide_True, Hh by done.
    reflexivity. }
  split.
  { unfold handle_basic_events, bind, gets. simpl.
    rewrite Hsusp, Henabled. simpl.
    unfold bind, gets. simpl.
    rewrite list_lookup_alter, decide_True, Hh by done. simpl.
    reflexivity. }
  unfold return_, bind, gets, modify. simpl.
  destruct (pop_snoc (gosub_stack st)
    {| g_pos := tell (program_code st); g_runmode := true;
       g_handler := Some i |}) as [-> ->].
  simpl. split; [reflexivity|]. simpl. split; [reflexivity|].
  split.
  - rewrite list_lookup_alter, decide_True by done.
    rewrite list_lookup_alter, decide_True, Hh by done. reflexivity.
  - by rewrite seek_seek, seek_tell.
Qed.

(** *** Loops *)

(** X20. NEXT never adds to the FOR stack: whatever the outcome, the
    stack it leaves is the stack it found cut at some height; the GOSUB
    and WHILE stacks and the run mode are untouched. *)
Theorem iterate_loop_cuts_stack (name : option (list ascii)) (st : State) :
  (exists k,
     for_stack (snd (iterate_loop name st)) = take k (for_stack st))
  /\ gosub_stack (snd (iterate_loop name st)) = gosub_stack st
  /\ while_stack (snd (iterate_loop name st)) = while_stack st
  /\ run_mode (snd (iterate_loop name st)) = run_mode st.
Proof.
  unfold iterate_loop, bind, gets, modify, stream_tell, on_stream, lift,
    do_stream.
  simpl. rewrite put_stream_same.
  destruct (find_record (for_stack st) (tell (stream_of (run_mode st) st))
              (length (for_stack st)) 0) as [[depth r]|]; simpl.
  2:{ split; [|done]. exists (length (for_stack st)).
      by rewrite firstn_all. }
  destruct (iadd (default null (scalars st !! counter_view r)) (f_step r))
    as [counter| |]; simpl.
  2,3: split; [by eexists|done].
  destruct (if (0 <? f_sgn r)%Z then gt counter (f_stop r)
            else gt (f_stop r) counter); simpl.
  - split; [|done]. rewrite take_take. by eexists.
  - unfold on_stream. simpl. destruct (run_mode st) eqn:Hm; simpl;
      (split; [by eexists|auto]).
Qed.

(** *** Computations that only move a stream *)

Lemma stream_of_put_stream (ins : bool) (s : Stream) (st : State) :
  stream_of ins (put_stream ins s st) = s.
Proof. by destruct ins. Qed.

Lemma seek_same_buffer (s s0 : Stream) :
  getvalue s = getvalue s0 -> s = seek (tell s) s0.
Proof. destruct s, s0. simpl. by intros ->. Qed.

Lemma stream_moves_ret {A} (ins : bool) (a : A) :
  stream_moves (V:=V) ins (ret a).
Proof.
  intros st. exists (tell (stream_of ins st)). simpl.
  by rewrite seek_tell, put_stream_same.
Qed.

Lemma stream_moves_raise {A} (ins : bool) (e : RunError) :
  stream_moves (V:=V) ins (raise (A:=A) e).
Proof.
  intros st. exists (tell (stream_of ins st)). simpl.
  by rewrite seek_tell, put_stream_same.
Qed.

Lemma stream_moves_on_stream {A} (ins : bool) (f : Stream -> A * Stream) :
  (forall s, getvalue (snd (f s)) = getvalue s) ->
  stream_moves (V:=V) ins (on_stream ins f).
Proof.
  intros Hf st. unfold on_stream. specialize (Hf (stream_of ins st)).
  destruct (f _) as [a s]. cbn [snd] in *. exists (tell s).
  by rewrite <- seek_same_buffer.
Qed.

Lemma stream_moves_bind {A B} (ins : bool) (m : M (V:=V) A)
    (k : A -> M (V:=V) B) :
  stream_moves (V:=V) ins m -> (forall a, stream_moves (V:=V) ins (k a)) ->
  stream_moves (V:=V) ins (bind m k).
Proof.
  intros Hm Hk st. unfold bind. destruct (Hm st) as [p Hp].
  destruct (m st) as [[a|e|] st1]; simpl in Hp; subst st1.
  - destruct (Hk a (put_stream ins (seek p (stream_of ins st)) st))
      as [p' Hp'].
    exists p'. rewrite Hp', stream_of_put_stream, put_stream_put_stream.
    by rewrite seek_seek.
  - by exists p.
  - by exists p.
Qed.

Lemma stream_moves_parse_name (ins : bool) :
  stream_moves (V:=V) ins (parse_name complete_name ins).
Proof.
  apply stream_moves_bind.
  - apply stream_moves_on_stream, getvalue_read_name.
  - intros [|c name]; [apply stream_moves_raise|apply stream_moves_ret].
Qed.

Lemma stream_moves_find_next (ins : bool) (varname : list ascii) :
  stream_moves (V:=V) ins (_find_next complete_name ins varname).
Proof.
  unfold _find_next, stream_tell, do_stream.
  repeat first
    [ apply stream_moves_parse_name
    | apply stream_moves_ret
    | apply stream_moves_raise
    | apply stream_moves_bind; [|intros ?]
    | match goal with
      | |- stream_moves _ (if ?b then _ else _) => destruct b
      end
    | apply stream_moves_on_stream; intros s; cbn [snd];
      first [ reflexivity
            | apply getvalue_skip_block
            | apply getvalue_skip_blank
            | apply getvalue_read1 ] ].
Qed.

Lemma bind_ok {A B} (m : M (V:=V) A) (k : A -> M (V:=V) B) (st st' : State)
    (b : B) :
  bind m k st = (Ok b, st') ->
  exists a st1, m st = (Ok a, st1) /\ k a st1 = (Ok b, st').
Proof.
  unfold bind. destruct (m st) as [[a|e|] st1]; [|done|done].
  intros Hk. by exists a, st1.
Qed.

Lemma find_next_tell (ins : bool) (varname : list ascii) (st st' : State)
    (f n : nat) :
  _find_next complete_name ins varname st = (Ok (f, n), st') ->
  f = tell (stream_of ins st) /\ tell (stream_of ins st') = f.
Proof.
  unfold _find_next. intros Hrun.
  apply bind_ok in Hrun as (e & st1 & He & Hrun).
  unfold stream_tell, on_stream in He. injection He as <- <-.
  apply bind_ok in Hrun as ([] & st2 & _ & Hrun).
  apply bind_ok in Hrun as (d & st3 & _ & Hrun).
  destruct (negb (opt_inb d [NEXT; ","])).
  { apply bind_ok in Hrun as ([] & st4 & _ & Hrun). discriminate. }
  apply bind_ok in Hrun as (c & st4 & _ & Hrun).
  apply bind_ok in Hrun as (d' & st5 & _ & Hrun).
  apply bind_ok in Hrun as (v2 & st6 & _ & Hrun).
  apply bind_ok in Hrun as (np & st7 & _ & Hrun).
  destruct ((opt_inb c [","] || bool_decide (is_Some v2))
            && bool_decide (v2 <> Some varname)); [discriminate|].
  apply bind_ok in Hrun as ([] & st8 & Hseek & Hrun).
  injection Hrun as <- <- <-.
  unfold do_stream, on_stream in Hseek. injection Hseek as <-.
  by rewrite stream_of_put_stream.
Qed.

Lemma find_next_ok (ins : bool) (varname : list ascii) (st st' : State)
    (f n : nat) :
  _find_next complete_name ins varname st = (Ok (f, n), st') ->
  st' = st /\ f = tell (stream_of ins st).
Proof.
  intros Hrun. destruct (find_next_tell _ _ _ _ _ _ Hrun) as [Hf Htell].
  split; [|done].
  destruct (stream_moves_find_next ins varname st) as [p Hp].
  rewrite Hrun in Hp. cbn [snd] in Hp. subst st'.
  rewrite stream_of_put_stream in Htell. cbn [tell seek] in Htell.
  subst p f. by rewrite seek_tell, put_stream_same.
Qed.

(** X21. The search of FOR for its NEXT is a look ahead: when it finds
    the NEXT, the interpreter is left exactly as it was, and the
    position it reports for the loop body is the position of the
    stream; when it raises, nothing but the position of the stream has
    changed. *)
Theorem find_next_is_lookahead (ins : bool) (varname : list ascii)
    (st : State) :
  (exists p,
     snd (_find_next complete_name ins varname st)
     = put_stream ins (seek p (stream_of ins st)) st)
  /\ (forall f n,
        fst (_find_next complete_name ins varname st) = Ok (f, n) ->
        snd (_find_next complete_name ins varname st) = st
        /\ f = tell (stream_of ins st)).
Proof.
  split; [apply stream_moves_find_next|].
  intros f n Hok.
  destruct (_find_next complete_name ins varname st) as [r st'] eqn:Hrun.
  cbn [fst snd] in *. subst r. by apply find_next_ok in Hrun.
Qed.

(** X22. FOR on a loop that is to run (the start not past the stop)
    sets the counter to the start and pushes one record, with the
    position of the stream as the start of the body; the stream does not
    move, and nothing else changes. *)
Theorem for_enters_loop (varname : list ascii) (vartype : ascii)
    (start0 stop0 : V) (step0 : option V) (start stop step : V)
    (st : State) (fpos npos : nat) :
  last varname = Some vartype ->
  inb vartype [STR; DBL] = false ->
  to_type vartype start0 = Ok start ->
  to_type vartype stop0 = Ok stop ->
  match step0 with
  | Some s => to_type vartype s
  | None => Ok (from_value_1 vartype)
  end = Ok step ->
  fst (_find_next complete_name (run_mode st) varname st)
  = Ok (fpos, npos) ->
  (if (0 <? sign step)%Z then gt start stop else gt stop start) = false ->
  for_ complete_name varname start0 stop0 step0 st
  = (Ok tt,
     set_for_stack
       (for_stack st ++
        [{| counter_view := varname; f_stop := stop; f_step := step;
            f_sgn := sign step; forpos := tell (current_stream st);
            nextpos := npos |}])
       (set_scalars (<[varname := start]> (scalars st)) st)).
Proof.
  intros Hlast Htype Hstart Hstop Hstep Hfind Hruns.
  destruct (_find_next complete_name (run_mode st) varname st)
    as [r st1] eqn:Hrun.
  cbn [fst] in Hfind. subst r.
  destruct (find_next_ok _ _ _ _ _ _ Hrun) as [-> ->].
  unfold for_. rewrite Hlast.
  unfold bind at 1. unfold lift at 1. rewrite Hstart. rewrite Htype.
  unfold bind at 1. unfold lift at 1. rewrite Hstop.
  unfold bind at 1.
  assert (Hs : (match step0 with
                | Some step1 => lift (to_type vartype step1)
                | None => ret (from_value_1 vartype)
                end) st = (Ok step, st)).
  { destruct step0; unfold lift, ret; by rewrite <- Hstep. }
  rewrite Hs.
  unfold bind at 1. unfold get_codestream, gets.
  unfold bind at 1. rewrite Hrun.
  unfold bind, modify. cbn [fst snd]. rewrite Hruns. reflexivity.
Qed.

(** *** Line numbers *)

Lemma skip_read_loop_run (range bl : list ascii) (c : ascii)
    (rest : list ascii) :
  Forall (fun c => inb c range = true) bl ->
  inb c range = false ->
  forall p,
    skip_read_loop range (bl ++ c :: rest) p = (Some c, p + length bl + 1).
Proof.
  intros Hbl Hc. induction Hbl as [|b bl Hb _ IH]; intros p.
  - cbn [app skip_read_loop length]. rewrite Hc. f_equal. lia.
  - cbn [app skip_read_loop length]. rewrite Hb, IH. f_equal. lia.
Qed.

Lemma advance_put (ins : bool) (k : nat) (p : nat) (st : State) :
  p = tell (stream_of ins st) + k ->
  put_stream ins (seek p (stream_of ins st)) st = advance ins k st.
Proof. by intros ->. Qed.

(** X23. A line number pointer is the token of an unsigned integer and
    two bytes, the low byte first, after any blanks: [_parse_jumpnum]
    reads back the number that was encoded and leaves the stream after
    the three bytes. A pointer that the end of the buffer cuts short is
    no BASIC error but a failed assertion; any other byte is a syntax
    error, and the stream is left in front of it. *)
Theorem jumpnum_round_trip (ins : bool) (bl : list ascii) (st : State) :
  uint_apart ->
  Forall (fun c => inb c blanks = true) bl ->
  (forall t rest,
     t < 256 * 256 ->
     unread (stream_of ins st) = bl ++ encode_target t ++ rest ->
     _parse_jumpnum ins st = (Ok t, advance ins (length bl + 3) st))
  /\ (forall cut,
        length cut < 2 ->
        unread (stream_of ins st) = bl ++ T_UINT :: cut ->
        fst (_parse_jumpnum ins st) = Crash)
  /\ (forall c rest,
        c <> T_UINT -> inb c blanks = false ->
        unread (stream_of ins st) = bl ++ c :: rest ->
        _parse_jumpnum ins st
        = (Raise (run_error STX), advance ins (length bl) st)).
Proof.
  intros Hu Hbl. pose proof (uint_apart_blank Hu) as Hub.
  assert (Hreq : forall tail,
    unread (stream_of ins st) = bl ++ T_UINT :: tail ->
    on_stream_res ins (require_read [T_UINT]) st
    = (Ok T_UINT, advance ins (length bl + 1) st)
    /\ unread (stream_of ins (advance ins (length bl + 1) st)) = tail).
  { intros tail Hs. split.
    - unfold on_stream_res, require_read. rewrite Hs.
      rewrite (skip_read_loop_run blanks bl T_UINT tail Hbl Hub).
      rewrite inb_singleton. f_equal. apply advance_put. lia.
    - rewrite unread_advance, Hs, drop_app_ge by lia.
      by replace (length bl + 1 - length bl) with 1 by lia. }
  split; [|split].
  - intros t rest Ht Hs. unfold encode_target in Hs. cbn [app] in Hs.
    destruct (Hreq _ Hs) as [Hr Htail].
    unfold _parse_jumpnum, bind. rewrite Hr.
    unfold on_stream. rewrite read_at by (rewrite Htail; cbn [length]; lia).
    rewrite Htail. cbn [take]. rewrite take_0. unfold lift.
    rewrite (unpack_target t Ht). f_equal.
    rewrite put_stream_seek, advance_advance. f_equal. lia.
  - intros cut Hcut Hs. destruct (Hreq _ Hs) as [Hr Htail].
    unfold _parse_jumpnum, bind. rewrite Hr.
    unfold on_stream, read. rewrite Htail. unfold lift. cbn [fst].
    destruct cut as [|x [|y cut]]; [done|done|cbn [length] in Hcut; lia].
  - intros c rest Hc Hcb Hs.
    unfold _parse_jumpnum, bind, on_stream_res, require_read. rewrite Hs.
    rewrite (skip_read_loop_run blanks bl c rest Hbl Hcb).
    rewrite inb_one. apply Ascii.eqb_neq in Hc. rewrite Hc.
    f_equal. unfold seek_back. cbn [tell seek]. rewrite seek_seek.
    apply advance_put. lia.
Qed.

(** *** RESUME NEXT *)


(** *** WHILE and WEND *)

Section While.
Context (WHILE_WITHOUT_WEND WEND_WITHOUT_WHILE : Z).
Context (parse_expression : bool -> M (V:=V) V).
Context (pass_number : V -> Res V) (is_zero : V -> bool).

#[local] Abbreviation wend_loop := (wend_loop (V:=V) WEND_WITHOUT_WHILE).
#[local] Abbreviation _check_while_condition :=
  (_check_while_condition parse_expression pass_number is_zero).
#[local] Abbreviation wend_ :=
  (wend_ WEND_WITHOUT_WHILE parse_expression pass_number is_zero).

Lemma set_while_stack_same (st : State) :
  set_while_stack (while_stack st) st = st.
Proof. by destruct st. Qed.

Lemma wend_loop_found (pos whilepos : nat) (below : list (nat * nat)) :
  forall above fuel (st : State),
    Forall (fun r => snd r <> pos) above ->
    while_stack st = below ++ (whilepos, pos) :: above ->
    length above < fuel ->
    wend_loop fuel pos st
    = (Ok whilepos, set_while_stack (below ++ [(whilepos, pos)]) st).
Proof.
  induction above as [|r above IH] using rev_ind; intros fuel st Hall Hst Hf.
  - destruct fuel as [|fuel]; [simpl in Hf; lia|].
    cbn [Interpreter.wend_loop]. unfold bind, gets. rewrite Hst.
    rewrite last_snoc, Nat.eqb_refl. unfold ret.
    by rewrite <- Hst, set_while_stack_same.
  - destruct fuel as [|fuel]; [simpl in Hf; lia|].
    rewrite length_app in Hf. cbn [length] in Hf.
    apply Forall_app in Hall as [Hall Hr].
    apply Forall_cons_1 in Hr as [Hr _].
    cbn [Interpreter.wend_loop]. unfold bind, gets, modify.
    change (below ++ (whilepos, pos) :: above ++ [r])
      with (below ++ ((whilepos, pos) :: above) ++ [r]) in Hst.
    rewrite app_assoc in Hst. rewrite Hst.
    destruct (pop_snoc (below ++ (whilepos, pos) :: above) r) as [-> ->].
    destruct r as [w e]. cbn [snd] in Hr.
    destruct (Nat.eqb_spec pos e) as [->|_]; [done|].
    rewrite (IH fuel _ Hall); [done|done|lia].
Qed.

Lemma wend_loop_missing (pos : nat) :
  forall stack fuel (st : State),
    Forall (fun r => snd r <> pos) stack ->
    while_stack st = stack ->
    length stack < fuel ->
    wend_loop fuel pos st
    = (Raise (run_error WEND_WITHOUT_WHILE), set_while_stack [] st).
Proof.
  induction stack as [|r stack IH] using rev_ind; intros fuel st Hall Hst Hf.
  - destruct fuel as [|fuel]; [simpl in Hf; lia|].
    cbn [Interpreter.wend_loop]. unfold bind, gets. rewrite Hst.
    cbn [last]. unfold raise. by rewrite <- Hst, set_while_stack_same.
  - destruct fuel as [|fuel]; [simpl in Hf; lia|].
    rewrite length_app in Hf. cbn [length] in Hf.
    apply Forall_app in Hall as [Hall Hr].
    apply Forall_cons_1 in Hr as [Hr _].
    cbn [Interpreter.wend_loop]. unfold bind, gets, modify. rewrite Hst.
    destruct (pop_snoc stack r) as [-> ->].
    destruct r as [w e]. cbn [snd] in Hr.
    destruct (Nat.eqb_spec pos e) as [->|_]; [done|].
    rewrite (IH fuel _ Hall); [done|done|lia].
Qed.

(** X25. WEND looks for the record of its own loop, the one whose
    position after WEND is the position of the stream, from the top of
    the WHILE stack down, and drops the records above it, which belong
    to loops that were jumped out of; it then tests the condition of
    that loop. When no record is its own it raises WEND without WHILE,
    and the stack is left empty. *)
Theorem wend_pops_to_own_loop (st : State) :
  END_STATEMENT (head (unread (current_stream st))) = true ->
  (Forall (fun r => snd r <> tell (current_stream st)) (while_stack st) ->
   wend_ st
   = (Raise (run_error WEND_WITHOUT_WHILE), set_while_stack [] st))
  /\ (forall below whilepos above,
        while_stack st
        = below ++ (whilepos, tell (current_stream st)) :: above ->
        Forall (fun r => snd r <> tell (current_stream st)) above ->
        wend_ st
        = _check_while_condition (run_mode st) whilepos
            (set_while_stack
               (below ++ [(whilepos, tell (current_stream st))]) st)).
Proof.
  intros Hend. unfold current_stream in *.
  assert (Hstart :
    Interpreter.wend_ WEND_WITHOUT_WHILE parse_expression pass_number
      is_zero st
    = bind (wend_loop (S (length (while_stack st)))
              (tell (stream_of (run_mode st) st)))
        (fun whilepos => _check_while_condition (run_mode st) whilepos) st).
  { unfold Interpreter.wend_, get_codestream.
    unfold bind at 1. unfold gets at 1.
    unfold bind at 1. rewrite (require_end_at _ _ _ Hend eq_refl).
    unfold bind at 1. unfold stream_tell, on_stream.
    rewrite put_stream_same.
    unfold bind at 1. unfold gets at 1. reflexivity. }
  rewrite Hstart. split.
  - intros Hall. unfold bind.
    rewrite (wend_loop_missing _ _ _ st Hall eq_refl); [done|lia].
  - intros below whilepos above Hst Hall. unfold bind.
    rewrite (wend_loop_found _ whilepos below above _ st Hall Hst); [done|].
    rewrite Hst, length_app. cbn [length]. lia.
Qed.

Lemma while_stack_put_stream (ins : bool) (s : Stream) (st : State) :
  while_stack (put_stream ins s st) = while_stack st.
Proof. by destruct ins. Qed.

Lemma wend_loop_shrinks (pos : nat) :
  forall fuel (st : State),
    length (while_stack (snd (wend_loop fuel pos st)))
    <= length (while_stack st).
Proof.
  induction fuel as [|fuel IH]; intros st; [done|].
  cbn [Interpreter.wend_loop]. unfold bind, gets, modify.
  destruct (last (while_stack st)) as [[w e]|]; [|done].
  destruct (pos =? e); [done|].
  etransitivity; [apply IH|]. cbn [while_stack set_while_stack].
  rewrite length_take. lia.
Qed.

Ltac stack_le :=
  cbn [snd while_stack set_while_stack set_current_statement] in *;
  rewrite ?while_stack_put_stream, ?length_take in *;
  repeat match goal with
         | Heq : while_stack _ = while_stack _ |- _ => rewrite Heq in *; clear Heq
         end;
  lia.

(** X26. However often a WEND is reached, the WHILE stack does not
    grow: with an expression parser that leaves the stack alone, the
    stack WEND leaves is never higher than the stack it found, whatever
    the outcome. *)
Theorem wend_never_grows_stack (st : State) :
  (forall ins st0,
     while_stack (snd (parse_expression ins st0)) = while_stack st0) ->
  length (while_stack (snd (wend_ st))) <= length (while_stack st).
Proof.
  intros Hexpr.
  assert (Hcheck : forall ins whilepos (st0 : State),
    length (while_stack (snd (_check_while_condition ins whilepos st0)))
    <= length (while_stack st0)).
  { intros ins whilepos st0. unfold Interpreter._check_while_condition.
    unfold bind at 1. unfold do_stream, on_stream. cbn [fst snd].
    set (st1 := put_stream ins _ st0).
    assert (Hw1 : while_stack st1 = while_stack st0)
      by apply while_stack_put_stream.
    unfold bind at 1. pose proof (Hexpr ins st1) as Hw2.
    destruct (parse_expression ins st1) as [[v|e|] st2]; cbn [snd] in *;
      [|stack_le|stack_le].
    unfold bind at 1. unfold lift.
    destruct (pass_number v) as [n|e|]; cbn [snd]; [|stack_le|stack_le].
    destruct (negb (is_zero n)).
    - unfold bind, modify, on_stream_res. cbn [snd].
      destruct (require_end _) as [r s]. cbn [snd].
      rewrite while_stack_put_stream. cbn [while_stack set_current_statement].
      stack_le.
    - unfold bind, gets, modify.
      destruct (last (while_stack st2)) as [[w e]|]; cbn [snd]; [|unfold lift; cbn [snd]; stack_le].
      rewrite while_stack_put_stream. cbn [while_stack set_while_stack].
      rewrite length_take. stack_le. }
  unfold Interpreter.wend_, get_codestream.
  unfold bind at 1. unfold gets at 1.
  unfold bind at 1. unfold on_stream_res.
  destruct (require_end (stream_of (run_mode st) st)) as [r s].
  set (st1 := put_stream (run_mode st) s st).
  assert (Hw1 : while_stack st1 = while_stack st)
    by apply while_stack_put_stream.
  destruct r as [[]|e|]; cbn [snd]; [|stack_le|stack_le].
  unfold bind at 1. unfold stream_tell, on_stream.
  set (st2 := put_stream (run_mode st) _ st1).
  assert (Hw2 : while_stack st2 = while_stack st1)
    by apply while_stack_put_stream.
  unfold bind at 1. unfold gets at 1.
  unfold bind.
  pose proof (wend_loop_shrinks (tell (stream_of (run_mode st) st1))
                (S (length (while_stack st2))) st2) as Hw3.
  destruct (wend_loop _ _ st2) as [[w|e|] st3]; cbn [snd] in *; [|stack_le|stack_le].
  etransitivity; [apply Hcheck|]. stack_le.
Qed.

Lemma seek_restores (x s : Stream) :
  getvalue x = getvalue s -> seek (tell s) x = s.
Proof. destruct x, s. simpl. by intros ->. Qed.

(** X27. The search of WHILE for its WEND changes nothing: whether it
    finds the WEND or raises WHILE without WEND, the stream is back
    where it was and the state is the one it started from; the position
    it reports for the loop is the position of the stream. *)
Theorem find_wend_is_lookahead (ins : bool) (st : State) :
  snd (_find_wend WHILE_WITHOUT_WEND ins st) = st
  /\ ((exists wendpos,
         fst (_find_wend WHILE_WITHOUT_WEND ins st)
         = Ok (tell (stream_of ins st), wendpos))
      \/ fst (_find_wend WHILE_WITHOUT_WEND ins st)
         = Raise (run_error WHILE_WITHOUT_WEND)).
Proof.
  unfold _find_wend, bind, stream_tell, do_stream, on_stream, raise, ret.
  rewrite !stream_of_put_stream, !put_stream_put_stream.
  pose proof (getvalue_skip_block WHILE WEND false (stream_of ins st)) as Hb.
  pose proof (getvalue_read1 (skip_block WHILE WEND false (stream_of ins st)))
    as Hr.
  destruct (read1 _) as [c s1]. cbn [snd] in Hr.
  destruct (negb (opt_inb c [WEND])).
  - rewrite !stream_of_put_stream, !put_stream_put_stream.
    rewrite seek_restores by congruence.
    rewrite put_stream_same. split; [done|]. by right.
  - rewrite !stream_of_put_stream, !put_stream_put_stream.
    rewrite seek_restores.
    2:{ rewrite getvalue_skip_to. congruence. }
    rewrite put_stream_same. split; [done|]. left. by eexists.
Qed.

End While.

(** *** ERL and ERR *)

(** X28. After an error raised from a direct line, trapped or not,
    ERL is 65535 and ERR is the number of the error. *)
Theorem erl_after_direct_error (get_line_number : Z -> Z) (e : RunError)
    (st : State) :
  run_mode st = false ->
  pos e = None ->
  fst (erl_ get_line_number (snd (trap_error e st))) = Ok 65535%Z
  /\ fst (err_ (snd (trap_error e st))) = Ok (err e).
Proof.
  intros Hmode Hpos. destruct e as [n q]. simpl in Hpos. subst q.
  unfold trap_error, bind, gets, modify. simpl. rewrite Hmode. simpl.
  destruct (bool_decide (on_error st <> None)
            && bool_decide (on_error st <> Some 0)
            && negb (error_handle_mode st)); simpl; [|done].
  unfold jump, bind, gets. simpl.
  destruct (on_error st) as [line|]; simpl; [|done].
  destruct (line_numbers st !! line); simpl; done.
Qed.

(** *** The main loop *)

Section Parse.
Context (parse_statement : bool -> M (V:=V) unit).

#[local] Abbreviation parse_turn := (parse_turn parse_statement).

Lemma skip_read_loop_all (range bl : list ascii) :
  Forall (fun c => inb c range = true) bl ->
  forall p, skip_read_loop range bl p = (None, p + length bl).
Proof.
  induction 1 as [|b bl Hb _ IH]; intros p.
  - cbn [skip_read_loop length]. f_equal. lia.
  - cbn [skip_read_loop length]. rewrite Hb, IH. f_equal. lia.
Qed.

Lemma no_events_pending (st : State) :
  enabled (events st) = [] -> handle_basic_events st = (Ok tt, st).
Proof.
  intros Hnone. unfold handle_basic_events, bind, gets. rewrite Hnone.
  by destruct (suspend_all (events st) || negb (run_mode st)).
Qed.

(** X29. At the end of the program (the end of the buffer, a line
    record whose offset is zero, or one that is cut short), one turn of
    the main loop with no events pending stops the run: the interpreter
    leaves run mode with the direct line at its end, and the loop is
    over. When an error handler has not been left by RESUME, the turn
    raises No RESUME instead, and this error is not trapped, whatever
    the trap is. *)
Theorem parse_turn_at_program_end (bl tail : list ascii) (st : State) :
  enabled (events st) = [] ->
  Forall (fun c => inb c blanks = true) bl ->
  unread (current_stream st) = bl ++ tail ->
  END_LINE (head tail) = true ->
  is_nul_nul (take 2 (drop 1 tail)) || (length (drop 1 tail) <? 4) = true ->
  (error_resume st = None ->
   exists st',
     parse_turn st = (Ok false, st')
     /\ run_mode st' = false
     /\ tell (direct_line st') = length (getvalue (direct_line st'))
     /\ current_statement st' = tell (current_stream st)
     /\ gosub_stack st' = gosub_stack st
     /\ for_stack st' = for_stack st)
  /\ (forall r,
        error_resume st = Some r ->
        let p := (Z.of_nat (tell (current_stream st) + length bl
                            + len1 (head tail)) - 2)%Z in
        exists st',
          parse_turn st = (Raise {| err := NO_RESUME; pos := Some p |}, st')
          /\ run_mode st' = false
          /\ error_handle_mode st' = false
          /\ error_num st' = NO_RESUME
          /\ error_pos st' = p
          /\ error_resume st' = Some r
          /\ on_error st' = on_error st).
Proof.
  intros Hnone Hbl Hu Hend Hcut. unfold current_stream in *.
  set (ins := run_mode st) in *.
  assert (Hc : skip_blank_read (stream_of ins st)
               = (head tail,
                  seek (tell (stream_of ins st) + length bl
                        + len1 (head tail)) (stream_of ins st))).
  { unfold skip_blank_read, skip_read1. rewrite Hu.
    destruct tail as [|c tail].
    - rewrite app_nil_r, (skip_read_loop_all _ _ Hbl). cbn [head len1].
      do 2 f_equal. lia.
    - cbn [head END_LINE] in Hend. apply Ascii.eqb_eq in Hend. subst c.
      by rewrite (skip_read_loop_run blanks bl NUL tail Hbl eq_refl). }
  set (s1 := seek (tell (stream_of ins st) + length bl + len1 (head tail))
               (stream_of ins st)) in *.
  assert (Hu1 : unread s1 = drop 1 tail).
  { unfold s1. rewrite <- Nat.add_assoc, unread_seek, Hu.
    rewrite drop_app_ge by lia.
    replace (length bl + len1 (head tail) - length bl)
      with (len1 (head tail)) by lia.
    by destruct tail. }
  assert (Htok : is_nul_nul (take 2 (take 4 (unread s1)))
                 || (length (take 4 (unread s1)) <? 4) = true).
  { rewrite Hu1, take_take. change (2 `min` 4) with 2.
    apply orb_true_iff in Hcut as [Hn|Hl]; [by rewrite Hn|].
    apply orb_true_iff. right. apply Nat.ltb_lt in Hl. apply Nat.ltb_lt.
    rewrite length_take. lia. }
  assert (Hcs : forall x, stream_of ins (set_current_statement x st)
                          = stream_of ins st) by (by destruct ins).
  unfold Interpreter.parse_turn, Interpreter.parse_turn_body.
  unfold bind, gets, modify, get_codestream, stream_tell, on_stream.
  rewrite (no_events_pending st Hnone). simpl. fold ins.
  rewrite put_stream_same, Hcs, Hc, Hend. simpl.
  rewrite stream_of_put_stream, put_stream_put_stream, Htok.
  assert (Her : forall s x,
    error_resume (put_stream ins s (set_current_statement x st))
    = error_resume st) by (by destruct ins).
  rewrite Her. split.
  - intros ->. simpl. eexists. split; [reflexivity|].
    unfold ins. destruct (run_mode st); simpl; auto 10.
  - intros r Hr.
    set (p := (Z.of_nat (tell (stream_of ins st) + length bl
                         + len1 (head tail)) - 2)%Z).
    rewrite Hr. unfold raise. cbv beta iota zeta.
    rewrite trap_error_raises.
    2:{ replace (error_handle_mode _) with true
          by (unfold ins; by destruct (run_mode st)).
        apply andb_false_r. }
    cbn [pos err].
    replace (stream_of ins (set_error_handle_mode true
               (put_stream ins (seek (tell s1 + length (take 4 (unread s1)))
                                  s1)
                  (set_current_statement (tell (stream_of ins st)) st))))
      with (seek (tell s1 + length (take 4 (unread s1))) s1)
      by (unfold ins; by destruct (run_mode st)).
    cbn [tell seek s1].
    replace (Z.of_nat (tell (stream_of ins st) + length bl
                       + len1 (head tail) + length (take 4 (unread s1)))
             - Z.of_nat (length (take 4 (unread s1))) - 2)%Z
      with p by (unfold p; lia).
    eexists. split; [reflexivity|].
    unfold ins. destruct (run_mode st); simpl; auto 10.
Qed.

End Parse.

(** *** IF *)

Section If.
Context (IF : ascii).

#[local] Abbreviation if_ := (if_ (V:=V) IF).

Lemma run_mode_advance (ins : bool) (k : nat) (st : State) :
  run_mode (advance ins k st) = run_mode st.
Proof. by destruct ins. Qed.

Lemma read_token_if (ins : bool) (c : ascii) (rest : list ascii)
    (st : State) :
  inb c blanks = false ->
  unread (stream_of ins st) = c :: rest ->
  on_stream ins (skip_blank_read_if [c]) st
  = (Ok (Some c), advance ins 1 st).
Proof.
  intros Hc Hu. unfold on_stream, skip_blank_read_if.
  rewrite (skip_blank_at _ c rest Hu Hc). cbn [read_if].
  rewrite inb_self.
  rewrite read_at by (rewrite Hu; cbn [length]; lia). reflexivity.
Qed.

Lemma parse_no_jumpnum (ins : bool) (c : ascii) (rest : list ascii)
    (st : State) :
  inb c blanks = false -> c <> T_UINT ->
  unread (stream_of ins st) = c :: rest ->
  _parse_optional_jumpnum ins st = (Ok None, st).
Proof.
  intros Hc Hne Hu. unfold _parse_optional_jumpnum, bind, on_stream.
  rewrite (skip_blank_at _ c rest Hu Hc). cbn [opt_inb].
  rewrite inb_one. apply Ascii.eqb_neq in Hne. rewrite Hne. cbn [negb].
  by rewrite put_stream_same.
Qed.

(** X30. IF with a false condition looks for the ELSE of its own line.
    Over a THEN clause of plain tokens with no colon and no nested IF:
    when the line ends there, the statement ends at the line end and
    nothing is run; when [:ELSE] and a line number follow, it jumps to
    that line; when [:ELSE] and a statement follow, the stream is left
    at that statement. *)
Theorem if_false_takes_else (body rest : list ascii) (st : State) :
  uint_apart ->
  inb REM [NUL; ":"] = false ->
  inb IF [NUL; ":"] = false ->
  inb ELSE blanks = false ->
  Forall (fun c => plain c = true /\ inb c [":"; IF] = false) body ->
  unread (current_stream st) = body ++ rest ->
  (END_LINE (head rest) = true ->
   if_ true st = (Ok tt, advance (run_mode st) (length body) st))
  /\ (forall t rest',
        t < 256 * 256 ->
        rest = ":" :: ELSE :: encode_target t ++ rest' ->
        if_ true st
        = jump (Some t) UNDEFINED_LINE_NUMBER
            (advance (run_mode st) (length body + 5) st))
  /\ (forall c rest',
        inb c blanks = false -> c <> T_UINT ->
        rest = ":" :: ELSE :: c :: rest' ->
        if_ true st
        = (Ok tt, advance (run_mode st) (length body + 2) st)).
Proof.
  intros Hapart Hrem Hif Helse Hbody Hu. unfold current_stream in *.
  set (ins := run_mode st) in *.
  set (fr := END_STATEMENT_chars ++ [IF]).
  assert (Hrn : Ascii.eqb NUL REM = false /\ Ascii.eqb ":" REM = false).
  { unfold inb in Hrem. cbn [existsb] in Hrem.
    apply orb_false_iff in Hrem as [Hn Hc].
    apply orb_false_iff in Hc as [Hc _].
    by rewrite !(Ascii.eqb_sym _ REM). }
  destruct Hrn as [Hrn Hrc].
  assert (Hin : Ascii.eqb NUL IF = false /\ Ascii.eqb ":" IF = false).
  { unfold inb in Hif. cbn [existsb] in Hif.
    apply orb_false_iff in Hif as [Hn Hc].
    apply orb_false_iff in Hc as [Hc _].
    by rewrite !(Ascii.eqb_sym _ IF). }
  destruct Hin as [Hin Hic].
  assert (Hfn : flags NUL false false = (false, false)).
  { unfold flags. change (Ascii.eqb NUL QUOTE) with false. cbv iota.
    by rewrite Hrn, Ascii.eqb_refl. }
  assert (Hfc : flags ":" false false = (false, false)).
  { unfold flags. change (Ascii.eqb ":" QUOTE) with false. cbv iota.
    rewrite Hrc. by change (Ascii.eqb ":" NUL) with false. }
  assert (Hbody' : Forall (fun c => plain c = true /\ inb c fr = false) body).
  { eapply Forall_impl; [exact Hbody|]. intros c [Hp Hc]. split; [done|].
    destruct (plain_spec c Hp) as (_ & _ & _ & _ & Hn).
    unfold fr, END_STATEMENT_chars, inb in *. cbn [existsb app] in *.
    rewrite Hn. exact Hc. }
  assert (Hskip : (match rest with
                   | [] => True
                   | x :: _ => x = NUL \/ x = ":"
                   end) ->
    skip_to fr true (stream_of ins st)
    = seek (tell (stream_of ins st) + length body) (stream_of ins st)).
  { intros Hrest. unfold skip_to. rewrite Hu, length_app.
    replace (S (length body + length rest))
      with (length body + S (length rest)) by lia.
    apply (skip_to_loop_statement fr body rest); [done|done| |lia].
    destruct rest as [|x rest]; [done|].
    destruct Hrest as [-> | ->]; by split. }
  assert (Hs1 : unread (seek (tell (stream_of ins st) + length body)
                          (stream_of ins st)) = rest).
  { by rewrite unread_seek, Hu, drop_app_length. }
  assert (Hstart : forall k : M (V:=V) unit,
    bind (if true
          then bind get_codestream (fun ins0 =>
               bind (on_stream ins0 (fun s => (unread s, s))) (fun rest0 =>
               if_else_loop IF (S (length rest0)) ins0 0))
          else ret tt) (fun _ => k) st
    = bind (if_else_loop IF (S (length (body ++ rest))) ins 0)
        (fun _ => k) st).
  { intros k. unfold bind, get_codestream, gets, on_stream. fold ins.
    by rewrite put_stream_same, Hu. }
  unfold Interpreter.if_. rewrite Hstart. clear Hstart.
  cbn [if_else_loop]. fold fr.
  split; [|split].
  - intros Hend.
    assert (Hrest : match rest with
                    | [] => True
                    | x :: _ => x = NUL \/ x = ":"
                    end).
    { destruct rest as [|x rest]; [done|]. left.
      cbn [head END_LINE] in Hend. by apply Ascii.eqb_eq in Hend. }
    unfold bind at 1. unfold bind at 1. unfold on_stream at 1, skip_to_read.
    rewrite (Hskip Hrest). unfold read1. rewrite Hs1.
    destruct rest as [|x rest].
    + cbn [opt_inb len1]. unfold bind, do_stream, on_stream, get_codestream,
        gets.
      rewrite stream_of_put_stream, put_stream_put_stream.
      unfold seek_back. cbn [tell seek]. rewrite Nat.sub_0_r, seek_seek.
      rewrite put_stream_seek. fold (advance ins (length body) st).
      rewrite run_mode_advance. fold ins.
      rewrite (parse_no_target ins [] _ Hapart eq_refl); [done|].
      by rewrite unread_advance, Hu, drop_app_length.
    + cbn [head END_LINE] in Hend. apply Ascii.eqb_eq in Hend. subst x.
      cbn [opt_inb]. rewrite !inb_one, Hin.
      change (Ascii.eqb NUL ":") with false. cbn [len1].
      unfold bind, do_stream, on_stream, get_codestream, gets.
      rewrite stream_of_put_stream, put_stream_put_stream.
      unfold seek_back. cbn [tell seek].
      replace (S (tell (stream_of ins st) + length body) - 1)
        with (tell (stream_of ins st) + length body) by lia.
      rewrite !seek_seek, put_stream_seek.
      rewrite run_mode_advance. fold ins.
      rewrite (parse_no_target ins (NUL :: rest) _ Hapart eq_refl); [done|].
      by rewrite unread_advance, Hu, drop_app_length.
  - intros t rest' Ht ->.
    unfold bind at 1. unfold bind at 1. unfold on_stream at 1, skip_to_read.
    rewrite (Hskip (or_intror eq_refl)). unfold read1. rewrite Hs1.
    cbn [opt_inb]. rewrite !inb_one, Hic, Ascii.eqb_refl.
    cbn [tell seek]. rewrite seek_seek.
    replace (S (tell (stream_of ins st) + length body))
      with (tell (stream_of ins st) + (length body + 1)) by lia.
    rewrite put_stream_seek.
    unfold bind at 1.
    rewrite (read_token_if ins ELSE (encode_target t ++ rest') _ Helse).
    2:{ rewrite unread_advance, Hu, drop_app_ge by lia.
        by replace (length body + 1 - length body) with 1 by lia. }
    change (0 <? 0) with false. cbv iota. unfold ret at 1.
    rewrite advance_advance.
    unfold bind at 1. unfold get_codestream. unfold gets at 1.
    unfold bind at 1. rewrite run_mode_advance. fold ins.
    rewrite (parse_target ins t rest' _ Hapart Ht).
    2:{ rewrite unread_advance, Hu, drop_app_ge by lia.
        by replace (length body + 1 + 1 - length body) with 2 by lia. }
    rewrite advance_advance. cbv beta iota.
    by replace (length body + 1 + 1 + 3) with (length body + 5) by lia.
  - intros c rest' Hcb Hc ->.
    unfold bind at 1. unfold bind at 1. unfold on_stream at 1, skip_to_read.
    rewrite (Hskip (or_intror eq_refl)). unfold read1. rewrite Hs1.
    cbn [opt_inb]. rewrite !inb_one, Hic, Ascii.eqb_refl.
    cbn [tell seek]. rewrite seek_seek.
    replace (S (tell (stream_of ins st) + length body))
      with (tell (stream_of ins st) + (length body + 1)) by lia.
    rewrite put_stream_seek.
    unfold bind at 1.
    rewrite (read_token_if ins ELSE (c :: rest') _ Helse).
    2:{ rewrite unread_advance, Hu, drop_app_ge by lia.
        by replace (length body + 1 - length body) with 1 by lia. }
    change (0 <? 0) with false. cbv iota. unfold ret at 1.
    rewrite advance_advance.
    unfold bind at 1. unfold get_codestream. unfold gets at 1.
    unfold bind at 1. rewrite run_mode_advance. fold ins.
    rewrite (parse_no_jumpnum ins c rest' _ Hcb Hc).
    2:{ rewrite unread_advance, Hu, drop_app_ge by lia.
        by replace (length body + 1 + 1 - length body) with 2 by lia. }
    by replace (length body + 1 + 1) with (length body + 2) by lia.
Qed.

End If.

End Engine.

Import GW.

Lemma trap_error_untrapped_witness :
  let st := in_program empty_loop_program empty_loop_lines 20 24 in
  exists st',
    trap_error {| err := 11; pos := None |} st
    = (Raise {| err := 11; pos := Some 23%Z |}, st')
    /\ error_num st' = 11%Z
    /\ error_pos st' = 23%Z
    /\ run_mode st' = false
    /\ error_handle_mode st' = false
    /\ tell (direct_line st') = 0
    /\ program_code st' = program_code st
    /\ gosub_stack st' = gosub_stack st
    /\ for_stack st' = for_stack st
    /\ on_error st' = on_error st
    /\ error_resume st' = error_resume st.
Proof.
  intros st.
  exact (trap_error_untrapped {| err := 11; pos := None |} st
           (or_introl eq_refl)).
Defined.

Lemma on_error_goto_arms_trap_witness :
  let st := in_program empty_loop_program empty_loop_lines 20 24 in
  exists st2,
    on_error_goto_ 40 st = (Ok tt, set_on_error (Some 40) st)
    /\ trap_error {| err := 11; pos := None |} (set_on_error (Some 40) st)
       = (Ok tt, st2)
    /\ run_mode st2 = true
    /\ tell (program_code st2) = 33
    /\ error_num st2 = 11%Z
    /\ error_handle_mode st2 = true
    /\ error_resume st2 = Some (20, true)
    /\ gosub_stack st2 = []
    /\ for_stack st2 = [].
Proof.
  intros st.
  apply (on_error_goto_arms_trap 40 33 {| err := 11; pos := None |} st);
    [lia|reflexivity|reflexivity].
Defined.

Lemma resume_without_error_witness :
  let st := set_on_error (Some 40)
              (in_program empty_loop_program empty_loop_lines 20 24) in
  resume_ None st
  = (Raise (run_error RESUME_WITHOUT_ERROR), set_on_error (Some 0) st)
  /\ forall e,
       exists p,
         fst (trap_error e (snd (resume_ None st)))
         = Raise {| err := err e; pos := Some p |}.
Proof.
  intros st. apply (resume_without_error None st). reflexivity.
Defined.

Lemma gosub_return_round_trip_witness :
  let st := with_events []
              (in_program empty_loop_program empty_loop_lines 33 39) in
  exists st1,
    gosub_ (Some 20) st = (Ok tt, st1)
    /\ tell (program_code st1) = 15
    /\ gosub_stack st1
       = [{| g_pos := 39; g_runmode := true; g_handler := None |}]
    /\ return_ None st1 = (Ok tt, st).
Proof.
  intros st. apply (gosub_return_round_trip 20 15 st); reflexivity.
Defined.

Lemma event_handler_round_trip_witness :
  let h := {| triggered := true; stopped := false; gosub := Some 40 |} in
  let st := with_events [h]
              (in_program empty_loop_program empty_loop_lines 15 15) in
  exists st1 st2,
    handle_basic_events st = (Ok tt, st1)
    /\ tell (program_code st1) = 33
    /\ gosub_stack st1
       = [{| g_pos := 15; g_runmode := true; g_handler := Some 0 |}]
    /\ handlers (events st1) !! 0
       = Some {| triggered := false; stopped := true; gosub := Some 40 |}
    /\ handle_basic_events st1 = (Ok tt, st1)
    /\ return_ None st1 = (Ok tt, st2)
    /\ gosub_stack st2 = []
    /\ handlers (events st2) !! 0
       = Some {| triggered := false; stopped := false; gosub := Some 40 |}
    /\ program_code st2
       = skip_to END_STATEMENT_chars true (program_code st).
Proof.
  intros h st.
  apply (event_handler_round_trip 0 40 33 h st); reflexivity.
Defined.

Lemma for_enters_loop_witness :
  let st := in_program empty_loop_program empty_loop_lines 5 15 in
  for_ complete_name ["I"; "%"] 1%Z 5%Z None st
  = (Ok tt,
     set_for_stack
       [{| counter_view := ["I"; "%"]; f_stop := 5%Z; f_step := 1%Z;
           f_sgn := 1%Z; forpos := 15; nextpos := 33 |}]
       (set_scalars (<[ ["I"; "%"] := 1%Z ]> ∅) st)).
Proof.
  intros st.
  rewrite (for_enters_loop complete_name ["I"; "%"] "%" 1%Z 5%Z None
             1%Z 5%Z 1%Z st 15 33) by reflexivity.
  reflexivity.
Defined.

Lemma jumpnum_round_trip_witness :
  let st := in_program on_goto_program on_goto_lines 5 9 in
  let st1 := advance true 1 st in
  _parse_jumpnum true st1 = (Ok 10, advance true 3 st1)
  /\ fst (_parse_jumpnum false
            (in_direct_line return_program return_lines
               ["137"; "014"; "100"] 1)) = Crash
  /\ _parse_jumpnum true st = (Raise (run_error STX), st).
Proof.
  intros st st1.
  assert (Hapart : uint_apart) by reflexivity.
  split; [|split].
  - destruct (jumpnum_round_trip true [] st1 Hapart (Forall_nil_2 _))
      as (Hok & _ & _).
    apply (Hok 10 (drop 3 (unread (program_code st1)))); [lia|reflexivity].
  - destruct (jumpnum_round_trip false []
                (in_direct_line return_program return_lines
                   ["137"; "014"; "100"] 1) Hapart (Forall_nil_2 _))
      as (_ & Hcut & _).
    apply (Hcut ["100"]); [cbn [length]; lia|reflexivity].
  - destruct (jumpnum_round_trip true [] st Hapart (Forall_nil_2 _))
      as (_ & _ & Hstx).
    rewrite (Hstx GOTO (drop 1 (unread (program_code st))));
      [|discriminate|reflexivity|reflexivity].
    by rewrite advance_0.
Defined.


Lemma wend_pops_to_own_loop_witness :
  let st := set_while_stack [(7, 24); (30, 40)]
              (in_program empty_loop_program empty_loop_lines 15 24) in
  wend_ 30 condition_one Ok (Z.eqb 0) st
  = _check_while_condition condition_one Ok (Z.eqb 0) true 7
      (set_while_stack [(7, 24)] st)
  /\ while_stack (snd (wend_ 30 condition_one Ok (Z.eqb 0) st)) = [(7, 24)].
Proof.
  intros st.
  destruct (wend_pops_to_own_loop 30 condition_one Ok (Z.eqb 0) st eq_refl)
    as [_ Hfound].
  rewrite (Hfound [] 7 [(30, 40)] eq_refl).
  - split; reflexivity.
  - apply Forall_cons_2; [cbn; lia|apply Forall_nil_2].
Defined.

Lemma wend_never_grows_stack_witness :
  let st := set_while_stack [(7, 24); (30, 40)]
              (in_program empty_loop_program empty_loop_lines 15 24) in
  length (while_stack (snd (wend_ 30 condition_one Ok (Z.eqb 0) st))) <= 2.
Proof.
  intros st.
  apply (wend_never_grows_stack 30 condition_one Ok (Z.eqb 0) st).
  intros ins st0. reflexivity.
Defined.

Lemma erl_after_direct_error_witness :
  let st := in_direct_line return_program return_lines gosub_direct_line 4 in
  let e := {| err := 11; pos := None |} in
  fst (erl_ (fun _ => 0%Z) (snd (trap_error e st))) = Ok 65535%Z
  /\ fst (err_ (snd (trap_error e st))) = Ok 11%Z.
Proof.
  intros st e.
  apply (erl_after_direct_error (fun _ => 0%Z) e st); reflexivity.
Defined.

Lemma parse_turn_at_program_end_witness :
  let st := in_program empty_loop_program empty_loop_lines 33 39 in
  (exists st',
     parse_turn no_statement st = (Ok false, st')
     /\ run_mode st' = false)
  /\ (exists st',
        parse_turn no_statement (set_error_resume (Some (15, true)) st)
        = (Raise {| err := NO_RESUME; pos := Some 38%Z |}, st')
        /\ error_handle_mode st' = false).
Proof.
  intros st. split.
  - destruct (parse_turn_at_program_end no_statement [] [NUL; NUL; NUL] st)
      as [Hend _]; [reflexivity|apply Forall_nil_2|reflexivity|reflexivity
                   |reflexivity|].
    destruct (Hend eq_refl) as (st' & Hrun & Hmode & _).
    exists st'. auto.
  - destruct (parse_turn_at_program_end no_statement [] [NUL; NUL; NUL]
                (set_error_resume (Some (15, true)) st))
      as [_ Hres]; [reflexivity|apply Forall_nil_2|reflexivity|reflexivity
                   |reflexivity|].
    destruct (Hres (15, true) eq_refl) as (st' & Hrun & _ & Hmode & _).
    exists st'. auto.
Defined.

Lemma if_false_takes_else_witness :
  let st := in_direct_line return_program return_lines if_else_line 3 in
  if_ token_IF true st
  = jump (Some 100) UNDEFINED_LINE_NUMBER (advance false 6 st)
  /\ run_mode (snd (if_ token_IF true st)) = true
  /\ tell (program_code (snd (if_ token_IF true st))) = 0.
Proof.
  intros st.
  destruct (if_false_takes_else token_IF ["145"]
              [":"; "161"; "014"; "100"; "000"] st)
    as (_ & Helse & _).
  - reflexivity.
  - reflexivity.
  - reflexivity.
  - reflexivity.
  - apply Forall_cons_2; [split; reflexivity|apply Forall_nil_2].
  - reflexivity.
  - rewrite (Helse 100 []); [|lia|reflexivity].
    repeat split; reflexivity.
Defined.

End ControlFacts.
